(** * Translation pipeline of trace-generation: Record Store, Translation
    Engine and Orchestrator

    A shallow embedding of [translation.py], [traceWithThink.py] and
    [translate_pipeline.py].  Python strings are lists of code points, the
    SQLite table [leetcode_reasoning] is a list of rows, and the effects of
    the program (calls to [ollama.generate], [time.sleep], clock readings,
    SQL statements, Python exceptions) are threaded through a small
    state-and-exception monad.  The exceptions of [time.sleep] and of
    [cursor.execute] (a parameter that cannot be bound, a table that is
    full or missing) are part of the model.  Logging and printing carry no
    behaviour and are left out. *)

From Stdlib Require Import ZArith List String Ascii Bool Lia.
From Stdlib Require Import Permutation Sorted DecimalString.
Import ListNotations.
Local Open Scope Z_scope.

(* ================================================================== *)
(** ** Python strings *)

Module PyStr.

(** A [str] is a sequence of Unicode code points. *)
Definition str := list N.

(** An ASCII literal of the source. *)
Definition lit (s : string) : str := map N_of_ascii (list_ascii_of_string s).

Definition nl : str := [10%N].

Fixpoint str_eqb (a b : str) : bool :=
  match a, b with
  | [], [] => true
  | c :: a', d :: b' => (c =? d)%N && str_eqb a' b'
  | _, _ => false
  end.

(** [str.isspace] on one code point (the whitespace set of CPython). *)
Definition isspace (c : N) : bool :=
  ((9 <=? c) && (c <=? 13) || (28 <=? c) && (c <=? 32)
   || (c =? 133) || (c =? 160) || (c =? 5760)
   || (8192 <=? c) && (c <=? 8202)
   || (c =? 8232) || (c =? 8233) || (c =? 8239) || (c =? 8287)
   || (c =? 12288))%N.

Fixpoint lstrip (s : str) : str :=
  match s with
  | c :: s' => if isspace c then lstrip s' else s
  | [] => []
  end.

Definition rstrip (s : str) : str := rev (lstrip (rev s)).

(** [s.strip()] *)
Definition strip (s : str) : str := rstrip (lstrip s).

(** [s.startswith(p)] *)
Fixpoint startswith (s p : str) : bool :=
  match p, s with
  | [], _ => true
  | c :: p', d :: s' => (c =? d)%N && startswith s' p'
  | _ :: _, [] => false
  end.

(** [s.startswith((p1, ..., pn))] *)
Definition startswith_any (s : str) (ps : list str) : bool :=
  existsb (startswith s) ps.

(** [str(n)] / [f"{n}"] for a Python int. *)
Definition format_int (n : Z) : str := lit (NilZero.string_of_int (Z.to_int n)).

(** Python truthiness of a string. *)
Definition truthy (s : str) : bool :=
  match s with [] => false | _ :: _ => true end.

End PyStr.
Import PyStr.

(* ================================================================== *)
(** ** Configuration ([config.py], and the fallback of [translation.py]) *)

Record config := {
  TRANSLATION_MODEL_NAME : str;
  MAX_RETRIES : Z;
  RETRY_DELAY : Z
}.

Definition default_config : config :=
  {| TRANSLATION_MODEL_NAME := lit "qwen3:8b";
     MAX_RETRIES := 3;
     RETRY_DELAY := 2 |}.

(* ================================================================== *)
(** ** Data model: the table [leetcode_reasoning] *)

(** The column [translation_status] is TEXT; the program only ever writes
    the two literals ['pending'] and ['completed']. *)
Inductive status := pending | completed.

Definition status_eqb (a b : status) : bool :=
  match a, b with
  | pending, pending | completed, completed => true
  | _, _ => false
  end.

Definition timestamp := Z.

Record row := {
  id : Z;
  title : str;
  content : str;
  trace_en_with_think : str;
  trace_hi_with_think : option str;          (* NULL is [None] *)
  translation_status : status;
  created_at : timestamp;
  translated_at : option timestamp           (* NULL is [None] *)
}.

(** The rows of the table, in insertion order. *)
Definition table := list row.

(** What one element of [get_untranslated_traces] carries: the keys
    ['id'], ['title'] and ['trace_en_with_think']. *)
Record trace := {
  trace_id : Z;
  trace_title : str;
  trace_en : str
}.

(** An element of [entries_with_traces]; the key ['trace_hi_with_think']
    is optional. *)
Record entry_with_trace := {
  e_title : str;
  e_content : str;
  e_trace_en_with_think : str;
  e_trace_hi_with_think : option str
}.

(** An entry as the loop of [main] handles it: a title and a content that
    are strings. *)
Record entry := {
  entry_title : str;
  entry_content : str
}.

(** The dictionary returned by [check_database_status]. *)
Record db_status := {
  total_traces : nat;
  completed_translations : nat;
  pending_translations : nat
}.

(* ================================================================== *)
(** ** The SQL statements of the program, as functions on the table *)

Module Sql.

(** SQLite's INTEGER, and so a rowid, is a signed 64-bit number. *)
Definition min_integer : Z := - 2 ^ 63.
Definition max_integer : Z := 2 ^ 63 - 1.

Definition largest_id (t : table) : Z := fold_right Z.max 0 (map id t).

(** [id INTEGER PRIMARY KEY AUTOINCREMENT]: one more than the largest id
    (no statement of the program deletes a row).  [None]: the largest
    rowid is taken and the INSERT fails, the table is full. *)
Definition next_id (t : table) : option Z :=
  if max_integer <=? largest_id t then None else Some (1 + largest_id t).

(** [INSERT INTO leetcode_reasoning (title, content, trace_en_with_think,
    translation_status) VALUES (?, ?, ?, 'pending')], for the id and the
    [CURRENT_TIMESTAMP] the engine picks. *)
Definition insert_pending (ti co en : str) (new_id : Z) (created : timestamp)
  (t : table) : table :=
  t ++ [ {| id := new_id; title := ti; content := co;
            trace_en_with_think := en; trace_hi_with_think := None;
            translation_status := pending; created_at := created;
            translated_at := None |} ].

(** [INSERT INTO leetcode_reasoning (title, content, trace_en_with_think,
    trace_hi_with_think, translation_status, translated_at)
    VALUES (?, ?, ?, ?, 'completed', ?)] *)
Definition insert_completed (ti co en hi : str) (translated : timestamp)
  (new_id : Z) (created : timestamp) (t : table) : table :=
  t ++ [ {| id := new_id; title := ti; content := co;
            trace_en_with_think := en; trace_hi_with_think := Some hi;
            translation_status := completed; created_at := created;
            translated_at := Some translated |} ].

(** [SET trace_hi_with_think = ?, translation_status = 'completed',
    translated_at = ?] on one row. *)
Definition set_translation (hi : str) (at_ : timestamp) (r : row) : row :=
  {| id := id r; title := title r; content := content r;
     trace_en_with_think := trace_en_with_think r;
     trace_hi_with_think := Some hi;
     translation_status := completed;
     created_at := created_at r;
     translated_at := Some at_ |}.

(** [UPDATE leetcode_reasoning SET ... WHERE id = ?] *)
Definition update_where_id (hi : str) (at_ : timestamp) (i : Z) (t : table)
  : table :=
  map (fun r => if id r =? i then set_translation hi at_ r else r) t.

(** [UPDATE leetcode_reasoning SET ...
    WHERE title = ? AND trace_en_with_think = ?] *)
Definition update_where_title_trace (hi : str) (at_ : timestamp)
  (ti en : str) (t : table) : table :=
  map (fun r => if str_eqb (title r) ti && str_eqb (trace_en_with_think r) en
                then set_translation hi at_ r else r) t.

(** [WHERE translation_status = 'pending' OR trace_hi_with_think IS NULL] *)
Definition is_untranslated (r : row) : bool :=
  status_eqb (translation_status r) pending
  || match trace_hi_with_think r with None => true | Some _ => false end.

(** [WHERE translation_status = "completed"
    AND trace_hi_with_think IS NOT NULL] *)
Definition is_translated (r : row) : bool :=
  status_eqb (translation_status r) completed
  && match trace_hi_with_think r with None => false | Some _ => true end.

(** [ORDER BY id ASC] *)
Fixpoint insert_by_id (r : row) (l : list row) : list row :=
  match l with
  | [] => [r]
  | r' :: l' => if id r <=? id r' then r :: l else r' :: insert_by_id r l'
  end.

Fixpoint order_by_id (l : list row) : list row :=
  match l with
  | [] => []
  | r :: l' => insert_by_id r (order_by_id l')
  end.

(** [SELECT id, title, trace_en_with_think FROM leetcode_reasoning
    WHERE translation_status = 'pending' OR trace_hi_with_think IS NULL
    ORDER BY id ASC] *)
Definition select_untranslated (t : table) : list (Z * str * str) :=
  map (fun r => (id r, title r, trace_en_with_think r))
      (order_by_id (filter is_untranslated t)).

(** [SELECT COUNT( * ) FROM leetcode_reasoning [WHERE ...]] *)
Definition count_all (t : table) : nat := List.length t.
Definition count_where (p : row -> bool) (t : table) : nat :=
  List.length (filter p t).

End Sql.

(* ================================================================== *)
(** ** Effects: the world, the environment and the monad *)

(** A Python exception; [str(e)] is its message. *)
Inductive exn := Exception (msg : str).

Definition exn_str (e : exn) : str := let 'Exception m := e in m.

(** *** What [cursor.execute] does with the parameters of a statement *)

(** A parameter: a [str], an [int] or a [datetime]. *)
Inductive sql_param :=
| PText (s : str)
| PInteger (i : Z)
| PTimestamp (t : timestamp).

(** A text is bound in UTF-8, which has no encoding for a surrogate. *)
Definition is_surrogate (c : N) : bool := ((55296 <=? c) && (c <=? 57343))%N.

Definition utf8_encodable (s : str) : bool :=
  forallb (fun c => negb (is_surrogate c)) s.

Definition hex_digit (n : N) : N :=
  if (n <? 10)%N then (48 + n)%N else (87 + n)%N.

(** [format(c, '04x')] *)
Definition hex4 (c : N) : str :=
  [ hex_digit ((c / 4096) mod 16); hex_digit ((c / 256) mod 16);
    hex_digit ((c / 16) mod 16); hex_digit (c mod 16) ]%N.

(** The number of surrogates a string begins with. *)
Fixpoint surrogate_run (s : str) : nat :=
  match s with
  | c :: s' => if is_surrogate c then S (surrogate_run s') else O
  | [] => O
  end.

(** The text of the UnicodeEncodeError of [s.encode('utf-8')], [s] being
    what follows position [start] of the string; [None] when [s] has no
    surrogate.  The error names the first run of surrogates. *)
Fixpoint encode_error_from (start : nat) (s : str) : option str :=
  match s with
  | [] => None
  | c :: s' =>
      if is_surrogate c then
        Some match surrogate_run s' with
             | O =>
                 lit "'utf-8' codec can't encode character '\u" ++ hex4 c
                 ++ lit "' in position " ++ format_int (Z.of_nat start)
                 ++ lit ": surrogates not allowed"
             | S n =>
                 lit "'utf-8' codec can't encode characters in position "
                 ++ format_int (Z.of_nat start) ++ lit "-"
                 ++ format_int (Z.of_nat (start + S n))
                 ++ lit ": surrogates not allowed"
             end
      else encode_error_from (S start) s'
  end.

(** Binding one parameter: [None] when it is bound, the exception
    otherwise (UnicodeEncodeError for a text, OverflowError for an int
    outside SQLite's INTEGER). *)
Definition bind_parameter (p : sql_param) : option exn :=
  match p with
  | PText s => option_map Exception (encode_error_from 0 s)
  | PInteger i =>
      if (Sql.min_integer <=? i) && (i <=? Sql.max_integer) then None
      else Some (Exception
                   (lit "Python int too large to convert to SQLite INTEGER"))
  | PTimestamp _ => None
  end.

(** The parameters are bound from left to right; the first that cannot be
    bound raises. *)
Fixpoint bind_parameters (params : list sql_param) : option exn :=
  match params with
  | [] => None
  | p :: params' =>
      match bind_parameter p with
      | Some e => Some e
      | None => bind_parameters params'
      end
  end.

(** What one call of [ollama.generate] does: it raises, or it returns a
    mapping whose ['response'] key may be missing. *)
Inductive reply :=
| Raises (e : exn)
| Returns (response : option str).

(** The outside of the program: the generation service (its reply to the
    k-th call, given model and prompt), the clock (its k-th reading) and
    the timer behind [time.sleep]: for a delay that is not negative,
    [None] when it sleeps that long, and otherwise the exception it raises
    (OverflowError for a delay it cannot count, OSError when the system
    refuses it). *)
Record env := {
  ollama_generate : nat -> str -> str -> reply;
  datetime_now : nat -> timestamp;
  time_sleep : Z -> option exn
}.

Record world := {
  db : option table;   (* [None]: the file has no table leetcode_reasoning *)
  calls : nat;         (* calls of [ollama.generate] made so far *)
  clock : nat;         (* clock readings taken so far *)
  slept : Z            (* seconds spent in [time.sleep] *)
}.

Definition set_db (d : option table) (w : world) : world :=
  {| db := d; calls := calls w; clock := clock w; slept := slept w |}.

Definition called (w : world) : world :=
  {| db := db w; calls := S (calls w); clock := clock w; slept := slept w |}.

Definition ticked (w : world) : world :=
  {| db := db w; calls := calls w; clock := S (clock w); slept := slept w |}.

Definition rested (d : Z) (w : world) : world :=
  {| db := db w; calls := calls w; clock := clock w; slept := slept w + d |}.

(** The rows a world holds. *)
Definition records (w : world) : table :=
  match db w with Some t => t | None => [] end.

Inductive result (A : Type) :=
| Ok (a : A)
| Raised (e : exn).
Arguments Ok {A} a.
Arguments Raised {A} e.

Definition M (A : Type) : Type := world -> result A * world.

Definition ret {A} (a : A) : M A := fun w => (Ok a, w).

Definition bind {A B} (c : M A) (k : A -> M B) : M B :=
  fun w => match c w with
           | (Ok a, w') => k a w'
           | (Raised e, w') => (Raised e, w')
           end.

Definition raise {A} (e : exn) : M A := fun w => (Raised e, w).

(** [try: c  except Exception as e: h e] *)
Definition try_except {A} (c : M A) (h : exn -> M A) : M A :=
  fun w => match c w with
           | (Ok a, w') => (Ok a, w')
           | (Raised e, w') => h e w'
           end.

Notation "x <- c ;; k" := (bind c (fun x => k))
  (at level 61, c at next level, right associativity).
Notation "c ;;; k" := (bind c (fun _ => k))
  (at level 61, right associativity).

(** [for x in l: body x] *)
Fixpoint for_each {A} (l : list A) (body : A -> M unit) : M unit :=
  match l with
  | [] => ret tt
  | x :: l' => body x ;;; for_each l' body
  end.

(** [range(n)] *)
Definition range (n : Z) : list Z := map Z.of_nat (seq 0 (Z.to_nat n)).

(** Which [return] of [translate_text_to_hindi] was taken: the accepted
    translation (line 104) or one of the error messages (lines 123, 140,
    143).  The function itself returns the bare string, [returned]. *)
Inductive outcome :=
| Translated (s : str)
| ErrorMessage (s : str).

Definition returned (o : outcome) : str :=
  match o with Translated s | ErrorMessage s => s end.

(** The counters [translate_all_pending_traces] reports at its end. *)
Record run_summary := {
  processed : nat;
  successful_translations : nat;
  failed_translations : nat
}.

Section Program.

Variable E : env.
Variable cfg : config.

(** [time.sleep(d)] for an int [d]: a negative delay is a ValueError. *)
Definition sleep (d : Z) : M unit :=
  fun w =>
    if d <? 0
    then (Raised (Exception (lit "sleep length must be non-negative")), w)
    else match time_sleep E d with
         | Some e => (Raised e, w)
         | None => (Ok tt, rested d w)
         end.

(** [datetime.now()], and SQLite's [CURRENT_TIMESTAMP] *)
Definition now : M timestamp :=
  fun w => (Ok (datetime_now E (clock w)), ticked w).

(** [ollama.generate(model=..., prompt=...)] *)
Definition generate (model prompt : str) : M (option str) :=
  fun w =>
    match ollama_generate E (calls w) model prompt with
    | Raises e => (Raised e, called w)
    | Returns r => (Ok r, called w)
    end.

(** *** translation.py *)

Definition translation_prompt (text : str) : str :=
  lit "Translate the following English text to Hindi. Maintain the technical terminology and logical flow. Provide only the Hindi translation without any additional text or explanations."
  ++ nl ++ nl ++ lit "English text:" ++ nl ++ text ++ nl ++ nl
  ++ lit "Hindi translation:".

(** [len(translated_text) > 0 and translated_text != text] *)
Definition valid_translation (text translated_text : str) : bool :=
  (0 <? Z.of_nat (List.length translated_text))
  && negb (str_eqb translated_text text).

(** One round of the retry loop.  [Some o]: the function returns [o];
    [None]: the loop goes on with the next attempt. *)
Definition attempt_body (text : str) (attempt : Z) : M (option outcome) :=
  try_except
    (response <- generate (TRANSLATION_MODEL_NAME cfg) (translation_prompt text) ;;
     match
       match response with
       | Some r =>
           let translated_text := strip r in
           if valid_translation text translated_text
           then Some translated_text else None
       | None => None
       end
     with
     | Some translated_text => ret (Some (Translated translated_text))
     | None =>
         if attempt <? MAX_RETRIES cfg - 1
         then sleep (RETRY_DELAY cfg) ;;; ret None
         else ret (Some (ErrorMessage
                (lit "Translation error after " ++ format_int (MAX_RETRIES cfg)
                 ++ lit " attempts: Failed to get valid translation")))
     end)
    (fun e =>
       if attempt <? MAX_RETRIES cfg - 1
       then sleep (RETRY_DELAY cfg) ;;; ret None
       else ret (Some (ErrorMessage
              (lit "Translation error after " ++ format_int (MAX_RETRIES cfg)
               ++ lit " attempts: " ++ exn_str e)))).

(** [for attempt in range(MAX_RETRIES): ...], then the last [return]. *)
Fixpoint retry_loop (text : str) (attempts : list Z) : M outcome :=
  match attempts with
  | [] => ret (ErrorMessage (lit "Translation failed: Maximum retries exceeded"))
  | attempt :: rest =>
      r <- attempt_body text attempt ;;
      match r with
      | Some o => ret o
      | None => retry_loop text rest
      end
  end.

Definition translate_text_to_hindi_outcome (text : str) : M outcome :=
  retry_loop text (range (MAX_RETRIES cfg)).

Definition translate_text_to_hindi (text : str) : M str :=
  o <- translate_text_to_hindi_outcome text ;; ret (returned o).

Definition contextual_prompt (trace_text : str) : str :=
  lit "The following is a reasoning trace for a coding problem. Please translate it accurately to Hindi while maintaining the technical terminology and logical flow. Make sure not to use tough hindi words. Instead use simple hindi and use english words wherever technical terms are used."
  ++ nl ++ nl ++ trace_text.

Definition translate_reasoning_trace (trace_text problem_title : str) : M str :=
  translate_text_to_hindi (contextual_prompt trace_text).

Definition translate_reasoning_trace_outcome (trace_text : str) : M outcome :=
  translate_text_to_hindi_outcome (contextual_prompt trace_text).

(** *** traceWithThink.py *)

Definition think_prompt (content : str) : str :=
  lit "/think Given the following coding problem, provide only the reasoning trace - your step-by-step thought process to understand and approach the problem. Do NOT provide the actual solution or code."
  ++ nl ++ nl ++ lit "Problem:" ++ nl ++ content ++ nl ++ nl
  ++ lit "Please provide your reasoning trace - the logical steps you would take to understand and approach this problem:".

(** [response['response']] on a mapping without that key is a [KeyError]. *)
Definition get_reasoning_trace_with_think (content model_name : str) : M str :=
  try_except
    (response <- generate model_name (think_prompt content) ;;
     match response with
     | Some r => ret (strip r)
     | None => raise (Exception (lit "'response'"))
     end)
    (fun e => ret (lit "Error generating WITH THINK reasoning trace: "
                   ++ exn_str e)).

Definition no_such_table : exn :=
  Exception (lit "no such table: leetcode_reasoning").

Definition table_full : exn := Exception (lit "database or disk is full").

(** [cursor.execute(stmt, params)] for a SELECT or an UPDATE: the
    statement is prepared, which needs the table; then the parameters are
    bound; then it runs.  A statement that raises changes nothing. *)
Definition execute {A} (params : list sql_param) (stmt : table -> A * table)
  : M A :=
  fun w => match db w with
           | None => (Raised no_such_table, w)
           | Some t =>
               match bind_parameters params with
               | Some e => (Raised e, w)
               | None => let '(a, t') := stmt t in (Ok a, set_db (Some t') w)
               end
           end.

(** [cursor.execute(stmt, params)] for an INSERT: as above, and the row
    needs a rowid; [created_at] takes its default, [CURRENT_TIMESTAMP]. *)
Definition execute_insert (params : list sql_param)
  (stmt : Z -> timestamp -> table -> table) : M unit :=
  fun w => match db w with
           | None => (Raised no_such_table, w)
           | Some t =>
               match bind_parameters params with
               | Some e => (Raised e, w)
               | None =>
                   match Sql.next_id t with
                   | None => (Raised table_full, w)
                   | Some new_id =>
                       (Ok tt,
                        ticked (set_db (Some (stmt new_id
                                                (datetime_now E (clock w)) t))
                                  w))
                   end
               end
           end.

(** [CREATE TABLE IF NOT EXISTS leetcode_reasoning (...)] *)
Definition setup_database : M unit :=
  fun w => match db w with
           | None => (Ok tt, set_db (Some []) w)
           | Some _ => (Ok tt, w)
           end.

Definition save_to_database (entries_with_traces : list entry_with_trace)
  : M unit :=
  try_except
    (for_each entries_with_traces (fun entry =>
       let without_translation :=
         execute_insert
           [ PText (e_title entry); PText (e_content entry);
             PText (e_trace_en_with_think entry); PText (lit "pending") ]
           (Sql.insert_pending (e_title entry) (e_content entry)
              (e_trace_en_with_think entry)) in
       match e_trace_hi_with_think entry with
       | Some hi =>
           if truthy hi then
             translated <- now ;;
             execute_insert
               [ PText (e_title entry); PText (e_content entry);
                 PText (e_trace_en_with_think entry); PText hi;
                 PText (lit "completed"); PTimestamp translated ]
               (Sql.insert_completed (e_title entry) (e_content entry)
                  (e_trace_en_with_think entry) hi translated)
           else without_translation
       | None => without_translation
       end))
    (fun e => raise e).

Definition get_untranslated_traces : M (list trace) :=
  try_except
    (rows <- execute [] (fun t => (Sql.select_untranslated t, t)) ;;
     ret (map (fun r : Z * str * str =>
                 let '(r0, r1, r2) := r in
                 {| trace_id := r0; trace_title := r1; trace_en := r2 |})
              rows))
    (fun _ => ret []).

Definition update_translation_in_database (trace_id : Z) (hindi_trace : str)
  : M unit :=
  try_except
    (at_ <- now ;;
     execute [ PText hindi_trace; PTimestamp at_; PInteger trace_id ]
       (fun t => (tt, Sql.update_where_id hindi_trace at_ trace_id t)))
    (fun e => raise e).

Definition process_translations : M unit :=
  untranslated_traces <- get_untranslated_traces ;;
  match untranslated_traces with
  | [] => ret tt
  | _ :: _ =>
      for_each untranslated_traces (fun trace =>
        hindi_trace <- translate_reasoning_trace (trace_en trace)
                         (trace_title trace) ;;
        update_translation_in_database (trace_id trace) hindi_trace)
  end.

(** Lines 480-487 of [main]: the inline-mode UPDATE. *)
Definition inline_update (hindi_trace entry_title trace_en_with_think : str)
  : M unit :=
  at_ <- now ;;
  execute [ PText hindi_trace; PTimestamp at_; PText entry_title;
            PText trace_en_with_think ]
    (fun t => (tt, Sql.update_where_title_trace hindi_trace at_
                     entry_title trace_en_with_think t)).

(** One round of the loop of [main] (lines 448-499), for an entry whose
    title and content are strings. *)
Definition main_entry (entry : entry) : M unit :=
  trace_en_with_think <-
    get_reasoning_trace_with_think (entry_content entry) (lit "qwen3:8b") ;;
  save_to_database
    [ {| e_title := entry_title entry; e_content := entry_content entry;
         e_trace_en_with_think := trace_en_with_think;
         e_trace_hi_with_think := None |} ] ;;;
  hindi_trace <- translate_reasoning_trace trace_en_with_think
                   (entry_title entry) ;;
  inline_update hindi_trace (entry_title entry) trace_en_with_think.

(** [main] from the entries on: what it does once [read_leetcode_entries]
    has returned entries whose titles and contents are strings (see
    [string_entries] below).  The file can hold other JSON values there;
    with those, a round raises (a TypeError at [len(entry['content'])] for
    a number) and the run stops, which this definition does not cover. *)
Definition main (entries : list entry) : M unit :=
  setup_database ;;;
  match entries with
  | [] => ret tt
  | _ :: _ => for_each entries main_entry ;;; process_translations
  end.

(** *** translate_pipeline.py *)

Definition check_database_status : M (option db_status) :=
  try_except
    (total_traces <- execute [] (fun t => (Sql.count_all t, t)) ;;
     completed_translations <-
       execute [] (fun t => (Sql.count_where Sql.is_translated t, t)) ;;
     pending_translations <-
       execute [] (fun t => (Sql.count_where Sql.is_untranslated t, t)) ;;
     ret (Some {| total_traces := total_traces;
                  completed_translations := completed_translations;
                  pending_translations := pending_translations |}))
    (fun _ => ret None).

Definition error_prefixes : list str :=
  [ lit "Translation error:"; lit "Translation timeout:";
    lit "Translation request error:"; lit "Unexpected translation error:" ].

(** One round of the loop of [translate_all_pending_traces] (lines
    169-205); [true] when [successful_translations] is incremented, [false]
    when [failed_translations] is. *)
Definition translate_one (trace : trace) : M bool :=
  try_except
    (hindi_trace <- translate_reasoning_trace (trace_en trace)
                      (trace_title trace) ;;
     if startswith_any hindi_trace error_prefixes
     then ret false
     else
       update_translation_in_database (trace_id trace) hindi_trace ;;;
       ret true)
    (fun _ => ret false).

Fixpoint translate_loop (traces : list trace) (successful failed : nat)
  : M (nat * nat) :=
  match traces with
  | [] => ret (successful, failed)
  | trace :: rest =>
      ok <- translate_one trace ;;
      if ok : bool then translate_loop rest (S successful) failed
      else translate_loop rest successful (S failed)
  end.

(** [translate_all_pending_traces] on an open connection; [None] when it
    returns before the loop. *)
Definition translate_all_pending_traces : M (option run_summary) :=
  status <- check_database_status ;;
  match status with
  | None => ret None
  | Some status =>
      if (pending_translations status =? 0)%nat then ret None
      else
        untranslated_traces <- get_untranslated_traces ;;
        match untranslated_traces with
        | [] => ret None
        | _ :: _ =>
            counts <- translate_loop untranslated_traces 0 0 ;;
            ret (Some {| processed := List.length untranslated_traces;
                         successful_translations := fst counts;
                         failed_translations := snd counts |})
        end
  end.

End Program.

(* ================================================================== *)
(** ** More of the program *)

(** *** [read_leetcode_entries] (traceWithThink.py) *)

Local Set Warnings "-register-all".

(** A value built by [json.loads]; an object keeps its members in the
    order of the document. *)
Inductive json :=
| JNull
| JBool (b : bool)
| JNumber (literal : str)
| JString (s : str)
| JArray (items : list json)
| JObject (members : list (str * json)).

(** One element of the list [read_leetcode_entries] builds. *)
Record raw_entry := {
  raw_title : json;
  raw_content : json
}.

(** The value of [key] in the dict built from [members], [''] when the
    key is missing.  A later member of the document overrides an earlier
    one with the same key. *)
Definition get_or_empty (members : list (str * json)) (key : str) : json :=
  match find (fun kv => str_eqb (fst kv) key) (rev members) with
  | Some kv => snd kv
  | None => JString []
  end.

(** [entry.get(key, '')]; a value that is no dict has no [get] ([None]:
    AttributeError). *)
Definition dict_get (entry : json) (key : str) : option json :=
  match entry with
  | JObject members => Some (get_or_empty members key)
  | _ => None
  end.

Section Ingestion.

(** [json.loads]; [None] is [json.JSONDecodeError]. *)
Variable json_loads : str -> option json.

(** [for i, line in enumerate(file): ...]; [None] when a line raises. *)
Fixpoint read_lines (lines : list str) (i num_entries : Z)
  (entries : list raw_entry) : option (list raw_entry) :=
  match lines with
  | [] => Some entries
  | line :: rest =>
      if num_entries <=? i then Some entries
      else
        match json_loads (strip line) with
        | None => None
        | Some entry =>
            match dict_get entry (lit "title"),
                  dict_get entry (lit "content") with
            | Some t, Some c =>
                read_lines rest (i + 1) num_entries
                  (entries ++ [ {| raw_title := t; raw_content := c |} ])
            | _, _ => None
            end
        end
  end.

(** [file]: the lines of the file, [None] when it cannot be opened.  Each
    of the three [except] clauses returns the empty list. *)
Definition read_leetcode_entries (file : option (list str)) (num_entries : Z)
  : list raw_entry :=
  match file with
  | None => []
  | Some lines =>
      match read_lines lines 0 num_entries [] with
      | Some entries => entries
      | None => []
      end
  end.

End Ingestion.

(** The entry the loop of [main] works on, when title and content are
    strings. *)
Definition string_entry (e : raw_entry) : option entry :=
  match raw_title e, raw_content e with
  | JString t, JString c => Some {| entry_title := t; entry_content := c |}
  | _, _ => None
  end.

(** The entries [main] works on, when all of them have strings as title
    and content. *)
Fixpoint string_entries (es : list raw_entry) : option (list entry) :=
  match es with
  | [] => Some []
  | e :: es' =>
      match string_entry e, string_entries es' with
      | Some x, Some xs => Some (x :: xs)
      | _, _ => None
      end
  end.

(** *** [check_ollama_server], [get_available_models] (translation.py) *)

(** [s.split(chr(sep))] *)
Fixpoint split_on (sep : N) (s : str) : list str :=
  match s with
  | [] => [[]]
  | c :: s' =>
      if (c =? sep)%N then [] :: split_on sep s'
      else match split_on sep s' with
           | w :: ws => (c :: w) :: ws
           | [] => [[c]]
           end
  end.

(** [s.split()] *)
Fixpoint split_whitespace (s : str) : list str :=
  match s with
  | [] => []
  | c :: s' =>
      if isspace c then split_whitespace s'
      else match s' with
           | [] => [[c]]
           | d :: _ =>
               if isspace d then [c] :: split_whitespace s'
               else match split_whitespace s' with
                    | w :: ws => (c :: w) :: ws
                    | [] => [[c]]
                    end
           end
  end.

(** What [subprocess.run(['ollama', 'list'], capture_output=True,
    text=True)] does. *)
Inductive run_outcome :=
| RunRaises (e : exn)
| RunReturns (returncode : Z) (stdout stderr : str).

Definition check_ollama_server (run : run_outcome) : bool :=
  match run with
  | RunRaises _ => false
  | RunReturns returncode _ _ => returncode =? 0
  end.

(** [for line in lines: if line.strip(): model_names.append(line.split()[0])];
    [None] when the index raises. *)
Fixpoint collect_model_names (lines : list str) (model_names : list str)
  : option (list str) :=
  match lines with
  | [] => Some model_names
  | line :: rest =>
      if truthy (strip line) then
        match split_whitespace line with
        | model_name :: _ => collect_model_names rest (model_names ++ [model_name])
        | [] => None
        end
      else collect_model_names rest model_names
  end.

Definition get_available_models (run : run_outcome) : list str :=
  match run with
  | RunRaises _ => []
  | RunReturns returncode stdout _ =>
      if returncode =? 0 then
        let lines := split_on 10 (strip stdout) in
        match collect_model_names (tl lines) [] with
        | Some model_names => model_names
        | None => []
        end
      else []
  end.

(** *** check_db.py *)

Module CheckDb.

(** SQLite's [LIKE] folds the case of ASCII letters only. *)
Definition ascii_lower (c : N) : N :=
  if ((65 <=? c) && (c <=? 90))%N then (c + 32)%N else c.

(** [s LIKE 'p%'], for a [p] without wildcards. *)
Fixpoint like_prefix (s p : str) : bool :=
  match p, s with
  | [], _ => true
  | c :: p', d :: s' =>
      (ascii_lower c =? ascii_lower d)%N && like_prefix s' p'
  | _ :: _, [] => false
  end.

(** [WHERE trace_hi_with_think LIKE 'Translation error:%' OR ... ] *)
Definition is_error_text (r : row) : bool :=
  match trace_hi_with_think r with
  | None => false
  | Some s =>
      like_prefix s (lit "Translation error:")
      || like_prefix s (lit "Translation timeout:")
      || like_prefix s (lit "Translation request error:")
      || like_prefix s (lit "Unexpected translation error:")
  end.

(** [WHERE trace_hi_with_think IS NOT NULL AND trace_hi_with_think != ''],
    and the CASE of [list_problems]. *)
Definition has_hindi (r : row) : bool :=
  match trace_hi_with_think r with
  | None => false
  | Some s => negb (str_eqb s [])
  end.

(** [SELECT translation_status, COUNT( * ) ... GROUP BY translation_status]:
    one pair for each status that occurs. *)
Definition group_by_status (t : table) : list (status * nat) :=
  filter (fun p => negb (snd p =? 0)%nat)
    [ (completed, Sql.count_where
                    (fun r => status_eqb (translation_status r) completed) t);
      (pending, Sql.count_where
                  (fun r => status_eqb (translation_status r) pending) t) ].

(** The numbers [check_database_status] prints. *)
Record report := {
  total_traces : nat;
  status_counts : list (status * nat);
  with_hindi : nat;
  without_hindi : Z;
  error_count : nat
}.

(** [None]: the table is not there and the function returns at once.  The
    schema, the completion rate and the recent entries are printed only. *)
Definition check_database_status (w : world) : option report :=
  match db w with
  | None => None
  | Some t =>
      let total_traces := Sql.count_all t in
      let status_counts := group_by_status t in
      let with_hindi := Sql.count_where has_hindi t in
      let without_hindi := Z.of_nat total_traces - Z.of_nat with_hindi in
      let error_count := Sql.count_where is_error_text t in
      Some {| total_traces := total_traces;
              status_counts := status_counts;
              with_hindi := with_hindi;
              without_hindi := without_hindi;
              error_count := error_count |}
  end.

(** [LIMIT ?], once the limit is bound: a negative limit is no limit. *)
Definition limit_rows {A} (limit : Z) (l : list A) : list A :=
  if limit <? 0 then l else firstn (Z.to_nat limit) l.

(** The SELECT of [list_problems]:
    id, title, translation_status, has_hindi, created_at. *)
Definition select_problems (limit : Z) (t : table)
  : list (Z * str * status * bool * timestamp) :=
  limit_rows limit
    (map (fun r => (id r, title r, translation_status r, has_hindi r,
                    created_at r))
         (Sql.order_by_id t)).

(** The rows [list_problems] prints.  When the query raises, because the
    table is missing or the limit is no INTEGER of SQLite, the function
    prints the error and lists nothing. *)
Definition list_problems (limit : Z) (w : world)
  : list (Z * str * status * bool * timestamp) :=
  match db w with
  | None => []
  | Some t =>
      match bind_parameters [PInteger limit] with
      | Some _ => []
      | None => select_problems limit t
      end
  end.

(** [title[:32] + "..." if len(title) > 35 else title] *)
Definition title_short (title : str) : str :=
  if 35 <? Z.of_nat (List.length title)
  then firstn 32 title ++ lit "..." else title.

(** [error[:80] + "..." if len(error) > 80 else error] *)
Definition error_short (error : str) : str :=
  if 80 <? Z.of_nat (List.length error)
  then firstn 80 error ++ lit "..." else error.

End CheckDb.

(* ================================================================== *)
(** ** Notions the statements below are written with *)

(** The translation one reply yields for [text], if the engine accepts it:
    the reply is a mapping with a ['response'] that, stripped, is non-empty
    and differs from [text]. *)
Definition accepted (text : str) (r : reply) : option str :=
  match r with
  | Returns (Some s) =>
      if valid_translation text (strip s) then Some (strip s) else None
  | _ => None
  end.

(** The detail the last error message carries for a rejected reply. *)
Definition failure_detail (r : reply) : str :=
  match r with
  | Raises e => exn_str e
  | Returns _ => lit "Failed to get valid translation"
  end.

Definition error_after_attempts (cfg : config) (detail : str) : str :=
  lit "Translation error after " ++ format_int (MAX_RETRIES cfg)
  ++ lit " attempts: " ++ detail.

(** The reply of the service to the k-th call made by
    [translate_text_to_hindi text]. *)
Definition reply_at (E : env) (cfg : config) (text : str) (k : nat) : reply :=
  ollama_generate E k (TRANSLATION_MODEL_NAME cfg) (translation_prompt text).

(** The world after [n] rejected attempts that are not the last one. *)
Definition after_failures (cfg : config) (n : nat) (w : world) : world :=
  {| db := db w; calls := calls w + n; clock := clock w;
     slept := slept w + RETRY_DELAY cfg * Z.of_nat n |}.

(** §3: [translated_trace] is non-null and non-empty iff the status is
    [completed]. *)
Definition row_invariant (r : row) : Prop :=
  translation_status r = completed <->
  exists s, trace_hi_with_think r = Some s /\ s <> [].

Definition store_invariant (w : world) : Prop :=
  Forall row_invariant (records w).

(** The operations of the Record Store. *)
Inductive store_op :=
| Create (entries_with_traces : list entry_with_trace)
| ApplyTranslation (trace_id : Z) (hindi_trace : str)
| InlineUpdate (hindi_trace entry_title trace_en_with_think : str).

Definition run_op (E : env) (op : store_op) : M unit :=
  match op with
  | Create es => save_to_database E es
  | ApplyTranslation i h => update_translation_in_database E i h
  | InlineUpdate h ti en => inline_update E h ti en
  end.

(** The world after a sequence of store operations, whatever each of them
    returned or raised. *)
Fixpoint run_ops (E : env) (ops : list store_op) (w : world) : world :=
  match ops with
  | [] => w
  | op :: ops' => run_ops E ops' (snd (run_op E op w))
  end.

(** The text an operation stores as a translation is not empty. *)
Definition writes_nonempty (op : store_op) : Prop :=
  match op with
  | Create _ => True
  | ApplyTranslation _ h | InlineUpdate h _ _ => h <> []
  end.

Definition trace_of_row (r : row) : trace :=
  {| trace_id := id r; trace_title := title r;
     trace_en := trace_en_with_think r |}.

(** A row without its [translated_at]. *)
Definition but_translated_at (r : row)
  : Z * str * str * str * option str * status * timestamp :=
  (id r, title r, content r, trace_en_with_think r, trace_hi_with_think r,
   translation_status r, created_at r).

Definition has_status (s : status) (r : row) : bool :=
  status_eqb (translation_status r) s.

(** A computation keeps a property of the world, however it ends. *)
Definition preserves {A} (P : world -> Prop) (c : M A) : Prop :=
  forall w, P w -> P (snd (c w)).

(** A computation keeps a property of the world and, when it returns
    normally, returns a value with property [Q]. *)
Definition yields {A} (P : world -> Prop) (Q : A -> Prop) (c : M A) : Prop :=
  forall w, P w -> P (snd (c w)) /\ forall a, fst (c w) = Ok a -> Q a.

(** Concrete environments and worlds for the examples. *)
Definition clock0 : nat -> timestamp := fun k => 1000 + Z.of_nat k.

Definition always_raises (msg : str) : env :=
  {| ollama_generate := fun _ _ _ => Raises (Exception msg);
     datetime_now := clock0;
     time_sleep := fun _ => None |}.

(** A service that sends its prompt back unchanged. *)
Definition echo_prompt : env :=
  {| ollama_generate := fun _ _ prompt => Returns (Some prompt);
     datetime_now := clock0;
     time_sleep := fun _ => None |}.

(** A service that answers every call with the same text. *)
Definition always_answers (s : str) : env :=
  {| ollama_generate := fun _ _ _ => Returns (Some s);
     datetime_now := clock0;
     time_sleep := fun _ => None |}.

(** A service that raises on its first [n] calls and answers [s] then. *)
Definition answers_after (n : nat) (s : str) : env :=
  {| ollama_generate := fun k _ _ =>
       if (k <? n)%nat then Raises (Exception (lit "connection refused"))
       else Returns (Some s);
     datetime_now := clock0;
     time_sleep := fun _ => None |}.

Definition fresh (d : option table) : world :=
  {| db := d; calls := 0; clock := 0; slept := 0 |}.

Definition pending_row (i : Z) (ti en : str) : row :=
  {| id := i; title := ti; content := lit "..."; trace_en_with_think := en;
     trace_hi_with_think := None; translation_status := pending;
     created_at := 0; translated_at := None |}.

Definition completed_row (i : Z) (ti en hi : str) : row :=
  {| id := i; title := ti; content := lit "..."; trace_en_with_think := en;
     trace_hi_with_think := Some hi; translation_status := completed;
     created_at := 0; translated_at := Some 1 |}.

(** A table with one record that waits for its translation. *)
Definition one_pending : table :=
  [pending_row 1 (lit "Two Sum") (lit "use a hash map")].

(** Two records with the same title and the same English trace, and a
    third one. *)
Definition duplicates : table :=
  [pending_row 1 (lit "Two Sum") (lit "use a hash map");
   pending_row 2 (lit "Two Sum") (lit "use a hash map");
   pending_row 3 (lit "Three Sum") (lit "sort first")].

(** Five records, three of them translated. *)
Definition five_records : table :=
  [completed_row 1 (lit "Two Sum") (lit "use a hash map") (lit "hash map lo");
   pending_row 2 (lit "Three Sum") (lit "sort first");
   completed_row 3 (lit "Valid Anagram") (lit "count letters") (lit "letters gino");
   completed_row 4 (lit "Climbing Stairs") (lit "fibonacci") (lit "fibonacci jaisa");
   pending_row 5 (lit "Coin Change") (lit "dynamic programming")].

(** Rows in ascending order of their ids. *)
Definition ascending (l : list row) : Prop :=
  Sorted (fun a b => id a <= id b) l.

(** A run of store operations: two records are created, one of them with
    its translation; the other is translated by id, then by title and
    trace. *)
Definition sample_ops : list store_op :=
  [ Create [ {| e_title := lit "Two Sum"; e_content := lit "...";
                e_trace_en_with_think := lit "use a hash map";
                e_trace_hi_with_think := None |};
             {| e_title := lit "Three Sum"; e_content := lit "...";
                e_trace_en_with_think := lit "sort first";
                e_trace_hi_with_think := Some (lit "pehle sort") |} ];
    ApplyTranslation 1 (lit "hash map lo");
    InlineUpdate (lit "hash map lo") (lit "Two Sum") (lit "use a hash map") ].

(** A record is created, and an empty text is applied to it. *)
Definition empty_text_ops : list store_op :=
  [ Create [ {| e_title := lit "Two Sum"; e_content := lit "...";
                e_trace_en_with_think := lit "use a hash map";
                e_trace_hi_with_think := None |} ];
    ApplyTranslation 1 [] ].

(** A configuration that allows no attempt at all. *)
Definition no_attempts : config :=
  {| TRANSLATION_MODEL_NAME := lit "qwen3:8b"; MAX_RETRIES := 0;
     RETRY_DELAY := 2 |}.

(** A configuration with a delay [time.sleep] refuses. *)
Definition negative_delay : config :=
  {| TRANSLATION_MODEL_NAME := lit "qwen3:8b"; MAX_RETRIES := 3;
     RETRY_DELAY := -1 |}.

(** UTF-8 encodes what the service sends: every response, and the text of
    every exception. *)
Definition encodable_replies (E : env) : Prop :=
  forall (k : nat) (model prompt : str),
    match ollama_generate E k model prompt with
    | Raises e => utf8_encodable (exn_str e) = true
    | Returns (Some s) => utf8_encodable s = true
    | Returns None => True
    end.

(** An entry whose texts UTF-8 encodes, so that the INSERT binds them. *)
Definition encodable_entry (e : entry_with_trace) : Prop :=
  utf8_encodable (e_title e) = true /\
  utf8_encodable (e_content e) = true /\
  utf8_encodable (e_trace_en_with_think e) = true /\
  match e_trace_hi_with_think e with
  | Some hi => utf8_encodable hi = true
  | None => True
  end.

(** A table that holds the largest rowid. *)
Definition full_table : table :=
  [pending_row (2 ^ 63 - 1) (lit "Two Sum") (lit "use a hash map")].

(** A text UTF-8 does not encode: a lone surrogate. *)
Definition lone_surrogate : str := [55357%N].

(** A string that does not begin with whitespace. *)
Definition starts_clean (s : str) : Prop :=
  match s with
  | c :: _ => isspace c = false
  | [] => True
  end.

(** A string that does not end with whitespace. *)
Definition ends_clean (s : str) : Prop := starts_clean (rev s).

(** The columns no statement of the program ever updates. *)
Definition immutable_part (r : row) : Z * str * str * str * timestamp :=
  (id r, title r, content r, trace_en_with_think r, created_at r).

(** [r'] is the record [r] translated between the worlds [w] and [w']:
    its immutable columns are those of [r], its status is [completed],
    its translation is what [translate_reasoning_trace] returned for the
    trace and the title of [r] on calls of the service made between [w]
    and [w'], and its [translated_at] is a clock reading taken between
    them. *)
Definition translated_record (E : env) (cfg : config) (w w' : world)
  (r r' : row) : Prop :=
  immutable_part r' = immutable_part r /\
  translation_status r' = completed /\
  (exists (w1 w2 : world) (s : str),
     (calls w <= calls w1)%nat /\ (calls w2 <= calls w')%nat /\
     translate_reasoning_trace E cfg (trace_en_with_think r) (title r) w1
     = (Ok s, w2) /\
     trace_hi_with_think r' = Some s) /\
  (exists k : nat,
     (clock w <= k < clock w')%nat /\
     translated_at r' = Some (datetime_now E k)).

(** [t'] holds the rows of [t], in the same order and with the same
    immutable columns, followed by new rows; and ids are still unique. *)
Definition table_extends (t t' : table) : Prop :=
  (exists new, map immutable_part t' = map immutable_part t ++ new) /\
  (NoDup (map id t) -> NoDup (map id t')).

Definition extends (w w' : world) : Prop :=
  table_extends (records w) (records w').

(** Whatever a computation does, the table only grows. *)
Definition grows {A} (c : M A) : Prop := forall w, extends w (snd (c w)).

(** The translation [save_to_database] stores for an entry. *)
Definition stored_translation (e : entry_with_trace) : option str :=
  match e_trace_hi_with_think e with
  | Some hi => if truthy hi then Some hi else None
  | None => None
  end.

Definition stored_status (e : entry_with_trace) : status :=
  match stored_translation e with Some _ => completed | None => pending end.

(** Two entries, the second with its translation. *)
Definition two_entries : list entry_with_trace :=
  [ {| e_title := lit "Two Sum"; e_content := lit "...";
       e_trace_en_with_think := lit "use a hash map";
       e_trace_hi_with_think := Some [] |};
    {| e_title := lit "Three Sum"; e_content := lit "...";
       e_trace_en_with_think := lit "sort first";
       e_trace_hi_with_think := Some (lit "pehle sort") |} ].

(** Same rows, same order, same immutable columns. *)
Definition same_rows (t t' : table) : Prop :=
  map immutable_part t' = map immutable_part t.

(** Whatever a computation does, the table before and the table after are
    related by [R]. *)
Definition relates {A} (R : table -> table -> Prop) (c : M A) : Prop :=
  forall w, R (records w) (records (snd (c w))).

(** What [get_reasoning_trace_with_think] makes of one reply. *)
Definition trace_of_reply (r : reply) : str :=
  match r with
  | Returns (Some s) => strip s
  | Returns None =>
      lit "Error generating WITH THINK reasoning trace: 'response'"
  | Raises e =>
      lit "Error generating WITH THINK reasoning trace: " ++ exn_str e
  end.

(** One entry to process. *)
Definition three_sum_entry : entry :=
  {| entry_title := lit "Three Sum"; entry_content := lit "..." |}.

(** The number of records [get_untranslated_traces] would return. *)
Definition untranslated_count (w : world) : nat :=
  List.length (filter Sql.is_untranslated (records w)).

(** A translation that happens to begin like an error message. *)
Definition misleading_translation : str :=
  lit "Translation error: yah shabd anuvad mein aata hai".

(** The ids of the traces whose round succeeded, given the outcome of each
    round. *)
Fixpoint applied_ids (traces : list trace) (bs : list bool) : list Z :=
  match traces, bs with
  | tr :: traces', b :: bs' =>
      if b then trace_id tr :: applied_ids traces' bs'
      else applied_ids traces' bs'
  | _, _ => []
  end.

(** Whether an id is among some ids. *)
Definition among (ids : list Z) (i : Z) : bool := existsb (Z.eqb i) ids.

(** The entry [read_leetcode_entries] builds from a JSON object. *)
Definition entry_of_members (members : list (str * json)) : raw_entry :=
  {| raw_title := get_or_empty members (lit "title");
     raw_content := get_or_empty members (lit "content") |}.

(** What one line contributes: its entry, or [None] when the line is no
    JSON text or its value is no object. *)
Definition entry_of_line (json_loads : str -> option json) (line : str)
  : option raw_entry :=
  match json_loads (strip line) with
  | Some (JObject members) => Some (entry_of_members members)
  | _ => None
  end.

(** All the values of a list of options, if none is missing. *)
Fixpoint all_some {A} (l : list (option A)) : option (list A) :=
  match l with
  | [] => Some []
  | None :: _ => None
  | Some x :: l' =>
      match all_some l' with Some xs => Some (x :: xs) | None => None end
  end.

(** A toy parser for the examples: it knows two lines. *)
Definition toy_json_loads (s : str) : option json :=
  if str_eqb s (lit "{title: Two Sum}")
  then Some (JObject [(lit "title", JString (lit "Two Sum"))])
  else if str_eqb s (lit "[1, 2]") then Some (JArray [])
  else None.

(** A line that is not blank. *)
Definition nonblank (line : str) : bool := truthy (strip line).

(** The first word of a line, [line.split()[0]] when there is one. *)
Definition first_word (line : str) : str := hd [] (split_whitespace line).

(** A word: not empty, no whitespace in it. *)
Definition is_word (s : str) : Prop :=
  s <> [] /\ Forall (fun c => isspace c = false) s.

(** What [ollama list] prints for two models. *)
Definition ollama_list_output : str :=
  lit "NAME            ID              SIZE      MODIFIED
qwen3:8b        500a1f067a9f    5.2 GB    2 weeks ago

sarvam:latest   0a8c26691023    4.9 GB    3 days ago
".

(** A file of three lines: an object, an array, an object. *)
Definition three_lines : list str :=
  [ lit "{title: Two Sum}
"; lit "[1, 2]
"; lit "{title: Two Sum}
" ].

(** The table a failed batch run leaves behind: the error message of the
    engine stored as the translation. *)
Definition table_with_error_message : table :=
  [completed_row 1 (lit "Two Sum") (lit "use a hash map")
     (lit "Translation error after 3 attempts: connection refused")].

(** The sum of the counts of a grouping. *)
Definition sum_counts (l : list (status * nat)) : nat :=
  fold_right (fun p n => (snd p + n)%nat) 0%nat l.

(* ================================================================== *)
(** ** Strings *)

Lemma str_eqb_eq (a b : str) : str_eqb a b = true <-> a = b.
Proof.
  revert b; induction a as [|c a IH]; intros [|d b]; simpl;
    try (split; [discriminate | discriminate]); try tauto.
  rewrite andb_true_iff, N.eqb_eq, IH.
  split; [intros [-> ->]; reflexivity | intros H; inversion H; auto].
Qed.

Lemma str_eqb_refl (a : str) : str_eqb a a = true.
Proof. apply str_eqb_eq; reflexivity. Qed.

Lemma valid_translation_spec (text s : str) :
  valid_translation text s = true <-> s <> [] /\ s <> text.
Proof.
  unfold valid_translation.
  rewrite andb_true_iff, negb_true_iff, Z.ltb_lt.
  split.
  - intros [Hlen Hne]; split.
    + intros ->; simpl in Hlen; lia.
    + intros ->; rewrite str_eqb_refl in Hne; discriminate.
  - intros [Hne Hdiff]; split.
    + destruct s; [congruence | simpl; lia].
    + destruct (str_eqb s text) eqn:Heq; [|reflexivity].
      apply str_eqb_eq in Heq; contradiction.
Qed.

(** No message built by the last attempt carries one of the prefixes
    [translate_all_pending_traces] looks for: after ["Translation error"]
    comes a blank, not a colon. *)
Lemma error_after_attempts_not_detected (cfg : config) (detail : str) :
  startswith_any (error_after_attempts cfg detail) error_prefixes = false.
Proof. reflexivity. Qed.

Lemma retries_exceeded_not_detected :
  startswith_any (lit "Translation failed: Maximum retries exceeded")
    error_prefixes = false.
Proof. reflexivity. Qed.

(* ================================================================== *)
(** ** The Translation Engine *)

Section Engine.

Variable E : env.
Variable cfg : config.

(** [time.sleep] raises or sleeps, and changes nothing when it raises. *)
Lemma sleep_cases (d : Z) (w : world) :
  sleep E d w = (Ok tt, rested d w) \/ exists e, sleep E d w = (Raised e, w).
Proof.
  unfold sleep. destruct (d <? 0); [right; eexists; reflexivity |].
  destruct (time_sleep E d); [right; eexists; reflexivity | left; reflexivity].
Qed.

Lemma sleep_returns (d : Z) (w : world) :
  0 <= d -> time_sleep E d = None -> sleep E d w = (Ok tt, rested d w).
Proof.
  intros Hd Ht. unfold sleep. rewrite Ht.
  replace (d <? 0) with false by (symmetry; apply Z.ltb_ge; lia).
  reflexivity.
Qed.

(** One round of the loop, by what the service replies.  The sleep of a
    rejected attempt is the one of line 120 or, after an exception, the
    one of line 137; when the first raises, the handler runs the second,
    which raises again. *)
Lemma attempt_body_eq (text : str) (attempt : Z) (w : world) :
  attempt_body E cfg text attempt w =
  let r := reply_at E cfg text (calls w) in
  match accepted text r with
  | Some s => (Ok (Some (Translated s)), called w)
  | None =>
      if attempt <? MAX_RETRIES cfg - 1
      then (sleep E (RETRY_DELAY cfg) ;;; ret None) (called w)
      else (Ok (Some (ErrorMessage
                        (error_after_attempts cfg (failure_detail r)))),
            called w)
  end.
Proof.
  unfold attempt_body, try_except, reply_at, accepted, error_after_attempts,
    failure_detail. unfold bind at 1, generate. cbv zeta.
  destruct (ollama_generate E (calls w) _ _) as [e | [s |]].
  - destruct (attempt <? MAX_RETRIES cfg - 1); reflexivity.
  - destruct (valid_translation text (strip s)); [reflexivity |].
    destruct (attempt <? MAX_RETRIES cfg - 1) eqn:Ha; [| reflexivity].
    unfold bind.
    destruct (sleep_cases (RETRY_DELAY cfg) (called w)) as [H | (e & H)];
      rewrite H; [reflexivity |].
    rewrite ?Ha. unfold bind. rewrite ?H. reflexivity.
  - destruct (attempt <? MAX_RETRIES cfg - 1) eqn:Ha; [| reflexivity].
    unfold bind.
    destruct (sleep_cases (RETRY_DELAY cfg) (called w)) as [H | (e & H)];
      rewrite H; [reflexivity |].
    rewrite ?Ha. unfold bind. rewrite ?H. reflexivity.
Qed.

(** However the loop ends, it touches neither the table nor the clock and
    calls the service at most once per attempt; what it returns as a
    translation is what it accepted from one of these calls. *)
Lemma retry_loop_ends (text : str) (attempts : list Z) (w : world) :
  exists r w',
    retry_loop E cfg text attempts w = (r, w') /\
    db w' = db w /\ clock w' = clock w /\
    (calls w <= calls w' <= calls w + List.length attempts)%nat /\
    (forall s, r = Ok (Translated s) ->
       exists k, (calls w <= k < calls w')%nat /\
                 accepted text (reply_at E cfg text k) = Some s).
Proof.
  revert w; induction attempts as [|a rest IH]; intros w; cbn [retry_loop].
  - eexists _, w; repeat split; try reflexivity; cbn [List.length]; try lia.
    intros s Hs; discriminate.
  - unfold bind at 1. rewrite attempt_body_eq; cbv zeta.
    destruct (accepted text (reply_at E cfg text (calls w))) as [s|] eqn:Hacc.
    + eexists _, _; repeat split; cbn [called calls List.length]; try lia.
      intros s' Hs'; injection Hs' as <-.
      exists (calls w); split; [lia | exact Hacc].
    + destruct (a <? MAX_RETRIES cfg - 1).
      * unfold bind.
        destruct (sleep_cases (RETRY_DELAY cfg) (called w)) as [H | (e & H)];
          rewrite H.
        -- destruct (IH (rested (RETRY_DELAY cfg) (called w)))
             as (r & w' & Hrun & Hdb & Hclock & Hcalls & Hacc').
           unfold ret at 1. rewrite Hrun.
           exists r, w'; cbn [rested called calls db clock List.length] in *.
           repeat split; try assumption; try lia.
           intros s Hs; destruct (Hacc' s Hs) as (k & Hk & Hk').
           exists k; split; [lia | exact Hk'].
        -- eexists _, _; repeat split; cbn [called calls List.length];
             try lia.
           intros s Hs; discriminate.
      * eexists _, _; repeat split; cbn [called calls List.length]; try lia.
        intros s Hs; discriminate.
Qed.

Section Sleeping.

(** The delay is one [time.sleep] takes. *)
Hypothesis delay_nonneg : 0 <= RETRY_DELAY cfg.
Hypothesis delay_taken : time_sleep E (RETRY_DELAY cfg) = None.

(** Then the loop never raises. *)
Lemma retry_loop_returns (text : str) (attempts : list Z) (w : world) :
  exists o w',
    retry_loop E cfg text attempts w = (Ok o, w') /\
    db w' = db w /\ clock w' = clock w /\
    (calls w <= calls w' <= calls w + List.length attempts)%nat /\
    (forall s, o = Translated s ->
       exists k, (calls w <= k < calls w')%nat /\
                 accepted text (reply_at E cfg text k) = Some s).
Proof.
  assert (Hok : forall w, exists o w',
            retry_loop E cfg text attempts w = (Ok o, w')).
  { clear w. induction attempts as [|a rest IH]; intros w; cbn [retry_loop].
    - eexists _, _; reflexivity.
    - unfold bind at 1. rewrite attempt_body_eq; cbv zeta.
      destruct (accepted text _); [eexists _, _; reflexivity |].
      destruct (a <? MAX_RETRIES cfg - 1); [| eexists _, _; reflexivity].
      unfold bind. rewrite sleep_returns by assumption.
      unfold ret at 1. apply IH. }
  destruct (Hok w) as (o & w' & Hrun).
  destruct (retry_loop_ends text attempts w)
    as (r & w1 & Hrun1 & Hdb & Hclock & Hcalls & Hacc).
  rewrite Hrun in Hrun1. injection Hrun1 as <- <-.
  exists o, w'. repeat split; try assumption; try lia.
  intros s ->. apply Hacc. reflexivity.
Qed.


End Sleeping.


Lemma range_nil (n : Z) : n <= 0 -> range n = [].
Proof.
  intros Hn; unfold range.
  replace (Z.to_nat n) with 0%nat by lia; reflexivity.
Qed.


(** A reply that is accepted at the first call is returned at once,
    before any sleep. *)
Lemma outcome_accepted_at_once (text : str) (w : world) (s : str) :
  0 < MAX_RETRIES cfg ->
  accepted text (reply_at E cfg text (calls w)) = Some s ->
  translate_text_to_hindi_outcome E cfg text w
  = (Ok (Translated s), called w).
Proof.
  intros Hmax Hacc. unfold translate_text_to_hindi_outcome, range.
  replace (Z.to_nat (MAX_RETRIES cfg))
    with (S (Z.to_nat (MAX_RETRIES cfg) - 1)) by lia.
  cbn [seq map retry_loop]. unfold bind. rewrite attempt_body_eq; cbv zeta.
  rewrite Hacc. reflexivity.
Qed.

End Engine.



(** With a negative delay the function does not reach a second call: the
    service raises, and the [time.sleep] of the except handler, which is
    outside the try, raises ValueError. *)
Example negative_delay_raises :
  translate_text_to_hindi (always_raises (lit "connection refused"))
    negative_delay (lit "two pointers") (fresh None)
  = (Raised (Exception (lit "sleep length must be non-negative")),
     called (fresh None)).
Proof. reflexivity. Qed.



(** C3, as the code has it: what [translate_text_to_hindi text] returns as
    a translation is the stripped ['response'] of one of its calls, is not
    empty and differs from [text], the text it was asked to translate; so a
    client whose every response, stripped, is [text] itself never gets it
    returned as a translation: with a [RETRY_DELAY] that [time.sleep]
    takes, the function returns an error message. *)
Theorem accepted_only_if_nonempty_and_differs
  (E : env) (cfg : config) (text : str) (w : world) :
  (forall s w',
     translate_text_to_hindi_outcome E cfg text w = (Ok (Translated s), w') ->
     s <> [] /\ s <> text /\
     exists k r, (calls w <= k < calls w')%nat /\
                 reply_at E cfg text k = Returns (Some r) /\ strip r = s) /\
  (0 <= RETRY_DELAY cfg ->
   time_sleep E (RETRY_DELAY cfg) = None ->
   (forall k r, reply_at E cfg text k = Returns (Some r) -> strip r = text) ->
   exists msg w',
     translate_text_to_hindi_outcome E cfg text w = (Ok (ErrorMessage msg), w')).
Proof.
  assert (Hsucc : forall s w',
     translate_text_to_hindi_outcome E cfg text w = (Ok (Translated s), w') ->
     s <> [] /\ s <> text /\
     exists k r, (calls w <= k < calls w')%nat /\
                 reply_at E cfg text k = Returns (Some r) /\ strip r = s).
  { intros s w' Hs. unfold translate_text_to_hindi_outcome in Hs.
    destruct (retry_loop_ends E cfg text (range (MAX_RETRIES cfg)) w)
      as (r0 & w1 & Hrun & _ & _ & _ & Hacc).
    rewrite Hrun in Hs. injection Hs as Ho Hw; subst w1.
    destruct (Hacc s Ho) as (k & Hk & Hk').
    unfold accepted in Hk'.
    destruct (reply_at E cfg text k) as [e | [r |]] eqn:Hr; try discriminate.
    destruct (valid_translation text (strip r)) eqn:Hv; try discriminate.
    injection Hk' as <-. apply valid_translation_spec in Hv.
    destruct Hv as [Hne Hdiff]. repeat split; try assumption.
    exists k, r; auto. }
  split; [exact Hsucc |].
  intros Hdelay Htimer Hecho.
  destruct (retry_loop_returns E cfg Hdelay Htimer text
              (range (MAX_RETRIES cfg)) w)
    as (o & w1 & Hrun & _).
  unfold translate_text_to_hindi_outcome. rewrite Hrun.
  destruct o as [s | msg]; [| eauto].
  exfalso.
  destruct (Hsucc s w1) as (_ & Hdiff & k & r & _ & Hr & Hstrip).
  { unfold translate_text_to_hindi_outcome; exact Hrun. }
  apply Hdiff. rewrite <- Hstrip. exact (Hecho k r Hr).
Qed.

Lemma accepted_only_if_nonempty_and_differs_witness :
  (translate_text_to_hindi_outcome (always_answers (lit " do sankhya "))
     default_config (lit "two sum") (fresh None)
   = (Ok (Translated (lit "do sankhya")), called (fresh None)) /\
   lit "do sankhya" <> [] /\ lit "do sankhya" <> lit "two sum") /\
  (0 <= RETRY_DELAY default_config /\
   time_sleep (always_answers (lit "two sum")) (RETRY_DELAY default_config)
   = None /\
   (forall k r,
      reply_at (always_answers (lit "two sum")) default_config
        (lit "two sum") k = Returns (Some r) -> strip r = lit "two sum") /\
   exists msg w',
     translate_text_to_hindi_outcome (always_answers (lit "two sum"))
       default_config (lit "two sum") (fresh None)
     = (Ok (ErrorMessage msg), w')).
Proof.
  split.
  - assert (Hrun : translate_text_to_hindi_outcome
                     (always_answers (lit " do sankhya "))
                     default_config (lit "two sum") (fresh None)
                   = (Ok (Translated (lit "do sankhya")), called (fresh None)))
      by reflexivity.
    split; [exact Hrun |].
    destruct (proj1 (accepted_only_if_nonempty_and_differs
                       (always_answers (lit " do sankhya ")) default_config
                       (lit "two sum") (fresh None)) _ _ Hrun)
      as (Hne & Hdiff & _).
    split; assumption.
  - assert (H1 : 0 <= RETRY_DELAY default_config) by (simpl; lia).
    assert (Hecho : forall k r,
      reply_at (always_answers (lit "two sum")) default_config
        (lit "two sum") k = Returns (Some r) -> strip r = lit "two sum")
      by (intros k r Hr; injection Hr as <-; reflexivity).
    split; [exact H1 |]. split; [reflexivity |]. split; [exact Hecho |].
    exact (proj2 (accepted_only_if_nonempty_and_differs
                    (always_answers (lit "two sum")) default_config
                    (lit "two sum") (fresh None)) H1 eq_refl Hecho).
Defined.

(** C3 fails as stated: a client that sends back the prompt it was given
    gets that prompt returned as the translation, on the first call, both
    by [translate_text_to_hindi] and by [translate_reasoning_trace]; the
    prompt is never equal to the text it embeds. *)
Lemma echoed_prompt_is_returned_as_translation :
  reply_at echo_prompt default_config (lit "two sum") 0
  = Returns (Some (translation_prompt (lit "two sum"))) /\
  translate_text_to_hindi_outcome echo_prompt default_config (lit "two sum")
    (fresh None)
  = (Ok (Translated (translation_prompt (lit "two sum"))),
     called (fresh None)) /\
  translate_text_to_hindi echo_prompt default_config (lit "two sum")
    (fresh None)
  = (Ok (translation_prompt (lit "two sum")), called (fresh None)) /\
  translate_reasoning_trace echo_prompt default_config (lit "two sum")
    (lit "Two Sum") (fresh None)
  = (Ok (translation_prompt (contextual_prompt (lit "two sum"))),
     called (fresh None)).
Proof. repeat split; vm_compute; reflexivity. Qed.

(* ================================================================== *)
(** ** The Record Store *)

Lemma set_db_same (w : world) (d : option table) :
  db w = d -> set_db d w = w.
Proof. intros <-; destruct w; reflexivity. Qed.

Lemma update_where_id_absent (hi : str) (at_ : timestamp) (i : Z) (t : table) :
  ~ In i (map id t) -> Sql.update_where_id hi at_ i t = t.
Proof.
  unfold Sql.update_where_id.
  induction t as [|r t IH]; simpl; intros Hi; [reflexivity |].
  destruct (Z.eqb_spec (id r) i) as [Heq | Hne]; [tauto |].
  rewrite IH by tauto; reflexivity.
Qed.

(** *** Binding the parameters of a statement *)

Lemma encode_error_from_encodable (s : str) :
  forall start,
    utf8_encodable s = true -> encode_error_from start s = None.
Proof.
  induction s as [|c s IH]; intros start; cbn [utf8_encodable forallb
    encode_error_from]; [reflexivity |].
  fold (utf8_encodable s).
  destruct (is_surrogate c); cbn [negb andb]; [discriminate | apply IH].
Qed.

Lemma encode_error_from_surrogate (s : str) :
  forall start,
    utf8_encodable s = false -> exists m, encode_error_from start s = Some m.
Proof.
  induction s as [|c s IH]; intros start; cbn [utf8_encodable forallb
    encode_error_from]; [discriminate |].
  fold (utf8_encodable s).
  destruct (is_surrogate c); cbn [negb andb]; [eauto | apply IH].
Qed.

Lemma integer_bounds (i : Z) :
  (Sql.min_integer <=? i) && (i <=? Sql.max_integer) = true <->
  - 2 ^ 63 <= i < 2 ^ 63.
Proof.
  unfold Sql.min_integer, Sql.max_integer.
  rewrite andb_true_iff, !Z.leb_le. lia.
Qed.

Lemma bind_text (s : str) :
  utf8_encodable s = true -> bind_parameter (PText s) = None.
Proof.
  intros H. cbn [bind_parameter].
  rewrite encode_error_from_encodable by exact H. reflexivity.
Qed.

Lemma bind_integer (i : Z) :
  - 2 ^ 63 <= i < 2 ^ 63 -> bind_parameter (PInteger i) = None.
Proof.
  intros H. cbn [bind_parameter].
  rewrite (proj2 (integer_bounds i) H). reflexivity.
Qed.

Lemma bind_integer_overflow (i : Z) :
  ~ (- 2 ^ 63 <= i < 2 ^ 63) ->
  exists e, bind_parameter (PInteger i) = Some e.
Proof.
  intros H. cbn [bind_parameter].
  destruct ((Sql.min_integer <=? i) && (i <=? Sql.max_integer)) eqn:Hb.
  - apply integer_bounds in Hb. contradiction.
  - eexists; reflexivity.
Qed.

(** The parameters of the UPDATE by id. *)
Lemma bind_update (hi : str) (a : timestamp) (i : Z) :
  utf8_encodable hi = true -> - 2 ^ 63 <= i < 2 ^ 63 ->
  bind_parameters [PText hi; PTimestamp a; PInteger i] = None.
Proof.
  intros Hhi Hi. cbn [bind_parameters].
  rewrite bind_text, bind_integer by assumption. reflexivity.
Qed.

Lemma bind_update_any_time (hi : str) (a a' : timestamp) (i : Z) :
  bind_parameters [PText hi; PTimestamp a; PInteger i]
  = bind_parameters [PText hi; PTimestamp a'; PInteger i].
Proof. reflexivity. Qed.

(** The parameters of the inline UPDATE. *)
Lemma bind_inline_update (hi : str) (a : timestamp) (ti en : str) :
  utf8_encodable hi = true -> utf8_encodable ti = true ->
  utf8_encodable en = true ->
  bind_parameters [PText hi; PTimestamp a; PText ti; PText en] = None.
Proof.
  intros Hhi Hti Hen. cbn [bind_parameters].
  rewrite !bind_text by assumption. reflexivity.
Qed.

(** What the SET clause writes, column by column. *)
Lemma set_translation_columns (hi : str) (a : timestamp) (r : row) :
  immutable_part (Sql.set_translation hi a r) = immutable_part r /\
  trace_hi_with_think (Sql.set_translation hi a r) = Some hi /\
  translation_status (Sql.set_translation hi a r) = completed /\
  translated_at (Sql.set_translation hi a r) = Some a.
Proof. repeat split. Qed.

(** What the UPDATE by id writes, row by row. *)
Lemma update_where_id_rows (hi : str) (a : timestamp) (i : Z) (t : table) :
  List.length (Sql.update_where_id hi a i t) = List.length t /\
  forall (n : nat) (r : row),
    nth_error t n = Some r ->
    exists r',
      nth_error (Sql.update_where_id hi a i t) n = Some r' /\
      immutable_part r' = immutable_part r /\
      (id r = i ->
       trace_hi_with_think r' = Some hi /\
       translation_status r' = completed /\
       translated_at r' = Some a) /\
      (id r <> i -> r' = r).
Proof.
  unfold Sql.update_where_id. split; [apply length_map |].
  intros n r Hn. rewrite nth_error_map, Hn; cbn [option_map].
  destruct (Z.eqb_spec (id r) i) as [Heq | Hne].
  - eexists. split; [reflexivity |].
    destruct (set_translation_columns hi a r) as (Himm & Hcols).
    split; [exact Himm |]. split; [intros _; exact Hcols | contradiction].
  - exists r. split; [reflexivity |]. split; [reflexivity |].
    split; [contradiction | reflexivity].
Qed.

(** C5, as the code has it: for an id that no row of the table carries
    and that SQLite can hold as an INTEGER, and a text that UTF-8
    encodes, [update_translation_in_database] returns normally, without
    raising, and leaves every row as it was. *)
Theorem update_translation_unknown_id_is_silent
  (E : env) (w : world) (t : table) (trace_id : Z) (hindi_trace : str) :
  db w = Some t ->
  ~ In trace_id (map id t) ->
  - 2 ^ 63 <= trace_id < 2 ^ 63 ->
  utf8_encodable hindi_trace = true ->
  update_translation_in_database E trace_id hindi_trace w = (Ok tt, ticked w).
Proof.
  intros Hdb Habsent Hid Htext.
  assert (Hdb' : db (ticked w) = Some t) by exact Hdb.
  unfold update_translation_in_database, try_except, bind, now, execute.
  rewrite Hdb', bind_update by assumption.
  rewrite update_where_id_absent by assumption.
  rewrite set_db_same by assumption; reflexivity.
Qed.

Lemma update_translation_unknown_id_is_silent_witness :
  db (fresh (Some one_pending)) = Some one_pending /\
  ~ In 7 (map id one_pending) /\
  - 2 ^ 63 <= 7 < 2 ^ 63 /\
  utf8_encodable (lit "anuvad") = true /\
  update_translation_in_database (always_raises []) 7 (lit "anuvad")
    (fresh (Some one_pending))
  = (Ok tt, ticked (fresh (Some one_pending))).
Proof.
  assert (Habsent : ~ In 7 (map id one_pending))
    by (simpl; intros [H | []]; discriminate).
  assert (Hid : - 2 ^ 63 <= 7 < 2 ^ 63) by lia.
  split; [reflexivity |]. split; [exact Habsent |].
  split; [exact Hid |]. split; [reflexivity |].
  exact (update_translation_unknown_id_is_silent (always_raises [])
           (fresh (Some one_pending)) one_pending 7 (lit "anuvad")
           eq_refl Habsent Hid eq_refl).
Defined.

(** C5 fails as stated: on the empty table, an update for id 1 does not
    fail; it returns normally and the table is still empty. *)
Lemma update_of_missing_id_does_not_fail :
  update_translation_in_database (always_raises []) 1 (lit "anuvad")
    (fresh (Some []))
  = (Ok tt, ticked (fresh (Some []))).
Proof. reflexivity. Qed.

(** An id outside SQLite's INTEGER or a text with a lone surrogate cannot
    be bound: the UPDATE raises (OverflowError, UnicodeEncodeError), the
    function raises it again, and the record stays as it was. *)
Example update_with_unbound_parameter_raises :
  update_translation_in_database (always_raises []) (2 ^ 63) (lit "anuvad")
    (fresh (Some one_pending))
  = (Raised (Exception
               (lit "Python int too large to convert to SQLite INTEGER")),
     ticked (fresh (Some one_pending))) /\
  update_translation_in_database (always_raises []) 1 lone_surrogate
    (fresh (Some one_pending))
  = (Raised (Exception
               (lit "'utf-8' codec can't encode character '\ud83d' in position 0: surrogates not allowed")),
     ticked (fresh (Some one_pending))) /\
  fst (update_translation_in_database (always_raises []) 1
         (lit "ab" ++ [56320; 56321; 56322]%N ++ lit "c")
         (fresh (Some one_pending)))
  = Raised (Exception
              (lit "'utf-8' codec can't encode characters in position 2-4: surrogates not allowed")).
Proof. repeat split. Qed.

(** What [update_translation_in_database] leaves in the world: the rows
    the UPDATE wrote when its parameters were bound, the rows as they
    were when it raised. *)
Lemma update_translation_in_database_records
  (E : env) (w : world) (trace_id : Z) (hindi_trace : str) :
  records (snd (update_translation_in_database E trace_id hindi_trace w)) =
  match bind_parameters [PText hindi_trace;
                         PTimestamp (datetime_now E (clock w));
                         PInteger trace_id] with
  | None =>
      Sql.update_where_id hindi_trace (datetime_now E (clock w)) trace_id
        (records w)
  | Some _ => records w
  end /\
  clock (snd (update_translation_in_database E trace_id hindi_trace w)) =
  S (clock w).
Proof.
  unfold update_translation_in_database, try_except, bind, now, execute,
    raise, records.
  change (db (ticked w)) with (db w).
  destruct (db w) as [t |] eqn:Hdb;
    destruct (bind_parameters _) as [e |]; simpl; rewrite ?Hdb;
    split; reflexivity.
Qed.

Lemma set_translation_twice (hi : str) (a1 a2 : timestamp) (r : row) :
  but_translated_at (Sql.set_translation hi a2 (Sql.set_translation hi a1 r))
  = but_translated_at (Sql.set_translation hi a1 r).
Proof. reflexivity. Qed.

Lemma update_where_id_twice (hi : str) (a1 a2 : timestamp) (i : Z) (t : table) :
  map but_translated_at
    (Sql.update_where_id hi a2 i (Sql.update_where_id hi a1 i t))
  = map but_translated_at (Sql.update_where_id hi a1 i t).
Proof.
  unfold Sql.update_where_id.
  rewrite !map_map. apply map_ext; intros r.
  destruct (Z.eqb_spec (id r) i) as [Heq | Hne].
  - cbn [Sql.set_translation id].
    rewrite (proj2 (Z.eqb_eq _ _) Heq). reflexivity.
  - rewrite (proj2 (Z.eqb_neq _ _) Hne). reflexivity.
Qed.

(** C7 (idempotence): a second [update_translation_in_database] with the
    same id and the same text leaves every column of every row but
    [translated_at] as the first call left it; so [trace_hi_with_think]
    and [translation_status] are unchanged. *)
Theorem update_translation_twice
  (E : env) (w : world) (trace_id : Z) (hindi_trace : str) :
  let w1 := snd (update_translation_in_database E trace_id hindi_trace w) in
  let w2 := snd (update_translation_in_database E trace_id hindi_trace w1) in
  map but_translated_at (records w2) = map but_translated_at (records w1) /\
  map trace_hi_with_think (records w2) = map trace_hi_with_think (records w1) /\
  map translation_status (records w2) = map translation_status (records w1).
Proof.
  intros w1 w2.
  assert (H : map but_translated_at (records w2)
              = map but_translated_at (records w1)).
  { unfold w2, w1.
    rewrite (proj1 (update_translation_in_database_records E _ _ _)).
    rewrite (bind_update_any_time hindi_trace _ (datetime_now E (clock w))).
    rewrite (proj1 (update_translation_in_database_records E w _ _)).
    destruct (bind_parameters _); [reflexivity |].
    apply update_where_id_twice. }
  split; [exact H |]. split.
  - apply (f_equal (map (fun p => snd (fst (fst p))))) in H.
    rewrite !map_map in H; exact H.
  - apply (f_equal (map (fun p => snd (fst p)))) in H.
    rewrite !map_map in H; exact H.
Qed.

(** The second call does set [translated_at] anew. *)
Example update_translation_twice_restamps :
  let w1 := snd (update_translation_in_database (always_raises []) 1
                   (lit "anuvad") (fresh (Some one_pending))) in
  let w2 := snd (update_translation_in_database (always_raises []) 1
                   (lit "anuvad") w1) in
  map translated_at (records w1) = [Some 1000] /\
  map translated_at (records w2) = [Some 1001] /\
  map translation_status (records w2) = [completed] /\
  map trace_hi_with_think (records w2) = [Some (lit "anuvad")].
Proof. repeat split. Qed.

(** C9 (inline mode): the UPDATE of [main] is keyed on the title and the
    English trace, not on the id.  With texts that UTF-8 encodes it
    returns normally, and after it every row that carries this title and
    this trace holds the translation in [trace_hi_with_think], the status
    [completed] and the time of the update in [translated_at], whatever
    its id; its other columns are as they were, and every other row is as
    it was. *)
Theorem inline_update_hits_every_duplicate
  (E : env) (w : world) (t : table) (hindi_trace ti en : str) :
  db w = Some t ->
  utf8_encodable hindi_trace = true ->
  utf8_encodable ti = true ->
  utf8_encodable en = true ->
  exists t',
    inline_update E hindi_trace ti en w
    = (Ok tt, set_db (Some t') (ticked w)) /\
    List.length t' = List.length t /\
    forall (n : nat) (r : row),
      nth_error t n = Some r ->
      exists r',
        nth_error t' n = Some r' /\
        immutable_part r' = immutable_part r /\
        (title r = ti /\ trace_en_with_think r = en ->
         trace_hi_with_think r' = Some hindi_trace /\
         translation_status r' = completed /\
         translated_at r' = Some (datetime_now E (clock w))) /\
        (~ (title r = ti /\ trace_en_with_think r = en) -> r' = r).
Proof.
  intros Hdb Hhi Hti Hen.
  assert (Hdb' : db (ticked w) = Some t) by exact Hdb.
  exists (Sql.update_where_title_trace hindi_trace (datetime_now E (clock w))
            ti en t).
  split; [| split].
  - unfold inline_update, bind, now, execute.
    rewrite Hdb', bind_inline_update by assumption. reflexivity.
  - unfold Sql.update_where_title_trace. apply length_map.
  - intros n r Hn. unfold Sql.update_where_title_trace.
    rewrite nth_error_map, Hn; cbn [option_map].
    destruct (str_eqb (title r) ti && str_eqb (trace_en_with_think r) en)
      eqn:Hmatch.
    + eexists. split; [reflexivity |].
      destruct (set_translation_columns hindi_trace
                  (datetime_now E (clock w)) r) as (Himm & Hcols).
      split; [exact Himm |]. split; [intros _; exact Hcols |].
      intros Hno; exfalso; apply Hno.
      apply andb_true_iff in Hmatch; destruct Hmatch as [H1 H2].
      split; apply str_eqb_eq; assumption.
    + exists r. split; [reflexivity |]. split; [reflexivity |].
      split; [| reflexivity]. intros [H1 H2].
      rewrite (proj2 (str_eqb_eq _ _) H1), (proj2 (str_eqb_eq _ _) H2)
        in Hmatch.
      discriminate.
Qed.

Lemma inline_update_hits_every_duplicate_witness :
  db (fresh (Some duplicates)) = Some duplicates /\
  utf8_encodable (lit "anuvad") = true /\
  utf8_encodable (lit "Two Sum") = true /\
  utf8_encodable (lit "use a hash map") = true /\
  exists t',
    inline_update (always_raises []) (lit "anuvad") (lit "Two Sum")
      (lit "use a hash map") (fresh (Some duplicates))
    = (Ok tt, set_db (Some t') (ticked (fresh (Some duplicates)))) /\
    map (fun r => (id r, trace_hi_with_think r, translation_status r,
                   translated_at r)) t'
    = [ (1, Some (lit "anuvad"), completed, Some 1000);
        (2, Some (lit "anuvad"), completed, Some 1000);
        (3, None, pending, None) ].
Proof.
  split; [reflexivity |]. split; [reflexivity |]. split; [reflexivity |].
  split; [reflexivity |].
  destruct (inline_update_hits_every_duplicate (always_raises [])
              (fresh (Some duplicates)) duplicates (lit "anuvad")
              (lit "Two Sum") (lit "use a hash map") eq_refl eq_refl eq_refl
              eq_refl)
    as (t' & Hrun & Hlen & Hrows).
  exists t'. split; [exact Hrun |].
  destruct t' as [| r1 [| r2 [| r3 [| r4 t']]]]; try discriminate Hlen.
  destruct (Hrows 0%nat _ eq_refl) as (x1 & Hx1 & Hi1 & Hset1 & _).
  destruct (Hrows 1%nat _ eq_refl) as (x2 & Hx2 & Hi2 & Hset2 & _).
  destruct (Hrows 2%nat _ eq_refl) as (x3 & Hx3 & _ & _ & Hsame3).
  injection Hx1 as <-. injection Hx2 as <-. injection Hx3 as <-.
  destruct (Hset1 (conj eq_refl eq_refl)) as (Hh1 & Hs1 & Ha1).
  destruct (Hset2 (conj eq_refl eq_refl)) as (Hh2 & Hs2 & Ha2).
  assert (H3 : r3 = pending_row 3 (lit "Three Sum") (lit "sort first")).
  { apply Hsame3. intros [H _]; discriminate H. }
  apply (f_equal (fun p => fst (fst (fst (fst p))))) in Hi1, Hi2.
  cbn [immutable_part fst] in Hi1, Hi2.
  cbn [map]. rewrite Hh1, Hs1, Ha1, Hh2, Hs2, Ha2, Hi1, Hi2, H3.
  reflexivity.
Defined.

(** In a run of [main], two entries with the same title whose English
    traces come out equal: the inline update of the second round writes
    the first record as well (its [translated_at] moves from 1001 to
    1003). *)
Example main_inline_update_rewrites_duplicate :
  map (fun r => (id r, translation_status r, translated_at r))
    (records (snd (main (always_answers (lit "x")) default_config
                     [ {| entry_title := lit "Two Sum";
                          entry_content := lit "c" |};
                       {| entry_title := lit "Two Sum";
                          entry_content := lit "c" |} ]
                     (fresh None))))
  = [(1, completed, Some 1003); (2, completed, Some 1003)].
Proof. vm_compute; reflexivity. Qed.

(** *** [ORDER BY id ASC] *)

Lemma insert_by_id_perm (r : row) (l : list row) :
  Permutation (r :: l) (Sql.insert_by_id r l).
Proof.
  induction l as [|r' l IH]; simpl; [reflexivity |].
  destruct (id r <=? id r'); [reflexivity |].
  rewrite perm_swap. apply perm_skip, IH.
Qed.

Lemma order_by_id_perm (l : list row) : Permutation l (Sql.order_by_id l).
Proof.
  induction l as [|r l IH]; simpl; [reflexivity |].
  rewrite <- insert_by_id_perm. apply perm_skip, IH.
Qed.

Lemma insert_by_id_sorted (r : row) (l : list row) :
  ascending l -> ascending (Sql.insert_by_id r l).
Proof.
  unfold ascending.
  induction l as [|r' l IH]; simpl; intros Hs.
  - repeat constructor.
  - destruct (Z.leb_spec (id r) (id r')) as [Hle | Hgt].
    + constructor; [assumption | constructor; assumption].
    + inversion Hs as [| ? ? Hs' Hhd]; subst.
      constructor; [apply IH; assumption |].
      destruct l as [|r'' l]; simpl.
      * constructor; lia.
      * destruct (Z.leb_spec (id r) (id r'')); constructor;
          [lia | inversion Hhd; assumption].
Qed.

Lemma order_by_id_sorted (l : list row) : ascending (Sql.order_by_id l).
Proof.
  induction l as [|r l IH]; simpl.
  - constructor.
  - apply insert_by_id_sorted, IH.
Qed.

Lemma ascending_ids (l : list row) : ascending l -> Sorted Z.le (map id l).
Proof.
  unfold ascending; induction 1 as [| r l Hs IH Hhd]; simpl.
  - constructor.
  - constructor; [exact IH |].
    destruct Hhd; simpl; constructor; assumption.
Qed.

Lemma is_untranslated_spec (r : row) :
  Sql.is_untranslated r = true <->
  translation_status r = pending \/ trace_hi_with_think r = None.
Proof.
  unfold Sql.is_untranslated.
  destruct (translation_status r), (trace_hi_with_think r); simpl;
    split; intros H; auto; try discriminate;
    destruct H; discriminate.
Qed.

(** C6 (fetch untranslated): [get_untranslated_traces] never raises, leaves
    the world as it is, and returns, in ascending order of id and each as
    often as the table holds it, exactly the records whose status is
    [pending] or whose [trace_hi_with_think] is NULL. *)
Theorem get_untranslated_traces_spec (w : world) :
  exists traces,
    get_untranslated_traces w = (Ok traces, w) /\
    Permutation traces
      (map trace_of_row (filter Sql.is_untranslated (records w))) /\
    Sorted Z.le (map trace_id traces) /\
    (forall tr, In tr traces <->
       exists r, In r (records w) /\
                 (translation_status r = pending \/
                  trace_hi_with_think r = None) /\
                 tr = trace_of_row r).
Proof.
  exists (map trace_of_row
            (Sql.order_by_id (filter Sql.is_untranslated (records w)))).
  split; [| split; [| split]].
  - unfold get_untranslated_traces, try_except, bind, execute, records; cbn [bind_parameters].
    destruct (db w) as [t |] eqn:Hdb.
    + rewrite set_db_same by assumption.
      unfold ret, Sql.select_untranslated. rewrite map_map. reflexivity.
    + reflexivity.
  - apply Permutation_map. symmetry. apply order_by_id_perm.
  - rewrite map_map. apply (ascending_ids _ (order_by_id_sorted _)).
  - intros tr. rewrite in_map_iff. split.
    + intros (r & <- & Hin).
      apply (Permutation_in _ (Permutation_sym (order_by_id_perm _))) in Hin.
      apply filter_In in Hin. destruct Hin as [Hin Hq].
      exists r. rewrite <- is_untranslated_spec. auto.
    + intros (r & Hin & Hq & ->). exists r. split; [reflexivity |].
      apply (Permutation_in _ (order_by_id_perm _)).
      apply filter_In. rewrite is_untranslated_spec. auto.
Qed.

(** Rows inserted out of order come back in order. *)
Example get_untranslated_traces_orders :
  fst (get_untranslated_traces
         (fresh (Some [pending_row 5 (lit "e") (lit "5");
                       completed_row 4 (lit "d") (lit "4") (lit "char");
                       pending_row 2 (lit "b") (lit "2");
                       pending_row 3 (lit "c") (lit "3")])))
  = Ok [ {| trace_id := 2; trace_title := lit "b"; trace_en := lit "2" |};
         {| trace_id := 3; trace_title := lit "c"; trace_en := lit "3" |};
         {| trace_id := 5; trace_title := lit "e"; trace_en := lit "5" |} ].
Proof. reflexivity. Qed.

(** *** [check_database_status] *)

Lemma is_translated_under_invariant (r : row) :
  row_invariant r -> Sql.is_translated r = has_status completed r.
Proof.
  unfold row_invariant, Sql.is_translated, has_status.
  destruct (translation_status r); simpl; intros [Hc _]; [reflexivity |].
  destruct (Hc eq_refl) as (s & -> & _); reflexivity.
Qed.

Lemma is_untranslated_under_invariant (r : row) :
  row_invariant r -> Sql.is_untranslated r = has_status pending r.
Proof.
  unfold row_invariant, Sql.is_untranslated, has_status.
  destruct (translation_status r); simpl; intros [Hc _]; [reflexivity |].
  destruct (Hc eq_refl) as (s & -> & _); reflexivity.
Qed.

Lemma count_where_ext (p q : row -> bool) (t : table) :
  Forall (fun r => p r = q r) t -> Sql.count_where p t = Sql.count_where q t.
Proof.
  unfold Sql.count_where; intros H. f_equal.
  apply filter_ext_in. apply Forall_forall; exact H.
Qed.

(** C8 (status summary): on a table whose rows satisfy the invariant of §3,
    [check_database_status] returns the number of rows as the total, the
    number of rows with status [completed] as completed and the number
    with status [pending] as pending. *)
Theorem check_database_status_counts (w : world) (t : table) :
  db w = Some t ->
  Forall row_invariant t ->
  check_database_status w =
  (Ok (Some {| total_traces := List.length t;
               completed_translations :=
                 List.length (filter (has_status completed) t);
               pending_translations :=
                 List.length (filter (has_status pending) t) |}),
   w).
Proof.
  intros Hdb Hinv.
  unfold check_database_status, try_except, bind, execute; cbn [bind_parameters].
  rewrite Hdb, (set_db_same w) by assumption. rewrite Hdb.
  rewrite (set_db_same w) by assumption. rewrite Hdb.
  rewrite (set_db_same w) by assumption. unfold ret, Sql.count_all.
  rewrite (count_where_ext Sql.is_translated (has_status completed)),
    (count_where_ext Sql.is_untranslated (has_status pending)).
  - reflexivity.
  - eapply Forall_impl; [| exact Hinv].
    intros r; apply is_untranslated_under_invariant.
  - eapply Forall_impl; [| exact Hinv].
    intros r; apply is_translated_under_invariant.
Qed.

Lemma five_records_invariant : Forall row_invariant five_records.
Proof.
  repeat constructor; simpl; try discriminate;
    try (intros _; eexists; split; [reflexivity | discriminate]);
    intros (s & H & _); discriminate.
Qed.

(** The scenario of §8: five records, three completed, two pending. *)
Lemma check_database_status_counts_witness :
  db (fresh (Some five_records)) = Some five_records /\
  Forall row_invariant five_records /\
  check_database_status (fresh (Some five_records)) =
  (Ok (Some {| total_traces := 5; completed_translations := 3;
               pending_translations := 2 |}),
   fresh (Some five_records)).
Proof.
  split; [reflexivity |]. split; [exact five_records_invariant |].
  exact (check_database_status_counts (fresh (Some five_records))
           five_records eq_refl five_records_invariant).
Defined.

(** *** The invariant of §3 *)

Section Preservation.

Variable P : world -> Prop.

Lemma preserves_ret {A} (a : A) : preserves P (ret a).
Proof. intros w Hw; exact Hw. Qed.

Lemma preserves_raise {A} (e : exn) : preserves P (raise (A := A) e).
Proof. intros w Hw; exact Hw. Qed.

Lemma preserves_bind {A B} (c : M A) (k : A -> M B) :
  preserves P c -> (forall a, preserves P (k a)) -> preserves P (bind c k).
Proof.
  intros Hc Hk w Hw. unfold bind.
  specialize (Hc w Hw). destruct (c w) as [[a | e] w']; simpl in *.
  - apply Hk; exact Hc.
  - exact Hc.
Qed.

Lemma preserves_try_except {A} (c : M A) (h : exn -> M A) :
  preserves P c -> (forall e, preserves P (h e)) ->
  preserves P (try_except c h).
Proof.
  intros Hc Hh w Hw. unfold try_except.
  specialize (Hc w Hw). destruct (c w) as [[a | e] w']; simpl in *.
  - exact Hc.
  - apply Hh; exact Hc.
Qed.

Lemma preserves_for_each {A} (l : list A) (body : A -> M unit) :
  (forall x, preserves P (body x)) -> preserves P (for_each l body).
Proof.
  intros Hbody; induction l as [|x l IH]; simpl.
  - apply preserves_ret.
  - apply preserves_bind; [apply Hbody | intros _; exact IH].
Qed.

End Preservation.

Lemma preserves_now (E : env) : preserves store_invariant (now E).
Proof. intros w Hw; exact Hw. Qed.

Lemma preserves_execute_insert (E : env) (params : list sql_param)
  (stmt : Z -> timestamp -> table -> table) :
  (forall i c t, Forall row_invariant t -> Forall row_invariant (stmt i c t)) ->
  preserves store_invariant (execute_insert E params stmt).
Proof.
  intros Hstmt w Hw. unfold execute_insert, store_invariant, records in *.
  destruct (db w) as [t |] eqn:Hdb; [| simpl; rewrite Hdb; exact Hw].
  destruct (bind_parameters params); [simpl; rewrite Hdb; exact Hw |].
  destruct (Sql.next_id t); simpl; [| rewrite Hdb; exact Hw].
  apply Hstmt; exact Hw.
Qed.

Lemma preserves_execute {A} (params : list sql_param)
  (stmt : table -> A * table) :
  (forall t, Forall row_invariant t -> Forall row_invariant (snd (stmt t))) ->
  preserves store_invariant (execute params stmt).
Proof.
  intros Hstmt w Hw. unfold execute, store_invariant, records in *.
  destruct (db w) as [t |] eqn:Hdb; [| simpl; rewrite Hdb; exact Hw].
  destruct (bind_parameters params); [simpl; rewrite Hdb; exact Hw |].
  specialize (Hstmt t Hw). destruct (stmt t) as [a t']; exact Hstmt.
Qed.

Lemma insert_pending_invariant (ti co en : str) (i : Z) (c : timestamp)
  (t : table) :
  Forall row_invariant t ->
  Forall row_invariant (Sql.insert_pending ti co en i c t).
Proof.
  intros Ht. unfold Sql.insert_pending. apply Forall_app; split; [exact Ht |].
  constructor; [| constructor].
  split; simpl; [discriminate | intros (s & H & _); discriminate].
Qed.

Lemma insert_completed_invariant (ti co en hi : str) (a : timestamp) (i : Z)
  (c : timestamp) (t : table) :
  hi <> [] ->
  Forall row_invariant t ->
  Forall row_invariant (Sql.insert_completed ti co en hi a i c t).
Proof.
  intros Hhi Ht. unfold Sql.insert_completed.
  apply Forall_app; split; [exact Ht |].
  constructor; [| constructor].
  split; simpl; [intros _; exists hi; auto | reflexivity].
Qed.

Lemma set_translation_invariant (hi : str) (a : timestamp) (r : row) :
  hi <> [] -> row_invariant (Sql.set_translation hi a r).
Proof.
  intros Hhi; split; simpl; [intros _; exists hi; auto | reflexivity].
Qed.

Lemma update_where_id_invariant (hi : str) (a : timestamp) (i : Z) (t : table) :
  hi <> [] ->
  Forall row_invariant t ->
  Forall row_invariant (Sql.update_where_id hi a i t).
Proof.
  intros Hhi Ht. unfold Sql.update_where_id.
  apply Forall_map. eapply Forall_impl; [| exact Ht].
  intros r Hr. destruct (id r =? i);
    [apply set_translation_invariant; exact Hhi | exact Hr].
Qed.

Lemma update_where_title_trace_invariant (hi : str) (a : timestamp)
  (ti en : str) (t : table) :
  hi <> [] ->
  Forall row_invariant t ->
  Forall row_invariant (Sql.update_where_title_trace hi a ti en t).
Proof.
  intros Hhi Ht. unfold Sql.update_where_title_trace.
  apply Forall_map. eapply Forall_impl; [| exact Ht].
  intros r Hr.
  destruct (str_eqb (title r) ti && str_eqb (trace_en_with_think r) en);
    [apply set_translation_invariant; exact Hhi | exact Hr].
Qed.

Lemma truthy_nonempty (s : str) : truthy s = true -> s <> [].
Proof. destruct s; [discriminate | discriminate]. Qed.

Lemma save_to_database_invariant (E : env) (es : list entry_with_trace) :
  preserves store_invariant (save_to_database E es).
Proof.
  unfold save_to_database.
  apply preserves_try_except; [| intros e; apply preserves_raise].
  apply preserves_for_each; intros entry; cbv zeta.
  destruct (e_trace_hi_with_think entry) as [hi |];
    [destruct (truthy hi) eqn:Hhi |];
    try (apply preserves_execute_insert; intros i c t;
         apply insert_pending_invariant).
  apply preserves_bind; [apply preserves_now |].
  intros a. apply preserves_execute_insert; intros i c t.
  apply insert_completed_invariant, truthy_nonempty, Hhi.
Qed.

Lemma update_translation_in_database_invariant
  (E : env) (i : Z) (hi : str) :
  hi <> [] ->
  preserves store_invariant (update_translation_in_database E i hi).
Proof.
  intros Hhi. unfold update_translation_in_database.
  apply preserves_try_except; [| intros e; apply preserves_raise].
  apply preserves_bind; [apply preserves_now |].
  intros a. apply preserves_execute; intros t; simpl.
  apply update_where_id_invariant, Hhi.
Qed.

Lemma inline_update_invariant (E : env) (hi ti en : str) :
  hi <> [] ->
  preserves store_invariant (inline_update E hi ti en).
Proof.
  intros Hhi. unfold inline_update.
  apply preserves_bind; [apply preserves_now |].
  intros a. apply preserves_execute; intros t; simpl.
  apply update_where_title_trace_invariant, Hhi.
Qed.

(** C2, as the code has it: every sequence of store operations
    ([save_to_database], [update_translation_in_database], the inline
    update) in which no update writes the empty text keeps the invariant
    of §3: in every row the status is [completed] iff
    [trace_hi_with_think] is non-null and non-empty. *)
Theorem store_invariant_kept (E : env) (ops : list store_op) (w : world) :
  store_invariant w ->
  Forall writes_nonempty ops ->
  store_invariant (run_ops E ops w).
Proof.
  revert w; induction ops as [|op ops IH]; intros w Hw Hops; simpl.
  - exact Hw.
  - inversion Hops as [| ? ? Hop Hops']; subst.
    apply IH; [| exact Hops'].
    destruct op as [es | i hi | hi ti en]; simpl in *.
    + apply save_to_database_invariant; exact Hw.
    + apply update_translation_in_database_invariant; assumption.
    + apply inline_update_invariant; assumption.
Qed.

Lemma store_invariant_kept_witness :
  store_invariant (fresh (Some [])) /\
  Forall writes_nonempty sample_ops /\
  store_invariant (run_ops (always_raises []) sample_ops (fresh (Some []))) /\
  map (fun r => (id r, translation_status r, trace_hi_with_think r))
    (records (run_ops (always_raises []) sample_ops (fresh (Some []))))
  = [(1, completed, Some (lit "hash map lo"));
     (2, completed, Some (lit "pehle sort"))].
Proof.
  assert (Hstart : store_invariant (fresh (Some []))) by constructor.
  assert (Hops : Forall writes_nonempty sample_ops)
    by (repeat constructor; discriminate).
  split; [exact Hstart |]. split; [exact Hops |].
  split; [| reflexivity].
  exact (store_invariant_kept (always_raises []) sample_ops (fresh (Some []))
           Hstart Hops).
Defined.

(** C2 fails as stated: [update_translation_in_database] stores whatever
    text it is given; applied with the empty text it leaves a row whose
    status is [completed] and whose [trace_hi_with_think] is empty. *)
Lemma empty_text_breaks_invariant :
  map (fun r => (id r, translation_status r, trace_hi_with_think r))
    (records (run_ops (always_raises []) empty_text_ops (fresh (Some []))))
  = [(1, completed, Some [])] /\
  ~ store_invariant (run_ops (always_raises []) empty_text_ops
                       (fresh (Some []))).
Proof.
  split; [reflexivity |].
  intros Hinv. unfold store_invariant in Hinv.
  apply Forall_inv in Hinv. destruct Hinv as [Hc _].
  destruct (Hc eq_refl) as (s & Hs & Hne).
  apply Hne. injection Hs as <-. reflexivity.
Qed.

(* ================================================================== *)
(** ** The Orchestrator *)

(** The error messages the engine can return. *)
Lemma retry_loop_error_form
  (E : env) (cfg : config) (text : str) (attempts : list Z) (w : world) :
  forall msg w',
    retry_loop E cfg text attempts w = (Ok (ErrorMessage msg), w') ->
    (exists detail, msg = error_after_attempts cfg detail) \/
    msg = lit "Translation failed: Maximum retries exceeded".
Proof.
  revert w; induction attempts as [|a rest IH]; intros w msg w'; simpl.
  - intros H; injection H as <- _; right; reflexivity.
  - unfold bind at 1. rewrite attempt_body_eq; cbv zeta.
    destruct (accepted text (reply_at E cfg text (calls w))) as [s |].
    + discriminate.
    + destruct (a <? MAX_RETRIES cfg - 1).
      * unfold bind.
        destruct (sleep_cases E (RETRY_DELAY cfg) (called w))
          as [H | (e & H)]; rewrite H; [apply IH | discriminate].
      * intros H; injection H as <- _; left; eexists; reflexivity.
Qed.

Lemma error_message_not_detected
  (E : env) (cfg : config) (text : str) (w : world) (msg : str) (w' : world) :
  translate_text_to_hindi_outcome E cfg text w = (Ok (ErrorMessage msg), w') ->
  startswith_any msg error_prefixes = false.
Proof.
  intros H. apply retry_loop_error_form in H.
  destruct H as [(detail & ->) | ->].
  - apply error_after_attempts_not_detected.
  - apply retries_exceeded_not_detected.
Qed.

(** X18. In batch mode no error message of the engine is recognised:
    whenever the engine fails for a record, the round counts as a success
    and the message is stored as the translation.  For a trace id that is
    an INTEGER of SQLite and a message that UTF-8 encodes, every row with
    that id holds the message in [trace_hi_with_think], the status
    [completed] and the time of the update afterwards; its other columns
    and the other rows are as they were. *)
Lemma translate_one_stores_error_message
  (E : env) (cfg : config) (tr : trace) (w : world) (t : table)
  (msg : str) (w1 : world) :
  db w = Some t ->
  - 2 ^ 63 <= trace_id tr < 2 ^ 63 ->
  utf8_encodable msg = true ->
  translate_reasoning_trace_outcome E cfg (trace_en tr) w
  = (Ok (ErrorMessage msg), w1) ->
  exists t',
    translate_one E cfg tr w = (Ok true, set_db (Some t') (ticked w1)) /\
    List.length t' = List.length t /\
    forall (n : nat) (r : row),
      nth_error t n = Some r ->
      exists r',
        nth_error t' n = Some r' /\
        immutable_part r' = immutable_part r /\
        (id r = trace_id tr ->
         trace_hi_with_think r' = Some msg /\
         translation_status r' = completed /\
         translated_at r' = Some (datetime_now E (clock w1))) /\
        (id r <> trace_id tr -> r' = r).
Proof.
  intros Hdb Hid Hmsg Hrun.
  pose proof (error_message_not_detected _ _ _ _ _ _ Hrun) as Hnot.
  destruct (retry_loop_ends E cfg (contextual_prompt (trace_en tr))
              (range (MAX_RETRIES cfg)) w) as (o & w2 & Hrun' & Hdb' & _).
  unfold translate_reasoning_trace_outcome, translate_text_to_hindi_outcome
    in Hrun.
  rewrite Hrun in Hrun'. injection Hrun' as <- <-.
  assert (Hdb1 : db (ticked w1) = Some t) by (rewrite <- Hdb; exact Hdb').
  exists (Sql.update_where_id msg (datetime_now E (clock w1)) (trace_id tr) t).
  split; [| apply update_where_id_rows].
  unfold translate_one, try_except, bind at 1, translate_reasoning_trace,
    translate_text_to_hindi, bind at 1, translate_text_to_hindi_outcome.
  rewrite Hrun. unfold ret at 1. cbn [returned]. rewrite Hnot.
  unfold bind, update_translation_in_database, try_except, bind, now, execute.
  rewrite Hdb1, bind_update by assumption. reflexivity.
Qed.

(** C1 fails on the code.  The service raises on every call, so the engine
    returns its error message for the one pending record.  In batch mode
    the message passes the prefix test, is written by
    [update_translation_in_database], and the run reports one success and
    no failure; in inline mode [main] applies it without any test.  Either
    way the record ends [completed], with the error message as its
    translation. *)
Theorem failure_result_is_applied :
  translate_reasoning_trace_outcome (always_raises (lit "connection refused"))
    default_config (lit "use a hash map") (fresh (Some one_pending))
  = (Ok (ErrorMessage
           (lit "Translation error after 3 attempts: connection refused")),
     called (after_failures default_config 2 (fresh (Some one_pending)))) /\
  fst (translate_all_pending_traces
         (always_raises (lit "connection refused")) default_config
         (fresh (Some one_pending)))
  = Ok (Some {| processed := 1; successful_translations := 1;
                failed_translations := 0 |}) /\
  map (fun r => (id r, translation_status r, trace_hi_with_think r))
    (records (snd (translate_all_pending_traces
                     (always_raises (lit "connection refused"))
                     default_config (fresh (Some one_pending)))))
  = [(1, completed,
      Some (lit "Translation error after 3 attempts: connection refused"))] /\
  map (fun r => (id r, translation_status r, trace_hi_with_think r))
    (records (snd (main (always_raises (lit "connection refused"))
                     default_config
                     [ {| entry_title := lit "Two Sum";
                          entry_content := lit "..." |} ]
                     (fresh None))))
  = [(1, completed,
      Some (lit "Translation error after 3 attempts: connection refused"))].
Proof.
  split; [vm_compute; reflexivity |].
  split; [vm_compute; reflexivity |].
  split; vm_compute; reflexivity.
Qed.

(** A scenario of §8: the service raises twice and answers on the third
    call; the record ends [completed] and the engine made three calls. *)
Example third_attempt_succeeds :
  fst (translate_all_pending_traces (answers_after 2 (lit "hash map lo"))
         default_config (fresh (Some one_pending)))
  = Ok (Some {| processed := 1; successful_translations := 1;
                failed_translations := 0 |}) /\
  calls (snd (translate_all_pending_traces
                (answers_after 2 (lit "hash map lo")) default_config
                (fresh (Some one_pending)))) = 3%nat /\
  map (fun r => (id r, translation_status r, trace_hi_with_think r))
    (records (snd (translate_all_pending_traces
                     (answers_after 2 (lit "hash map lo")) default_config
                     (fresh (Some one_pending)))))
  = [(1, completed, Some (lit "hash map lo"))].
Proof. repeat split; vm_compute; reflexivity. Qed.

(** *** The invariant of §3 over whole runs *)

Lemma yields_bind {A B} (P : world -> Prop) (Q : A -> Prop)
  (c : M A) (k : A -> M B) :
  yields P Q c -> (forall a, Q a -> preserves P (k a)) ->
  preserves P (bind c k).
Proof.
  intros Hc Hk w Hw. unfold bind.
  destruct (Hc w Hw) as [Hpost Hval].
  destruct (c w) as [[a | e] w']; simpl in *.
  - apply Hk; [apply Hval; reflexivity | exact Hpost].
  - exact Hpost.
Qed.

(** What the engine returns is never the empty string, and the engine
    leaves the table alone. *)
Lemma translate_text_to_hindi_yields (E : env) (cfg : config) (text : str) :
  yields store_invariant (fun s => s <> [])
    (translate_text_to_hindi E cfg text).
Proof.
  intros w Hw.
  destruct (retry_loop_ends E cfg text (range (MAX_RETRIES cfg)) w)
    as (r0 & w' & Hrun & Hdb & _ & _ & Hacc).
  unfold translate_text_to_hindi, translate_text_to_hindi_outcome, bind.
  rewrite Hrun.
  assert (Hinv : store_invariant w')
    by (unfold store_invariant, records in *; rewrite Hdb; exact Hw).
  destruct r0 as [o | e]; cbn [ret fst snd]; (split; [exact Hinv |]);
    [| intros a Ha; discriminate].
  intros s Hs; injection Hs as <-.
  destruct o as [s | msg]; simpl.
  - destruct (Hacc s eq_refl) as (k & _ & Hk).
    unfold accepted in Hk.
    destruct (reply_at E cfg text k) as [e | [r |]]; try discriminate.
    destruct (valid_translation text (strip r)) eqn:Hv; try discriminate.
    injection Hk as <-. apply valid_translation_spec in Hv. tauto.
  - destruct (retry_loop_error_form _ _ _ _ _ _ _ Hrun)
      as [(detail & ->) | ->]; discriminate.
Qed.

Lemma preserves_generate (E : env) (model prompt : str) :
  preserves store_invariant (generate E model prompt).
Proof.
  intros w Hw. unfold generate.
  destruct (ollama_generate E (calls w) model prompt); exact Hw.
Qed.

Lemma get_reasoning_trace_with_think_invariant (E : env) (c m : str) :
  preserves store_invariant (get_reasoning_trace_with_think E c m).
Proof.
  unfold get_reasoning_trace_with_think.
  apply preserves_try_except; [| intros e; apply preserves_ret].
  apply preserves_bind; [apply preserves_generate |].
  intros [r |]; [apply preserves_ret | apply preserves_raise].
Qed.

Lemma get_untranslated_traces_invariant :
  preserves store_invariant get_untranslated_traces.
Proof.
  unfold get_untranslated_traces.
  apply preserves_try_except; [| intros e; apply preserves_ret].
  apply preserves_bind; [| intros rows; apply preserves_ret].
  apply preserves_execute; intros t Ht; exact Ht.
Qed.

Lemma check_database_status_invariant :
  preserves store_invariant check_database_status.
Proof.
  unfold check_database_status.
  apply preserves_try_except; [| intros e; apply preserves_ret].
  repeat (apply preserves_bind;
          [apply preserves_execute; intros t Ht; exact Ht | intros ?]).
  apply preserves_ret.
Qed.

Lemma process_translations_invariant (E : env) (cfg : config) :
  preserves store_invariant (process_translations E cfg).
Proof.
  unfold process_translations.
  apply preserves_bind; [apply get_untranslated_traces_invariant |].
  intros traces. destruct traces as [| tr rest]; [apply preserves_ret |].
  apply preserves_for_each; intros x.
  eapply yields_bind; [apply translate_text_to_hindi_yields |].
  intros hi Hhi. apply update_translation_in_database_invariant, Hhi.
Qed.

Lemma main_entry_invariant (E : env) (cfg : config) (e : entry) :
  preserves store_invariant (main_entry E cfg e).
Proof.
  unfold main_entry.
  apply preserves_bind; [apply get_reasoning_trace_with_think_invariant |].
  intros en. apply preserves_bind; [apply save_to_database_invariant |].
  intros _. eapply yields_bind; [apply translate_text_to_hindi_yields |].
  intros hi Hhi. apply inline_update_invariant, Hhi.
Qed.

Lemma setup_database_invariant : preserves store_invariant setup_database.
Proof.
  intros w Hw. unfold setup_database, store_invariant, records in *.
  destruct (db w) as [t |] eqn:Hdb; simpl.
  - rewrite Hdb; exact Hw.
  - constructor.
Qed.

(** A run of [main] keeps the invariant of §3: the texts it stores come
    from the engine and are never empty. *)
Lemma main_invariant (E : env) (cfg : config) (entries : list entry) :
  preserves store_invariant (main E cfg entries).
Proof.
  unfold main.
  apply preserves_bind; [apply setup_database_invariant |].
  intros _. destruct entries as [| e rest]; [apply preserves_ret |].
  apply preserves_bind; [| intros _; apply process_translations_invariant].
  apply preserves_for_each; intros x; apply main_entry_invariant.
Qed.

Lemma translate_one_invariant (E : env) (cfg : config) (tr : trace) :
  preserves store_invariant (translate_one E cfg tr).
Proof.
  unfold translate_one.
  apply preserves_try_except; [| intros e; apply preserves_ret].
  eapply yields_bind; [apply translate_text_to_hindi_yields |].
  intros hi Hhi.
  destruct (startswith_any hi error_prefixes); [apply preserves_ret |].
  apply preserves_bind; [| intros _; apply preserves_ret].
  apply update_translation_in_database_invariant, Hhi.
Qed.

Lemma translate_loop_invariant (E : env) (cfg : config) (traces : list trace) :
  forall s f, preserves store_invariant (translate_loop E cfg traces s f).
Proof.
  induction traces as [| tr rest IH]; intros s f; simpl.
  - apply preserves_ret.
  - apply preserves_bind; [apply translate_one_invariant |].
    intros [|]; apply IH.
Qed.

(** So does a run of [translate_all_pending_traces]. *)
Lemma translate_all_pending_traces_invariant (E : env) (cfg : config) :
  preserves store_invariant (translate_all_pending_traces E cfg).
Proof.
  unfold translate_all_pending_traces.
  apply preserves_bind; [apply check_database_status_invariant |].
  intros [st |]; [| apply preserves_ret].
  destruct (pending_translations st =? 0)%nat; [apply preserves_ret |].
  apply preserves_bind; [apply get_untranslated_traces_invariant |].
  intros [| tr rest]; [apply preserves_ret |].
  apply preserves_bind; [apply translate_loop_invariant |].
  intros counts; apply preserves_ret.
Qed.

(** *** A service that echoes its prompt *)

Lemma lstrip_head (c : N) (s : str) : isspace c = false -> lstrip (c :: s) = c :: s.
Proof. intros H; simpl; rewrite H; reflexivity. Qed.

Lemma strip_enclosed (c d : N) (s : str) :
  isspace c = false -> isspace d = false ->
  strip (c :: s ++ [d]) = c :: s ++ [d].
Proof.
  intros Hc Hd. unfold strip, rstrip.
  rewrite lstrip_head by assumption.
  change (c :: s ++ [d]) with ((c :: s) ++ [d]).
  rewrite rev_unit, lstrip_head by assumption.
  rewrite <- rev_unit. apply rev_involutive.
Qed.

Lemma translation_prompt_enclosed (text : str) :
  exists s, translation_prompt text = 84%N :: s ++ [58%N].
Proof.
  unfold translation_prompt.
  change (lit "Hindi translation:") with (lit "Hindi translation" ++ [58%N]).
  rewrite !app_assoc.
  match goal with
  | |- exists s, ?l ++ _ = _ => exists (tl l)
  end.
  reflexivity.
Qed.

Lemma strip_translation_prompt (text : str) :
  strip (translation_prompt text) = translation_prompt text.
Proof.
  destruct (translation_prompt_enclosed text) as (s & ->).
  apply strip_enclosed; reflexivity.
Qed.

Lemma translation_prompt_longer (text : str) :
  (List.length text < List.length (translation_prompt text))%nat.
Proof.
  unfold translation_prompt. rewrite !length_app. simpl. lia.
Qed.

(** Whatever the text, the prompt sent to the service is accepted as its
    translation when the service sends it back. *)
Lemma echoed_prompt_is_accepted (cfg : config) (text : str) (k : nat) :
  accepted text (reply_at echo_prompt cfg text k)
  = Some (translation_prompt text).
Proof.
  unfold reply_at, accepted, echo_prompt; cbn [ollama_generate].
  rewrite strip_translation_prompt.
  replace (valid_translation text (translation_prompt text)) with true;
    [reflexivity |].
  symmetry. apply valid_translation_spec. split.
  - intros H. pose proof (translation_prompt_longer text) as Hlen.
    rewrite H in Hlen; simpl in Hlen; lia.
  - intros H. pose proof (translation_prompt_longer text) as Hlen.
    rewrite H in Hlen; lia.
Qed.

(** X7. With at least one attempt allowed, a service that sends its prompt
    back gets the prompt returned as the translation, at the first call,
    whatever the text is. *)
Lemma echoed_prompt_is_returned (cfg : config) (text : str) (w : world) :
  0 < MAX_RETRIES cfg ->
  translate_text_to_hindi echo_prompt cfg text w
  = (Ok (translation_prompt text), called w).
Proof.
  intros Hmax.
  unfold translate_text_to_hindi, translate_text_to_hindi_outcome, bind, range.
  replace (Z.to_nat (MAX_RETRIES cfg)) with (S (Z.to_nat (MAX_RETRIES cfg) - 1))
    by lia.
  cbn [seq map retry_loop]. unfold bind. rewrite attempt_body_eq; cbv zeta.
  rewrite echoed_prompt_is_accepted. reflexivity.
Qed.

(* ================================================================== *)
(** ** More about the Translation Engine *)







Lemma returned_nonempty
  (E : env) (cfg : config) (text : str) (w : world) (o : outcome) (w' : world) :
  translate_text_to_hindi_outcome E cfg text w = (Ok o, w') ->
  returned o <> [].
Proof.
  intros Hrun.
  destruct (retry_loop_ends E cfg text (range (MAX_RETRIES cfg)) w)
    as (r1 & w1 & Hrun1 & _ & _ & _ & Hacc).
  unfold translate_text_to_hindi_outcome in Hrun.
  rewrite Hrun in Hrun1. injection Hrun1 as <- <-.
  destruct o as [s | msg]; simpl.
  - destruct (Hacc s eq_refl) as (k & _ & Hk).
    unfold accepted in Hk.
    destruct (reply_at E cfg text k) as [e | [r |]]; try discriminate.
    destruct (valid_translation text (strip r)) eqn:Hv; try discriminate.
    injection Hk as <-. apply valid_translation_spec in Hv. tauto.
  - destruct (retry_loop_error_form _ _ _ _ _ _ _ Hrun)
      as [(detail & ->) | ->]; discriminate.
Qed.



(** X4. With [MAX_RETRIES <= 0] the loop does not run: the service is never
    called, nothing sleeps, and the function returns
    ['Translation failed: Maximum retries exceeded']. *)
Theorem no_attempt_allowed
  (E : env) (cfg : config) (text : str) (w : world) :
  MAX_RETRIES cfg <= 0 ->
  translate_text_to_hindi E cfg text w
  = (Ok (lit "Translation failed: Maximum retries exceeded"), w).
Proof.
  intros Hmax.
  unfold translate_text_to_hindi, translate_text_to_hindi_outcome, bind.
  rewrite range_nil by assumption. reflexivity.
Qed.

Lemma no_attempt_allowed_witness :
  MAX_RETRIES no_attempts <= 0 /\
  translate_text_to_hindi (always_answers (lit "hash map lo")) no_attempts
    (lit "use a hash map") (fresh None)
  = (Ok (lit "Translation failed: Maximum retries exceeded"), fresh None).
Proof.
  assert (H0 : MAX_RETRIES no_attempts <= 0) by (simpl; lia).
  split; [exact H0 |].
  exact (no_attempt_allowed (always_answers (lit "hash map lo")) no_attempts
           (lit "use a hash map") (fresh None) H0).
Defined.

(** *** [strip] *)

Lemma lstrip_starts_clean (s : str) : starts_clean (lstrip s).
Proof.
  induction s as [|c s IH]; simpl; [exact I |].
  destruct (isspace c) eqn:Hc; [exact IH | exact Hc].
Qed.

Lemma lstrip_clean (s : str) : starts_clean s -> lstrip s = s.
Proof.
  destruct s as [|c s]; simpl; [reflexivity |]. intros ->; reflexivity.
Qed.

Lemma lstrip_suffix (s : str) : exists pre, s = pre ++ lstrip s.
Proof.
  induction s as [|c s (pre & IH)]; simpl.
  - exists []; reflexivity.
  - destruct (isspace c).
    + exists (c :: pre). simpl. rewrite <- IH. reflexivity.
    + exists []; reflexivity.
Qed.

Lemma rstrip_prefix (s : str) : exists post, s = rstrip s ++ post.
Proof.
  unfold rstrip. destruct (lstrip_suffix (rev s)) as (pre & Hpre).
  exists (rev pre).
  rewrite <- rev_app_distr, <- Hpre, rev_involutive. reflexivity.
Qed.

Lemma rstrip_ends_clean (s : str) : ends_clean (rstrip s).
Proof.
  unfold ends_clean, rstrip. rewrite rev_involutive.
  apply lstrip_starts_clean.
Qed.

Lemma rstrip_starts_clean (s : str) : starts_clean s -> starts_clean (rstrip s).
Proof.
  destruct (rstrip_prefix s) as (post & Hpost).
  destruct (rstrip s) as [|c r]; [intros _; exact I |].
  rewrite Hpost; simpl. auto.
Qed.

Lemma rstrip_clean (s : str) : ends_clean s -> rstrip s = s.
Proof.
  unfold ends_clean, rstrip. intros H.
  rewrite lstrip_clean by assumption. apply rev_involutive.
Qed.

Lemma strip_starts_clean (s : str) : starts_clean (strip s).
Proof. apply rstrip_starts_clean, lstrip_starts_clean. Qed.

Lemma strip_ends_clean (s : str) : ends_clean (strip s).
Proof. apply rstrip_ends_clean. Qed.

Lemma strip_clean (s : str) : starts_clean s -> ends_clean s -> strip s = s.
Proof.
  intros Hs He. unfold strip.
  rewrite lstrip_clean by assumption. apply rstrip_clean, He.
Qed.

Lemma strip_idempotent (s : str) : strip (strip s) = strip s.
Proof. apply strip_clean; [apply strip_starts_clean | apply strip_ends_clean]. Qed.

Lemma length_lstrip (s : str) : (List.length (lstrip s) <= List.length s)%nat.
Proof.
  destruct (lstrip_suffix s) as (pre & H).
  rewrite H at 2. rewrite length_app. lia.
Qed.

Lemma length_strip (s : str) : (List.length (strip s) <= List.length s)%nat.
Proof.
  unfold strip.
  destruct (rstrip_prefix (lstrip s)) as (post & H).
  pose proof (length_lstrip s) as Hl.
  rewrite H in Hl. rewrite length_app in Hl. lia.
Qed.

(** X5. What the engine returns as a translation is stripped already: it
    neither begins nor ends with whitespace, and [strip] leaves it as it
    is. *)
Theorem translation_is_stripped
  (E : env) (cfg : config) (text : str) (w : world) (s : str) (w' : world) :
  translate_text_to_hindi_outcome E cfg text w = (Ok (Translated s), w') ->
  strip s = s /\ starts_clean s /\ ends_clean s.
Proof.
  intros Hrun.
  destruct (retry_loop_ends E cfg text (range (MAX_RETRIES cfg)) w)
    as (r1 & w1 & Hrun1 & _ & _ & _ & Hacc).
  unfold translate_text_to_hindi_outcome in Hrun.
  rewrite Hrun in Hrun1. injection Hrun1 as <- <-.
  destruct (Hacc s eq_refl) as (k & _ & Hk).
  unfold accepted in Hk.
  destruct (reply_at E cfg text k) as [e | [r |]]; try discriminate.
  destruct (valid_translation text (strip r)); try discriminate.
  injection Hk as <-.
  split; [apply strip_idempotent |].
  split; [apply strip_starts_clean | apply strip_ends_clean].
Qed.

Lemma translation_is_stripped_witness :
  translate_text_to_hindi_outcome (always_answers (lit "  hash map lo
"))
    default_config (lit "use a hash map") (fresh None)
  = (Ok (Translated (lit "hash map lo")), called (fresh None)) /\
  strip (lit "hash map lo") = lit "hash map lo" /\
  starts_clean (lit "hash map lo") /\ ends_clean (lit "hash map lo").
Proof.
  assert (Hrun : translate_text_to_hindi_outcome
                   (always_answers (lit "  hash map lo
")) default_config (lit "use a hash map") (fresh None)
                 = (Ok (Translated (lit "hash map lo")), called (fresh None)))
    by reflexivity.
  split; [exact Hrun |].
  exact (translation_is_stripped _ _ _ _ _ _ Hrun).
Defined.

Lemma contextual_prompt_longer (trace_text : str) :
  (List.length trace_text < List.length (contextual_prompt trace_text))%nat.
Proof.
  unfold contextual_prompt. rewrite !length_app. simpl. lia.
Qed.

(** X6. Through [translate_reasoning_trace] the comparison is with the
    contextual prompt, not with the trace: a service that answers with the
    English trace itself gets it returned as the translation, at the first
    call, whenever the trace is not blank. *)
Theorem untranslated_trace_is_accepted
  (cfg : config) (trace_text problem_title : str) (w : world) :
  0 < MAX_RETRIES cfg ->
  strip trace_text <> [] ->
  translate_reasoning_trace (always_answers trace_text) cfg trace_text
    problem_title w
  = (Ok (strip trace_text), called w).
Proof.
  intros Hmax Hne.
  unfold translate_reasoning_trace, translate_text_to_hindi, bind.
  rewrite (outcome_accepted_at_once (always_answers trace_text) cfg
             (contextual_prompt trace_text) w (strip trace_text)).
  - reflexivity.
  - exact Hmax.
  - unfold reply_at, accepted, always_answers; cbn [ollama_generate].
    replace (valid_translation (contextual_prompt trace_text)
               (strip trace_text)) with true; [reflexivity |].
    symmetry. apply valid_translation_spec. split; [exact Hne |].
    intros H. pose proof (length_strip trace_text) as Hl.
    pose proof (contextual_prompt_longer trace_text) as Hc.
    rewrite H in Hl. lia.
Qed.

Lemma untranslated_trace_is_accepted_witness :
  0 < MAX_RETRIES default_config /\
  strip (lit "use a hash map") <> [] /\
  translate_reasoning_trace (always_answers (lit "use a hash map"))
    default_config (lit "use a hash map") (lit "Two Sum") (fresh None)
  = (Ok (strip (lit "use a hash map")), called (fresh None)).
Proof.
  assert (H0 : 0 < MAX_RETRIES default_config) by reflexivity.
  assert (H1 : strip (lit "use a hash map") <> []) by discriminate.
  split; [exact H0 |]. split; [exact H1 |].
  exact (untranslated_trace_is_accepted default_config (lit "use a hash map")
           (lit "Two Sum") (fresh None) H0 H1).
Defined.

(* ================================================================== *)
(** ** More about the Record Store *)

Lemma largest_id_nonneg (t : table) : 0 <= Sql.largest_id t.
Proof.
  unfold Sql.largest_id. induction t as [|r t IH]; cbn [map fold_right]; lia.
Qed.

Lemma largest_id_bound (t : table) (x : Z) :
  In x (map id t) -> x <= Sql.largest_id t.
Proof.
  unfold Sql.largest_id.
  induction t as [|r t IH]; cbn [map fold_right In]; [tauto |].
  intros [<- | H]; [lia | specialize (IH H); lia].
Qed.

Lemma largest_id_app (t : table) (r : row) :
  id r = 1 + Sql.largest_id t ->
  Sql.largest_id (t ++ [r]) = 1 + Sql.largest_id t.
Proof.
  intros Hr. pose proof (largest_id_nonneg t) as H0. revert Hr H0.
  unfold Sql.largest_id. rewrite map_app. cbn [map].
  generalize (id r). intros i.
  induction (map id t) as [|x l IH]; cbn [app fold_right]; intros Hi H0.
  - lia.
  - assert (Hl : 0 <= fold_right Z.max 0 l)
      by (clear; induction l; cbn [fold_right]; lia).
    assert (Htail : fold_right Z.max 0 (l ++ [i]) = Z.max (fold_right Z.max 0 l) i).
    { clear - Hl. induction l as [|y l IH]; cbn [app fold_right].
      - lia.
      - assert (Hl' : 0 <= fold_right Z.max 0 l)
          by (clear; induction l; cbn [fold_right]; lia).
        rewrite (IH Hl'). lia. }
    rewrite Htail. lia.
Qed.

(** The table has room when its largest id is below the largest rowid;
    the new id is then above every id of the table. *)
Lemma next_id_room (t : table) :
  Sql.largest_id t < 2 ^ 63 - 1 ->
  Sql.next_id t = Some (1 + Sql.largest_id t).
Proof.
  intros H. unfold Sql.next_id, Sql.max_integer.
  replace (2 ^ 63 - 1 <=? Sql.largest_id t) with false
    by (symmetry; apply Z.leb_gt; lia).
  reflexivity.
Qed.

Lemma next_id_value (t : table) (i : Z) :
  Sql.next_id t = Some i ->
  i = 1 + Sql.largest_id t /\ Sql.largest_id t < 2 ^ 63 - 1.
Proof.
  unfold Sql.next_id, Sql.max_integer.
  destruct (Z.leb_spec (2 ^ 63 - 1) (Sql.largest_id t)) as [Hle | Hlt];
    [discriminate |].
  intros Heq; injection Heq as <-. split; [reflexivity | lia].
Qed.

Lemma next_id_fresh (t : table) (i : Z) :
  Sql.next_id t = Some i -> ~ In i (map id t).
Proof.
  intros H Hin. apply next_id_value in H. destruct H as [-> _].
  apply largest_id_bound in Hin. lia.
Qed.

Lemma next_id_full (t : table) :
  2 ^ 63 - 1 <= Sql.largest_id t -> Sql.next_id t = None.
Proof.
  intros H. unfold Sql.next_id, Sql.max_integer.
  replace (2 ^ 63 - 1 <=? Sql.largest_id t) with true
    by (symmetry; apply Z.leb_le; lia).
  reflexivity.
Qed.

(** The parameters of the two INSERTs. *)
Lemma bind_insert_pending (ti co en : str) :
  utf8_encodable ti = true -> utf8_encodable co = true ->
  utf8_encodable en = true ->
  bind_parameters [PText ti; PText co; PText en; PText (lit "pending")]
  = None.
Proof.
  intros Hti Hco Hen. cbn [bind_parameters].
  rewrite !bind_text by assumption. reflexivity.
Qed.

Lemma bind_insert_completed (ti co en hi : str) (a : timestamp) :
  utf8_encodable ti = true -> utf8_encodable co = true ->
  utf8_encodable en = true -> utf8_encodable hi = true ->
  bind_parameters [PText ti; PText co; PText en; PText hi;
                   PText (lit "completed"); PTimestamp a]
  = None.
Proof.
  intros Hti Hco Hen Hhi. cbn [bind_parameters].
  rewrite !bind_text by assumption. reflexivity.
Qed.

(** What the loop of [save_to_database] does on a table that exists and
    has room, with texts that UTF-8 encodes. *)
Lemma save_to_database_rows (E : env) (es : list entry_with_trace) :
  forall (w : world) (t : table),
    db w = Some t ->
    Sql.largest_id t + Z.of_nat (List.length es) < 2 ^ 63 ->
    Forall encodable_entry es ->
    exists new w',
      save_to_database E es w = (Ok tt, w') /\
      db w' = Some (t ++ new) /\ calls w' = calls w /\
      map id new
      = map (fun j => 1 + Sql.largest_id t + Z.of_nat j)
          (seq 0 (List.length es)) /\
      map (fun r => (title r, content r, trace_en_with_think r)) new
      = map (fun e => (e_title e, e_content e, e_trace_en_with_think e)) es /\
      map (fun r => (translation_status r, trace_hi_with_think r)) new
      = map (fun e => (stored_status e, stored_translation e)) es.
Proof.
  unfold save_to_database, try_except.
  induction es as [|e es IH]; intros w t Hdb Hroom Henc.
  - exists [], w. cbn [for_each ret]. rewrite app_nil_r. auto 10.
  - inversion Henc as [| ? ? (Hti & Hco & Hen & Hhi) Henc']; subst.
    cbn [List.length] in Hroom.
    assert (Hnext : Sql.next_id t = Some (1 + Sql.largest_id t))
      by (apply next_id_room; lia).
    cbn [for_each]. unfold bind at 1.
    set (body := match e_trace_hi_with_think e with
                 | Some hi => _ | None => _ end).
    assert (Hbody : exists r w1,
              body w = (Ok tt, w1) /\ db w1 = Some (t ++ [r]) /\
              calls w1 = calls w /\ id r = 1 + Sql.largest_id t /\
              (title r, content r, trace_en_with_think r)
              = (e_title e, e_content e, e_trace_en_with_think e) /\
              (translation_status r, trace_hi_with_think r)
              = (stored_status e, stored_translation e)).
    { unfold body, stored_status, stored_translation.
      destruct (e_trace_hi_with_think e) as [hi |];
        [destruct (truthy hi) |].
      - unfold bind, now, execute_insert.
        change (db (ticked w)) with (db w).
        rewrite Hdb, bind_insert_completed, Hnext by assumption.
        eexists _, _. split; [reflexivity |].
        unfold Sql.insert_completed; cbn.
        repeat (split; [reflexivity |]); reflexivity.
      - unfold execute_insert.
        rewrite Hdb, bind_insert_pending, Hnext by assumption.
        eexists _, _. split; [reflexivity |].
        unfold Sql.insert_pending; cbn.
        repeat (split; [reflexivity |]); reflexivity.
      - unfold execute_insert.
        rewrite Hdb, bind_insert_pending, Hnext by assumption.
        eexists _, _. split; [reflexivity |].
        unfold Sql.insert_pending; cbn.
        repeat (split; [reflexivity |]); reflexivity. }
    destruct Hbody as (r & w1 & Hrun & Hdb1 & Hcalls1 & Hid & Hcols & Hst).
    rewrite Hrun.
    pose proof (largest_id_app t r Hid) as Hlargest.
    destruct (IH w1 (t ++ [r]) Hdb1 ltac:(lia) Henc')
      as (new & w' & Hrest & Hdb' & Hcalls' & Hids & Hcols' & Hst').
    exists (r :: new), w'.
    destruct (for_each es _ w1) as [[[] | e'] w2]; [| discriminate].
    injection Hrest as <-.
    split; [reflexivity |].
    split; [rewrite Hdb', <- app_assoc; reflexivity |].
    split; [congruence |].
    split; [| split; cbn [map]; congruence].
    cbn [List.length seq map]. rewrite Hids, Hid. f_equal; [lia |].
    rewrite <- seq_shift, map_map. apply map_ext; intros j.
    rewrite Hlargest. lia.
Qed.

(** X8. On a table that exists and has room for the entries (its largest
    id plus their number stays below 2^63), with titles, contents and
    traces that UTF-8 encodes, [save_to_database] returns normally and
    appends one row per entry, in order: the rows get the next ids
    (consecutive, above every id of the table), the entry's title, content
    and English trace, and status [completed] with the given translation
    when that is a non-empty string, [pending] and NULL otherwise.  The old
    rows are untouched and the service is not called. *)
Theorem save_to_database_appends
  (E : env) (es : list entry_with_trace) (w : world) (t : table) :
  db w = Some t ->
  Sql.largest_id t + Z.of_nat (List.length es) < 2 ^ 63 ->
  Forall encodable_entry es ->
  exists new w',
    save_to_database E es w = (Ok tt, w') /\
    db w' = Some (t ++ new) /\ calls w' = calls w /\
    map id new
    = map (fun j => 1 + Sql.largest_id t + Z.of_nat j)
        (seq 0 (List.length es)) /\
    (forall i, In i (map id t) -> i <= Sql.largest_id t) /\
    map (fun r => (title r, content r, trace_en_with_think r)) new
    = map (fun e => (e_title e, e_content e, e_trace_en_with_think e)) es /\
    map (fun r => (translation_status r, trace_hi_with_think r)) new
    = map (fun e => (stored_status e, stored_translation e)) es.
Proof.
  intros Hdb Hroom Henc.
  destruct (save_to_database_rows E es w t Hdb Hroom Henc)
    as (new & w' & Hrun & Hdb' & Hcalls & Hids & Hcols & Hst).
  exists new, w'. repeat (split; [assumption |]).
  split; [apply largest_id_bound |]. split; assumption.
Qed.

Lemma two_entries_encodable : Forall encodable_entry two_entries.
Proof. repeat constructor. Qed.

Lemma save_to_database_appends_witness :
  db (fresh (Some one_pending)) = Some one_pending /\
  Sql.largest_id one_pending + Z.of_nat (List.length two_entries) < 2 ^ 63 /\
  Forall encodable_entry two_entries /\
  exists new w',
    save_to_database (always_raises []) two_entries (fresh (Some one_pending))
    = (Ok tt, w') /\
    db w' = Some (one_pending ++ new) /\
    map id new = [2; 3] /\
    map (fun r => (translation_status r, trace_hi_with_think r)) new
    = [(pending, None); (completed, Some (lit "pehle sort"))].
Proof.
  assert (Hroom : Sql.largest_id one_pending
                  + Z.of_nat (List.length two_entries) < 2 ^ 63)
    by (vm_compute; reflexivity).
  split; [reflexivity |]. split; [exact Hroom |].
  split; [exact two_entries_encodable |].
  destruct (save_to_database_appends (always_raises []) two_entries
              (fresh (Some one_pending)) one_pending eq_refl Hroom
              two_entries_encodable)
    as (new & w' & Hrun & Hdb & _ & Hids & _ & _ & Hst).
  exists new, w'. repeat split; assumption.
Defined.

(** On a table that holds the largest rowid the INSERT fails, and
    [save_to_database] raises sqlite's error; so it does for a text with
    a lone surrogate, which is bound before a rowid is looked for. *)
Example save_to_database_refused :
  save_to_database (always_raises []) two_entries (fresh (Some full_table))
  = (Raised (Exception (lit "database or disk is full")),
     fresh (Some full_table)) /\
  save_to_database (always_raises [])
    [ {| e_title := lone_surrogate; e_content := lit "...";
         e_trace_en_with_think := lit "use a hash map";
         e_trace_hi_with_think := None |} ]
    (fresh (Some full_table))
  = (Raised (Exception
               (lit "'utf-8' codec can't encode character '\ud83d' in position 0: surrogates not allowed")),
     fresh (Some full_table)).
Proof. split; vm_compute; reflexivity. Qed.

(** *** Rows are never deleted and their first columns never change *)

Lemma table_extends_refl (t : table) : table_extends t t.
Proof. split; [exists []; rewrite app_nil_r; reflexivity | auto]. Qed.

Lemma table_extends_trans (t1 t2 t3 : table) :
  table_extends t1 t2 -> table_extends t2 t3 -> table_extends t1 t3.
Proof.
  intros [(n1 & H1) D1] [(n2 & H2) D2]. split; [| auto].
  exists (n1 ++ n2). rewrite H2, H1, app_assoc. reflexivity.
Qed.

Lemma map_id_immutable (t t' : table) :
  map immutable_part t' = map immutable_part t -> map id t' = map id t.
Proof.
  intros H.
  apply (f_equal (map (fun p => fst (fst (fst (fst p)))))) in H.
  rewrite !map_map in H. exact H.
Qed.

Lemma table_extends_same (t t' : table) :
  map immutable_part t' = map immutable_part t -> table_extends t t'.
Proof.
  intros H. split.
  - exists []. rewrite app_nil_r. exact H.
  - rewrite (map_id_immutable _ _ H). auto.
Qed.

Lemma table_extends_insert (t : table) (r : row) :
  Sql.next_id t = Some (id r) -> table_extends t (t ++ [r]).
Proof.
  intros Hid. split.
  - exists [immutable_part r]. rewrite map_app. reflexivity.
  - intros Hnd. rewrite map_app. cbn [map].
    apply NoDup_app; [exact Hnd | |].
    + constructor; [intros [] | constructor].
    + intros x Hx [<- | []].
      exact (next_id_fresh t _ Hid Hx).
Qed.

Lemma update_where_id_immutable (hi : str) (a : timestamp) (i : Z) (t : table) :
  map immutable_part (Sql.update_where_id hi a i t) = map immutable_part t.
Proof.
  unfold Sql.update_where_id. rewrite map_map. apply map_ext; intros r.
  destruct (id r =? i); reflexivity.
Qed.

Lemma update_where_title_trace_immutable
  (hi : str) (a : timestamp) (ti en : str) (t : table) :
  map immutable_part (Sql.update_where_title_trace hi a ti en t)
  = map immutable_part t.
Proof.
  unfold Sql.update_where_title_trace. rewrite map_map.
  apply map_ext; intros r.
  destruct (str_eqb (title r) ti && str_eqb (trace_en_with_think r) en);
    reflexivity.
Qed.

Lemma extends_refl (w : world) : extends w w.
Proof. apply table_extends_refl. Qed.

Lemma grows_ret {A} (a : A) : grows (ret a).
Proof. intros w; apply extends_refl. Qed.

Lemma grows_raise {A} (e : exn) : grows (raise (A := A) e).
Proof. intros w; apply extends_refl. Qed.

Lemma grows_bind {A B} (c : M A) (k : A -> M B) :
  grows c -> (forall a, grows (k a)) -> grows (bind c k).
Proof.
  intros Hc Hk w. unfold bind. specialize (Hc w).
  destruct (c w) as [[a | e] w']; simpl in *; [| exact Hc].
  eapply table_extends_trans; [exact Hc | apply Hk].
Qed.

Lemma grows_try_except {A} (c : M A) (h : exn -> M A) :
  grows c -> (forall e, grows (h e)) -> grows (try_except c h).
Proof.
  intros Hc Hh w. unfold try_except. specialize (Hc w).
  destruct (c w) as [[a | e] w']; simpl in *; [exact Hc |].
  eapply table_extends_trans; [exact Hc | apply Hh].
Qed.

Lemma grows_for_each {A} (l : list A) (body : A -> M unit) :
  (forall x, grows (body x)) -> grows (for_each l body).
Proof.
  intros Hbody; induction l as [|x l IH]; simpl.
  - apply grows_ret.
  - apply grows_bind; [apply Hbody | intros _; exact IH].
Qed.

Lemma grows_now (E : env) : grows (now E).
Proof. intros w; exact (table_extends_refl (records w)). Qed.

Lemma grows_generate (E : env) (model prompt : str) :
  grows (generate E model prompt).
Proof.
  intros w. unfold generate.
  destruct (ollama_generate E (calls w) model prompt);
    exact (table_extends_refl (records w)).
Qed.

Lemma grows_execute {A} (params : list sql_param)
  (stmt : table -> A * table) :
  (forall t, table_extends t (snd (stmt t))) ->
  grows (execute params stmt).
Proof.
  intros Hstmt w. unfold execute, extends, records.
  destruct (db w) as [t |] eqn:Hdb;
    [| simpl; rewrite Hdb; apply table_extends_refl].
  destruct (bind_parameters params);
    [simpl; rewrite Hdb; apply table_extends_refl |].
  specialize (Hstmt t). destruct (stmt t) as [a t']. exact Hstmt.
Qed.

Lemma grows_execute_insert (E : env) (params : list sql_param)
  (stmt : Z -> timestamp -> table -> table) :
  (forall i c t, exists r, stmt i c t = t ++ [r] /\ id r = i) ->
  grows (execute_insert E params stmt).
Proof.
  intros Hstmt w. unfold execute_insert, extends, records.
  destruct (db w) as [t |] eqn:Hdb;
    [| simpl; rewrite Hdb; apply table_extends_refl].
  destruct (bind_parameters params);
    [simpl; rewrite Hdb; apply table_extends_refl |].
  destruct (Sql.next_id t) as [i |] eqn:Hnext;
    [| simpl; rewrite Hdb; apply table_extends_refl].
  destruct (Hstmt i (datetime_now E (clock w)) t) as (r & Hr & Hid).
  simpl. rewrite Hr. apply table_extends_insert. rewrite Hid. exact Hnext.
Qed.

Lemma grows_save_to_database (E : env) (es : list entry_with_trace) :
  grows (save_to_database E es).
Proof.
  unfold save_to_database.
  apply grows_try_except; [| intros e; apply grows_raise].
  apply grows_for_each; intros entry; cbv zeta.
  destruct (e_trace_hi_with_think entry) as [hi |];
    [destruct (truthy hi) |];
    try (apply grows_execute_insert; intros i c t;
         eexists; split; reflexivity).
  apply grows_bind; [apply grows_now |].
  intros a. apply grows_execute_insert; intros i c t.
  eexists; split; reflexivity.
Qed.

Lemma grows_update_translation_in_database (E : env) (i : Z) (hi : str) :
  grows (update_translation_in_database E i hi).
Proof.
  unfold update_translation_in_database.
  apply grows_try_except; [| intros e; apply grows_raise].
  apply grows_bind; [apply grows_now |].
  intros a. apply grows_execute; intros t; simpl.
  apply table_extends_same, update_where_id_immutable.
Qed.

Lemma grows_inline_update (E : env) (hi ti en : str) :
  grows (inline_update E hi ti en).
Proof.
  unfold inline_update.
  apply grows_bind; [apply grows_now |].
  intros a. apply grows_execute; intros t; simpl.
  apply table_extends_same, update_where_title_trace_immutable.
Qed.

Lemma grows_translate_text_to_hindi (E : env) (cfg : config) (text : str) :
  grows (translate_text_to_hindi E cfg text).
Proof.
  intros w.
  destruct (retry_loop_ends E cfg text (range (MAX_RETRIES cfg)) w)
    as (r & w' & Hrun & Hdb & _).
  unfold translate_text_to_hindi, translate_text_to_hindi_outcome, bind.
  rewrite Hrun. destruct r; cbn [ret snd]; unfold extends, records;
    rewrite Hdb; apply table_extends_refl.
Qed.

Lemma grows_get_reasoning_trace_with_think (E : env) (c m : str) :
  grows (get_reasoning_trace_with_think E c m).
Proof.
  unfold get_reasoning_trace_with_think.
  apply grows_try_except; [| intros e; apply grows_ret].
  apply grows_bind; [apply grows_generate |].
  intros [r |]; [apply grows_ret | apply grows_raise].
Qed.

Lemma grows_get_untranslated_traces : grows get_untranslated_traces.
Proof.
  unfold get_untranslated_traces.
  apply grows_try_except; [| intros e; apply grows_ret].
  apply grows_bind; [| intros rows; apply grows_ret].
  apply grows_execute; intros t; apply table_extends_refl.
Qed.

Lemma grows_check_database_status : grows check_database_status.
Proof.
  unfold check_database_status.
  apply grows_try_except; [| intros e; apply grows_ret].
  repeat (apply grows_bind;
          [apply grows_execute; intros t; apply table_extends_refl
          | intros ?]).
  apply grows_ret.
Qed.

Lemma grows_setup_database : grows setup_database.
Proof.
  intros w. unfold setup_database, extends, records.
  destruct (db w) as [t |] eqn:Hdb; simpl.
  - rewrite Hdb. apply table_extends_refl.
  - apply table_extends_refl.
Qed.

Lemma grows_process_translations (E : env) (cfg : config) :
  grows (process_translations E cfg).
Proof.
  unfold process_translations.
  apply grows_bind; [apply grows_get_untranslated_traces |].
  intros [| tr rest]; [apply grows_ret |].
  apply grows_for_each; intros x.
  apply grows_bind; [apply grows_translate_text_to_hindi |].
  intros hi. apply grows_update_translation_in_database.
Qed.

Lemma grows_main_entry (E : env) (cfg : config) (e : entry) :
  grows (main_entry E cfg e).
Proof.
  unfold main_entry.
  apply grows_bind; [apply grows_get_reasoning_trace_with_think |].
  intros en. apply grows_bind; [apply grows_save_to_database |].
  intros _. apply grows_bind; [apply grows_translate_text_to_hindi |].
  intros hi. apply grows_inline_update.
Qed.

Lemma grows_main (E : env) (cfg : config) (entries : list entry) :
  grows (main E cfg entries).
Proof.
  unfold main.
  apply grows_bind; [apply grows_setup_database |].
  intros _. destruct entries as [| e rest]; [apply grows_ret |].
  apply grows_bind; [| intros _; apply grows_process_translations].
  apply grows_for_each; intros x; apply grows_main_entry.
Qed.

Lemma grows_translate_one (E : env) (cfg : config) (tr : trace) :
  grows (translate_one E cfg tr).
Proof.
  unfold translate_one.
  apply grows_try_except; [| intros e; apply grows_ret].
  apply grows_bind; [apply grows_translate_text_to_hindi |].
  intros hi.
  destruct (startswith_any hi error_prefixes); [apply grows_ret |].
  apply grows_bind; [| intros _; apply grows_ret].
  apply grows_update_translation_in_database.
Qed.

Lemma grows_translate_loop (E : env) (cfg : config) (traces : list trace) :
  forall s f, grows (translate_loop E cfg traces s f).
Proof.
  induction traces as [| tr rest IH]; intros s f; simpl.
  - apply grows_ret.
  - apply grows_bind; [apply grows_translate_one |].
    intros [|]; apply IH.
Qed.

Lemma grows_translate_all_pending_traces (E : env) (cfg : config) :
  grows (translate_all_pending_traces E cfg).
Proof.
  unfold translate_all_pending_traces.
  apply grows_bind; [apply grows_check_database_status |].
  intros [st |]; [| apply grows_ret].
  destruct (pending_translations st =? 0)%nat; [apply grows_ret |].
  apply grows_bind; [apply grows_get_untranslated_traces |].
  intros [| tr rest]; [apply grows_ret |].
  apply grows_bind; [apply grows_translate_loop |].
  intros counts; apply grows_ret.
Qed.

(** X9. No store operation deletes a row, reorders rows or changes the id,
    title, content, English trace or creation time of a row: after any
    sequence of operations the table holds the old rows with these columns
    as they were, followed by the new ones; and if the ids were distinct
    they still are. *)
Theorem store_operations_only_append
  (E : env) (ops : list store_op) (w : world) :
  (exists new,
     map immutable_part (records (run_ops E ops w))
     = map immutable_part (records w) ++ new) /\
  (NoDup (map id (records w)) ->
   NoDup (map id (records (run_ops E ops w)))).
Proof.
  change (extends w (run_ops E ops w)).
  revert w; induction ops as [|op ops IH]; intros w; simpl.
  - apply extends_refl.
  - eapply table_extends_trans; [| apply IH].
    destruct op as [es | i hi | hi ti en]; simpl.
    + apply grows_save_to_database.
    + apply grows_update_translation_in_database.
    + apply grows_inline_update.
Qed.

Lemma store_operations_only_append_witness :
  NoDup (map id (records (fresh (Some one_pending)))) /\
  NoDup (map id (records (run_ops (always_raises []) sample_ops
                            (fresh (Some one_pending))))) /\
  map id (records (run_ops (always_raises []) sample_ops
                     (fresh (Some one_pending)))) = [1; 2; 3].
Proof.
  assert (H : NoDup (map id (records (fresh (Some one_pending))))).
  { repeat constructor. intros []. }
  split; [exact H |]. split; [| reflexivity].
  exact (proj2 (store_operations_only_append (always_raises []) sample_ops
                  (fresh (Some one_pending))) H).
Defined.

Section Relating.

Variable R : table -> table -> Prop.
Hypothesis R_refl : forall t, R t t.
Hypothesis R_trans : forall t1 t2 t3, R t1 t2 -> R t2 t3 -> R t1 t3.

Lemma relates_ret {A} (a : A) : relates R (ret a).
Proof. intros w; apply R_refl. Qed.

Lemma relates_bind {A B} (c : M A) (k : A -> M B) :
  relates R c -> (forall a, relates R (k a)) -> relates R (bind c k).
Proof.
  intros Hc Hk w. unfold bind. specialize (Hc w).
  destruct (c w) as [[a | e] w']; simpl in *; [| exact Hc].
  eapply R_trans; [exact Hc | apply Hk].
Qed.

Lemma relates_try_except {A} (c : M A) (h : exn -> M A) :
  relates R c -> (forall e, relates R (h e)) -> relates R (try_except c h).
Proof.
  intros Hc Hh w. unfold try_except. specialize (Hc w).
  destruct (c w) as [[a | e] w']; simpl in *; [exact Hc |].
  eapply R_trans; [exact Hc | apply Hh].
Qed.

Lemma relates_query {A} (q : table -> A) :
  relates R (execute [] (fun t => (q t, t))).
Proof.
  intros w. unfold execute, records; cbn [bind_parameters].
  destruct (db w) as [t |] eqn:Hdb; simpl; [| rewrite Hdb]; apply R_refl.
Qed.

Lemma relates_update (E : env) (i : Z) (hi : str) :
  (forall a t, R t (Sql.update_where_id hi a i t)) ->
  relates R (update_translation_in_database E i hi).
Proof.
  intros Hupd w.
  destruct (update_translation_in_database_records E w i hi) as [-> _].
  destruct (bind_parameters _); [apply R_refl | apply Hupd].
Qed.

Lemma relates_engine (E : env) (cfg : config) (text : str) :
  relates R (translate_text_to_hindi E cfg text).
Proof.
  intros w.
  destruct (retry_loop_ends E cfg text (range (MAX_RETRIES cfg)) w)
    as (r & w' & Hrun & Hdb & _).
  unfold translate_text_to_hindi, translate_text_to_hindi_outcome, bind.
  rewrite Hrun. destruct r; cbn [ret snd]; unfold records; rewrite Hdb;
    apply R_refl.
Qed.

Lemma relates_get_untranslated_traces : relates R get_untranslated_traces.
Proof.
  unfold get_untranslated_traces.
  apply relates_try_except; [| intros e; apply relates_ret].
  apply relates_bind; [apply relates_query | intros rows; apply relates_ret].
Qed.

Lemma relates_check_database_status : relates R check_database_status.
Proof.
  unfold check_database_status.
  apply relates_try_except; [| intros e; apply relates_ret].
  repeat (apply relates_bind; [apply relates_query | intros ?]).
  apply relates_ret.
Qed.

Lemma relates_translate_one (E : env) (cfg : config) (tr : trace) :
  (forall hi a i t, R t (Sql.update_where_id hi a i t)) ->
  relates R (translate_one E cfg tr).
Proof.
  intros Hupd. unfold translate_one.
  apply relates_try_except; [| intros e; apply relates_ret].
  apply relates_bind; [apply relates_engine |].
  intros hi.
  destruct (startswith_any hi error_prefixes); [apply relates_ret |].
  apply relates_bind; [| intros _; apply relates_ret].
  apply relates_update. intros a t; apply Hupd.
Qed.

Lemma relates_translate_loop (E : env) (cfg : config) (traces : list trace) :
  (forall hi a i t, R t (Sql.update_where_id hi a i t)) ->
  forall s f, relates R (translate_loop E cfg traces s f).
Proof.
  intros Hupd.
  induction traces as [| tr rest IH]; intros s f; simpl.
  - apply relates_ret.
  - apply relates_bind; [apply relates_translate_one, Hupd |].
    intros [|]; apply IH.
Qed.

Lemma relates_translate_all_pending_traces (E : env) (cfg : config) :
  (forall hi a i t, R t (Sql.update_where_id hi a i t)) ->
  relates R (translate_all_pending_traces E cfg).
Proof.
  intros Hupd. unfold translate_all_pending_traces.
  apply relates_bind; [apply relates_check_database_status |].
  intros [st |]; [| apply relates_ret].
  destruct (pending_translations st =? 0)%nat; [apply relates_ret |].
  apply relates_bind; [apply relates_get_untranslated_traces |].
  intros [| tr rest]; [apply relates_ret |].
  apply relates_bind; [apply relates_translate_loop, Hupd |].
  intros counts; apply relates_ret.
Qed.

End Relating.

(** X10. Whole runs only append too.  [main] never deletes a row or changes
    one of the immutable columns, and keeps ids distinct;
    [translate_all_pending_traces] moreover inserts nothing: after it the
    table has the same rows with the same ids, titles, contents, English
    traces and creation times. *)
Theorem runs_only_append
  (E : env) (cfg : config) (entries : list entry) (w : world) :
  ((exists new,
      map immutable_part (records (snd (main E cfg entries w)))
      = map immutable_part (records w) ++ new) /\
   (NoDup (map id (records w)) ->
    NoDup (map id (records (snd (main E cfg entries w)))))) /\
  map immutable_part (records (snd (translate_all_pending_traces E cfg w)))
  = map immutable_part (records w).
Proof.
  split; [exact (grows_main E cfg entries w) |].
  apply (relates_translate_all_pending_traces same_rows).
  - intros t; reflexivity.
  - unfold same_rows; intros t1 t2 t3 H12 H23; congruence.
  - intros hi a i t; apply update_where_id_immutable.
Qed.

Lemma runs_only_append_witness :
  NoDup (map id (records (fresh (Some one_pending)))) /\
  NoDup (map id (records (snd (main (always_answers (lit "x")) default_config
                                 [ {| entry_title := lit "Three Sum";
                                      entry_content := lit "..." |} ]
                                 (fresh (Some one_pending)))))).
Proof.
  assert (H : NoDup (map id (records (fresh (Some one_pending))))).
  { repeat constructor. intros []. }
  split; [exact H |].
  exact (proj2 (proj1 (runs_only_append (always_answers (lit "x"))
                         default_config
                         [ {| entry_title := lit "Three Sum";
                              entry_content := lit "..." |} ]
                         (fresh (Some one_pending)))) H).
Defined.

(** *** Fetching and updating *)

Lemma get_untranslated_traces_eq (w : world) :
  get_untranslated_traces w
  = (Ok (map trace_of_row
           (Sql.order_by_id (filter Sql.is_untranslated (records w)))), w).
Proof.
  unfold get_untranslated_traces, try_except, bind, execute, records; cbn [bind_parameters].
  destruct (db w) as [t |] eqn:Hdb; [| reflexivity].
  rewrite set_db_same by assumption.
  unfold ret, Sql.select_untranslated. rewrite map_map. reflexivity.
Qed.

Lemma in_fetched (p : row -> bool) (t : table) (tr : trace) :
  In tr (map trace_of_row (Sql.order_by_id (filter p t))) <->
  exists r, In r t /\ p r = true /\ tr = trace_of_row r.
Proof.
  rewrite in_map_iff. split.
  - intros (r & <- & Hin).
    apply (Permutation_in _ (Permutation_sym (order_by_id_perm _))) in Hin.
    apply filter_In in Hin. exists r; tauto.
  - intros (r & Hin & Hp & ->). exists r. split; [reflexivity |].
    apply (Permutation_in _ (order_by_id_perm _)).
    apply filter_In; auto.
Qed.

Lemma set_translation_translated (hi : str) (a : timestamp) (r : row) :
  Sql.is_untranslated (Sql.set_translation hi a r) = false.
Proof. reflexivity. Qed.

Lemma bind_update_refused (hi : str) (a : timestamp) (i : Z) :
  ~ (- 2 ^ 63 <= i < 2 ^ 63) \/ utf8_encodable hi = false ->
  exists e, bind_parameters [PText hi; PTimestamp a; PInteger i] = Some e.
Proof.
  intros H. cbn [bind_parameters].
  destruct (bind_parameter (PText hi)) as [e |] eqn:Htext; [eauto |].
  cbn [bind_parameter] in *.
  destruct H as [Hi | Hhi].
  - destruct ((Sql.min_integer <=? i) && (i <=? Sql.max_integer)) eqn:Hb;
      [| eauto].
    apply integer_bounds in Hb. contradiction.
  - destruct (encode_error_from_surrogate hi 0 Hhi) as (m & Hm).
    rewrite Hm in Htext. discriminate.
Qed.

(** X11. After [update_translation_in_database] for an id that is an INTEGER
    of SQLite, with a text that UTF-8 encodes, [get_untranslated_traces]
    returns what it returned before, without the records of that id: an
    applied record is not fetched again, and no other record drops out.
    With an id or a text that cannot be bound the UPDATE raises, and
    [get_untranslated_traces] returns what it returned before. *)
Theorem applied_record_is_not_fetched_again
  (E : env) (w : world) (trace_id0 : Z) (hindi_trace : str) :
  exists before after,
    fst (get_untranslated_traces w) = Ok before /\
    fst (get_untranslated_traces
           (snd (update_translation_in_database E trace_id0 hindi_trace w)))
    = Ok after /\
    (- 2 ^ 63 <= trace_id0 < 2 ^ 63 ->
     utf8_encodable hindi_trace = true ->
     forall tr, In tr after <-> In tr before /\ trace_id tr <> trace_id0) /\
    (~ (- 2 ^ 63 <= trace_id0 < 2 ^ 63) \/ utf8_encodable hindi_trace = false ->
     after = before).
Proof.
  rewrite !get_untranslated_traces_eq. eexists _, _.
  split; [reflexivity |]. split; [reflexivity |].
  rewrite (proj1 (update_translation_in_database_records E w _ _)).
  split.
  - intros Hid Htext tr. rewrite bind_update by assumption.
    rewrite !in_fetched. unfold Sql.update_where_id. split.
    + intros (r' & Hin & Hp & ->). apply in_map_iff in Hin.
      destruct Hin as (r & <- & Hin).
      destruct (Z.eqb_spec (id r) trace_id0) as [Heq | Hne].
      * rewrite set_translation_translated in Hp. discriminate.
      * split; [exists r; auto | exact Hne].
    + intros [(r & Hin & Hp & ->) Hne]. exists r. split; [| auto].
      apply in_map_iff. exists r. split; [| exact Hin].
      simpl in Hne. rewrite (proj2 (Z.eqb_neq _ _) Hne). reflexivity.
  - intros Hbad.
    destruct (bind_update_refused hindi_trace (datetime_now E (clock w))
                trace_id0 Hbad) as (e & ->).
    reflexivity.
Qed.

Lemma applied_record_is_not_fetched_again_witness :
  - 2 ^ 63 <= 2 < 2 ^ 63 /\
  utf8_encodable (lit "pehle sort") = true /\
  utf8_encodable lone_surrogate = false /\
  exists before after after',
    fst (get_untranslated_traces (fresh (Some five_records))) = Ok before /\
    fst (get_untranslated_traces
           (snd (update_translation_in_database (always_raises []) 2
                   (lit "pehle sort") (fresh (Some five_records)))))
    = Ok after /\
    fst (get_untranslated_traces
           (snd (update_translation_in_database (always_raises []) 2
                   lone_surrogate (fresh (Some five_records)))))
    = Ok after' /\
    map trace_id before = [2; 5] /\
    (forall tr, In tr after <-> In tr before /\ trace_id tr <> 2) /\
    after' = before.
Proof.
  assert (Hid : - 2 ^ 63 <= 2 < 2 ^ 63) by lia.
  split; [exact Hid |]. split; [reflexivity |]. split; [reflexivity |].
  destruct (applied_record_is_not_fetched_again (always_raises [])
              (fresh (Some five_records)) 2 (lit "pehle sort"))
    as (before & after & Hbefore & Hafter & Hdrop & _).
  destruct (applied_record_is_not_fetched_again (always_raises [])
              (fresh (Some five_records)) 2 lone_surrogate)
    as (before' & after' & Hbefore' & Hafter' & _ & Hsame).
  rewrite Hbefore in Hbefore'. injection Hbefore' as <-.
  exists before, after, after'.
  split; [exact Hbefore |]. split; [exact Hafter |]. split; [exact Hafter' |].
  split; [injection Hbefore as <-; reflexivity |].
  split; [exact (Hdrop Hid eq_refl) | exact (Hsame (or_intror eq_refl))].
Defined.

(** *** Texts that UTF-8 encodes *)

Lemma utf8_encodable_app (a b : str) :
  utf8_encodable (a ++ b) = utf8_encodable a && utf8_encodable b.
Proof. apply forallb_app. Qed.

(** A literal of the source is ASCII. *)
Lemma utf8_encodable_lit (s : string) : utf8_encodable (lit s) = true.
Proof.
  unfold lit.
  induction s as [| a s IH]; cbn [list_ascii_of_string map utf8_encodable
    forallb]; [reflexivity |].
  fold (utf8_encodable (map N_of_ascii (list_ascii_of_string s))).
  rewrite IH, andb_true_r.
  unfold is_surrogate. pose proof (N_ascii_bounded a) as Hb.
  replace (55296 <=? N_of_ascii a)%N with false
    by (symmetry; apply N.leb_gt; lia).
  reflexivity.
Qed.

Lemma utf8_encodable_strip (s : str) :
  utf8_encodable s = true -> utf8_encodable (strip s) = true.
Proof.
  intros H. unfold strip.
  destruct (lstrip_suffix s) as (pre & Hpre).
  destruct (rstrip_prefix (lstrip s)) as (post & Hpost).
  rewrite Hpre, utf8_encodable_app in H.
  apply andb_true_iff in H. destruct H as [_ H].
  rewrite Hpost, utf8_encodable_app in H.
  apply andb_true_iff in H. tauto.
Qed.

Lemma trace_of_reply_encodable (E : env) (k : nat) (model prompt : str) :
  encodable_replies E ->
  utf8_encodable (trace_of_reply (ollama_generate E k model prompt)) = true.
Proof.
  intros H. specialize (H k model prompt).
  destruct (ollama_generate E k model prompt) as [e | [r |]];
    cbn [trace_of_reply].
  - rewrite utf8_encodable_app, utf8_encodable_lit, H. reflexivity.
  - apply utf8_encodable_strip, H.
  - apply utf8_encodable_lit.
Qed.

Lemma error_after_attempts_encodable (cfg : config) (detail : str) :
  utf8_encodable detail = true ->
  utf8_encodable (error_after_attempts cfg detail) = true.
Proof.
  intros H. unfold error_after_attempts, format_int.
  rewrite !utf8_encodable_app, !utf8_encodable_lit, H. reflexivity.
Qed.

(** When UTF-8 encodes what the service sends, it encodes what the engine
    returns. *)
Lemma retry_loop_encodable
  (E : env) (cfg : config) (text : str) (attempts : list Z) :
  encodable_replies E ->
  forall (w : world) (o : outcome) (w' : world),
    retry_loop E cfg text attempts w = (Ok o, w') ->
    utf8_encodable (returned o) = true.
Proof.
  intros Henc.
  induction attempts as [|a rest IH]; intros w o w'; cbn [retry_loop].
  - intros H; injection H as <- _. apply utf8_encodable_lit.
  - unfold bind at 1. rewrite attempt_body_eq; cbv zeta.
    pose proof (Henc (calls w) (TRANSLATION_MODEL_NAME cfg)
                  (translation_prompt text)) as Hreply.
    fold (reply_at E cfg text (calls w)) in Hreply.
    destruct (accepted text (reply_at E cfg text (calls w))) as [s |] eqn:Hacc.
    + intros H; injection H as <- _. cbn [returned].
      unfold accepted in Hacc.
      destruct (reply_at E cfg text (calls w)) as [e | [r |]];
        try discriminate.
      destruct (valid_translation text (strip r)); try discriminate.
      injection Hacc as <-. apply utf8_encodable_strip, Hreply.
    + destruct (a <? MAX_RETRIES cfg - 1).
      * unfold bind.
        destruct (sleep_cases E (RETRY_DELAY cfg) (called w))
          as [H | (e & H)]; rewrite H; [apply IH | discriminate].
      * intros H; injection H as <- _. cbn [returned].
        apply error_after_attempts_encodable.
        destruct (reply_at E cfg text (calls w)) as [e | r];
          cbn [failure_detail]; [exact Hreply | apply utf8_encodable_lit].
Qed.

(** *** [process_translations] and [main] *)

Lemma update_where_id_state (hi : str) (a : timestamp) (i : Z) (t : table) :
  map (fun r => (id r, Sql.is_untranslated r)) (Sql.update_where_id hi a i t)
  = map (fun r => (id r, Sql.is_untranslated r && negb (id r =? i))) t.
Proof.
  unfold Sql.update_where_id. rewrite map_map. apply map_ext; intros r.
  destruct (id r =? i) eqn:Hi; simpl.
  - rewrite andb_false_r. reflexivity.
  - rewrite andb_true_r. reflexivity.
Qed.

(** One round of the loop of [process_translations], for a trace id that
    is an INTEGER of SQLite: the engine returns, and its result is
    written. *)
Lemma process_round (E : env) (cfg : config) (tr : trace) (w : world)
  (t : table) :
  0 <= RETRY_DELAY cfg -> time_sleep E (RETRY_DELAY cfg) = None ->
  encodable_replies E ->
  - 2 ^ 63 <= trace_id tr < 2 ^ 63 ->
  db w = Some t ->
  exists hi w1,
    translate_reasoning_trace E cfg (trace_en tr) (trace_title tr) w
    = (Ok hi, w1) /\
    db w1 = Some t /\ (calls w <= calls w1)%nat /\ clock w1 = clock w /\
    bind (translate_reasoning_trace E cfg (trace_en tr) (trace_title tr))
      (fun hindi_trace =>
         update_translation_in_database E (trace_id tr) hindi_trace) w
    = (Ok tt,
       set_db (Some (Sql.update_where_id hi (datetime_now E (clock w1))
                       (trace_id tr) t))
         (ticked w1)).
Proof.
  intros Hdelay Htimer Henc Hid Hdb.
  destruct (retry_loop_returns E cfg Hdelay Htimer
              (contextual_prompt (trace_en tr))
              (range (MAX_RETRIES cfg)) w)
    as (o & w1 & Hrun & Hdb1 & Hclock & Hcalls & _).
  pose proof (retry_loop_encodable E cfg _ _ Henc _ _ _ Hrun) as Hhi.
  assert (Hdb1' : db (ticked w1) = Some t) by (rewrite <- Hdb; exact Hdb1).
  assert (Hengine :
    translate_reasoning_trace E cfg (trace_en tr) (trace_title tr) w
    = (Ok (returned o), w1)).
  { unfold translate_reasoning_trace, translate_text_to_hindi, bind,
      translate_text_to_hindi_outcome. rewrite Hrun. reflexivity. }
  exists (returned o), w1.
  split; [exact Hengine |]. split; [congruence |]. split; [lia |].
  split; [exact Hclock |].
  unfold bind at 1. rewrite Hengine.
  unfold update_translation_in_database, try_except, bind, now, execute.
  rewrite Hdb1', bind_update by assumption. reflexivity.
Qed.

Lemma process_loop (E : env) (cfg : config) (traces : list trace) :
  0 <= RETRY_DELAY cfg -> time_sleep E (RETRY_DELAY cfg) = None ->
  encodable_replies E ->
  Forall (fun tr => - 2 ^ 63 <= trace_id tr < 2 ^ 63) traces ->
  forall (w : world) (t : table),
    db w = Some t ->
    exists w' t',
      for_each traces (fun trace =>
        bind (translate_reasoning_trace E cfg (trace_en trace)
                (trace_title trace))
          (fun hindi_trace =>
             update_translation_in_database E (trace_id trace) hindi_trace)) w
      = (Ok tt, w') /\
      db w' = Some t' /\
      map (fun r => (id r, Sql.is_untranslated r)) t'
      = map (fun r => (id r,
                       Sql.is_untranslated r
                       && negb (existsb (Z.eqb (id r)) (map trace_id traces))))
          t.
Proof.
  intros Hdelay Htimer Henc.
  induction traces as [| tr rest IH]; intros Hids w t Hdb.
  - exists w, t. split; [reflexivity |]. split; [exact Hdb |].
    apply map_ext; intros r. cbn. rewrite andb_true_r. reflexivity.
  - inversion Hids as [| ? ? Hid Hids']; subst.
    cbn [for_each]. unfold bind at 1.
    destruct (process_round E cfg tr w t Hdelay Htimer Henc Hid Hdb)
      as (hi & w1 & _ & _ & _ & _ & Hrun).
    rewrite Hrun.
    destruct (IH Hids'
                (set_db (Some (Sql.update_where_id hi (datetime_now E (clock w1))
                                 (trace_id tr) t)) (ticked w1))
                _ eq_refl) as (w' & t' & Hrest & Hdb' & Hstate).
    exists w', t'. split; [exact Hrest |]. split; [exact Hdb' |].
    rewrite Hstate.
    change (fun r : row =>
              (id r, Sql.is_untranslated r
                     && negb (existsb (Z.eqb (id r)) (map trace_id rest))))
      with (fun r : row =>
              (fun p : Z * bool =>
                 (fst p, snd p
                         && negb (existsb (Z.eqb (fst p)) (map trace_id rest))))
                (id r, Sql.is_untranslated r)).
    rewrite <- (map_map (fun r => (id r, Sql.is_untranslated r))).
    rewrite update_where_id_state, map_map.
    apply map_ext; intros r. cbn [fst snd map existsb].
    f_equal. rewrite <- andb_assoc. f_equal.
    rewrite negb_orb. rewrite (Z.eqb_sym (id r)). reflexivity.
Qed.

Lemma nothing_untranslated (t t' : table) (ids : list Z) :
  (forall r, In r t -> Sql.is_untranslated r = true -> In (id r) ids) ->
  map (fun r => (id r, Sql.is_untranslated r)) t'
  = map (fun r => (id r,
                   Sql.is_untranslated r && negb (existsb (Z.eqb (id r)) ids)))
      t ->
  filter Sql.is_untranslated t' = [] /\ List.length t' = List.length t /\
  map id t' = map id t.
Proof.
  intros Hids Hstate. split; [| split].
  - assert (Hmap : map Sql.is_untranslated t'
                   = map (fun r => Sql.is_untranslated r
                                   && negb (existsb (Z.eqb (id r)) ids)) t).
    { apply (f_equal (map snd)) in Hstate. rewrite !map_map in Hstate.
      exact Hstate. }
    assert (Hall : Forall (fun b => b = false) (map Sql.is_untranslated t')).
    { rewrite Hmap. apply Forall_map, Forall_forall. intros r Hr.
      destruct (Sql.is_untranslated r) eqn:Hu; [| reflexivity].
      cbn. apply negb_false_iff, existsb_exists.
      exists (id r). split; [apply Hids; assumption | apply Z.eqb_refl]. }
    clear Hstate Hmap. induction t' as [| r t' IH]; [reflexivity |].
    inversion Hall as [| ? ? Hr Hrest]; subst.
    cbn [filter]. rewrite Hr. apply IH, Hrest.
  - apply (f_equal (@List.length _)) in Hstate.
    rewrite !length_map in Hstate. exact Hstate.
  - apply (f_equal (map fst)) in Hstate. rewrite !map_map in Hstate.
    exact Hstate.
Qed.

(** On a table whose ids are INTEGERs of SQLite, with a delay
    [time.sleep] takes and a service whose texts UTF-8 encodes,
    [process_translations] returns and leaves nothing untranslated. *)
Lemma process_translations_completes
  (E : env) (cfg : config) (w : world) (t : table) :
  0 <= RETRY_DELAY cfg -> time_sleep E (RETRY_DELAY cfg) = None ->
  encodable_replies E ->
  Forall (fun r => - 2 ^ 63 <= id r < 2 ^ 63) t ->
  db w = Some t ->
  exists w' t',
    process_translations E cfg w = (Ok tt, w') /\
    db w' = Some t' /\
    filter Sql.is_untranslated t' = [] /\
    List.length t' = List.length t /\
    map id t' = map id t.
Proof.
  intros Hdelay Htimer Henc Hrange Hdb. unfold process_translations, bind at 1.
  rewrite get_untranslated_traces_eq.
  assert (Hrec : records w = t) by (unfold records; rewrite Hdb; reflexivity).
  rewrite Hrec.
  set (traces := map trace_of_row
                   (Sql.order_by_id (filter Sql.is_untranslated t))).
  assert (Hids_range :
    Forall (fun tr => - 2 ^ 63 <= trace_id tr < 2 ^ 63) traces).
  { apply Forall_forall. intros tr Htr. apply in_fetched in Htr.
    destruct Htr as (r & Hin & _ & ->). cbn [trace_of_row trace_id].
    rewrite Forall_forall in Hrange. apply Hrange, Hin. }
  destruct (process_loop E cfg traces Hdelay Htimer Henc Hids_range w t Hdb)
    as (w' & t' & Hrun & Hdb' & Hstate).
  assert (Hids : forall r, In r t -> Sql.is_untranslated r = true ->
                           In (id r) (map trace_id traces)).
  { intros r Hin Hu. apply in_map_iff. exists (trace_of_row r).
    split; [reflexivity |]. apply in_fetched. exists r; auto. }
  destruct (nothing_untranslated t t' _ Hids Hstate) as (Hnone & Hlen & Hsame).
  destruct traces as [| tr rest] eqn:Htraces.
  - exists w, t. split; [reflexivity |]. split; [exact Hdb |].
    cbn in Hrun. injection Hrun as <-. rewrite Hdb in Hdb'.
    injection Hdb' as <-. auto.
  - exists w', t'. auto.
Qed.

Lemma get_reasoning_trace_with_think_eq (E : env) (content model : str)
  (w : world) :
  get_reasoning_trace_with_think E content model w
  = (Ok (trace_of_reply
           (ollama_generate E (calls w) model (think_prompt content))),
     called w).
Proof.
  unfold get_reasoning_trace_with_think, try_except, bind, generate,
    trace_of_reply.
  destruct (ollama_generate E (calls w) model (think_prompt content))
    as [e | [r |]]; reflexivity.
Qed.

Lemma update_where_title_trace_app (hi : str) (a : timestamp) (ti en : str)
  (t : table) (r : row) :
  title r = ti -> trace_en_with_think r = en ->
  Sql.update_where_title_trace hi a ti en (t ++ [r])
  = Sql.update_where_title_trace hi a ti en t ++ [Sql.set_translation hi a r].
Proof.
  intros <- <-. unfold Sql.update_where_title_trace.
  rewrite map_app; cbn [map]. rewrite !str_eqb_refl. reflexivity.
Qed.

(** One round of the loop of [main] on a table that exists and has room,
    for an entry and a service whose texts UTF-8 encodes and a delay
    [time.sleep] takes. *)
Lemma main_entry_round
  (E : env) (cfg : config) (e : entry) (w : world) (t : table) :
  0 <= RETRY_DELAY cfg -> time_sleep E (RETRY_DELAY cfg) = None ->
  encodable_replies E ->
  utf8_encodable (entry_title e) = true ->
  utf8_encodable (entry_content e) = true ->
  db w = Some t ->
  Sql.largest_id t < 2 ^ 63 - 1 ->
  exists w' t' r hi,
    main_entry E cfg e w = (Ok tt, w') /\
    db w' = Some (t' ++ [r]) /\
    map immutable_part t' = map immutable_part t /\
    id r = 1 + Sql.largest_id t /\
    title r = entry_title e /\ content r = entry_content e /\
    trace_en_with_think r
    = trace_of_reply (ollama_generate E (calls w) (lit "qwen3:8b")
                        (think_prompt (entry_content e))) /\
    translation_status r = completed /\
    trace_hi_with_think r = Some hi /\ hi <> [].
Proof.
  intros Hdelay Htimer Henc Hti Hco Hdb Hroom.
  unfold main_entry, bind at 1. rewrite get_reasoning_trace_with_think_eq.
  set (en := trace_of_reply _).
  assert (Hen : utf8_encodable en = true)
    by (apply trace_of_reply_encodable, Henc).
  unfold bind at 1, save_to_database, try_except.
  cbn [for_each e_trace_hi_with_think e_title e_content
       e_trace_en_with_think]. unfold bind at 1, execute_insert.
  change (db (called w)) with (db w).
  rewrite Hdb, bind_insert_pending, (next_id_room t Hroom) by assumption.
  unfold ret at 1. unfold bind at 1.
  set (w1 := ticked _).
  destruct (retry_loop_returns E cfg Hdelay Htimer (contextual_prompt en)
              (range (MAX_RETRIES cfg)) w1) as (o & w2 & Hrun & Hdb2 & _).
  pose proof (returned_nonempty E cfg _ w1 o w2 Hrun) as Hne.
  pose proof (retry_loop_encodable E cfg _ _ Henc _ _ _ Hrun) as Hhi.
  unfold translate_reasoning_trace, translate_text_to_hindi, bind at 1,
    translate_text_to_hindi_outcome.
  rewrite Hrun. unfold ret at 1.
  unfold inline_update, bind, now, execute.
  change (db (ticked w2)) with (db w2).
  rewrite Hdb2, bind_inline_update by assumption.
  unfold w1 at 1. cbn [db ticked set_db].
  unfold Sql.insert_pending at 1.
  rewrite update_where_title_trace_app by reflexivity.
  eexists _, _, _, (returned o).
  split; [reflexivity |]. cbn [db set_db].
  split; [reflexivity |].
  split; [apply update_where_title_trace_immutable |].
  repeat (split; [reflexivity |]). exact Hne.
Qed.

(** X13. One round of the loop of [main], for an entry whose title and
    content are strings that UTF-8 encodes, on a table that exists and has
    room for one more row, with a delay [time.sleep] takes and a service
    whose texts UTF-8 encodes: the round returns normally and appends one
    record, which is [completed] at the end of the round with a non-empty
    translation.  The record carries the entry's title and content, and as
    its English trace what the generation call produced, which is the text
    of an error message when that call failed. *)
Theorem inline_round_completes_record
  (E : env) (cfg : config) (raw : raw_entry) (e : entry) (w : world)
  (t : table) :
  string_entry raw = Some e ->
  utf8_encodable (entry_title e) = true ->
  utf8_encodable (entry_content e) = true ->
  db w = Some t ->
  Sql.largest_id t < 2 ^ 63 - 1 ->
  0 <= RETRY_DELAY cfg ->
  time_sleep E (RETRY_DELAY cfg) = None ->
  encodable_replies E ->
  exists w' t' r hi,
    main_entry E cfg e w = (Ok tt, w') /\
    db w' = Some (t' ++ [r]) /\
    map immutable_part t' = map immutable_part t /\
    id r = 1 + Sql.largest_id t /\
    title r = entry_title e /\ content r = entry_content e /\
    trace_en_with_think r
    = trace_of_reply (ollama_generate E (calls w) (lit "qwen3:8b")
                        (think_prompt (entry_content e))) /\
    translation_status r = completed /\
    trace_hi_with_think r = Some hi /\ hi <> [].
Proof.
  intros _ Hti Hco Hdb Hroom Hdelay Htimer Henc.
  apply main_entry_round; assumption.
Qed.

Lemma always_raises_encodable (msg : str) :
  utf8_encodable msg = true -> encodable_replies (always_raises msg).
Proof. intros H k model prompt. exact H. Qed.

Lemma inline_round_completes_record_witness :
  string_entry {| raw_title := JString (lit "Three Sum");
                  raw_content := JString (lit "...") |}
  = Some three_sum_entry /\
  db (fresh (Some one_pending)) = Some one_pending /\
  Sql.largest_id one_pending < 2 ^ 63 - 1 /\
  0 <= RETRY_DELAY default_config /\
  encodable_replies (always_raises (lit "connection refused")) /\
  exists w' t' r hi,
    main_entry (always_raises (lit "connection refused")) default_config
      three_sum_entry (fresh (Some one_pending)) = (Ok tt, w') /\
    db w' = Some (t' ++ [r]) /\
    id r = 2 /\
    trace_en_with_think r
    = lit "Error generating WITH THINK reasoning trace: connection refused" /\
    translation_status r = completed /\
    trace_hi_with_think r = Some hi /\ hi <> [].
Proof.
  assert (Hroom : Sql.largest_id one_pending < 2 ^ 63 - 1)
    by (vm_compute; reflexivity).
  assert (Hdelay : 0 <= RETRY_DELAY default_config) by (simpl; lia).
  assert (Henc : encodable_replies (always_raises (lit "connection refused")))
    by (apply always_raises_encodable; reflexivity).
  split; [reflexivity |]. split; [reflexivity |]. split; [exact Hroom |].
  split; [exact Hdelay |]. split; [exact Henc |].
  destruct (inline_round_completes_record
              (always_raises (lit "connection refused")) default_config
              {| raw_title := JString (lit "Three Sum");
                 raw_content := JString (lit "...") |}
              three_sum_entry
              (fresh (Some one_pending)) one_pending eq_refl eq_refl eq_refl
              eq_refl Hroom Hdelay eq_refl Henc)
    as (w' & t' & r & hi & Hrun & Hdb & _ & Hid & _ & _ & Hen & Hst & Hhi & Hne).
  exists w', t', r, hi. repeat split; assumption.
Defined.

Lemma largest_id_same_ids (t t' : table) :
  map id t' = map id t -> Sql.largest_id t' = Sql.largest_id t.
Proof. unfold Sql.largest_id. intros ->. reflexivity. Qed.

Lemma main_loop (E : env) (cfg : config) (entries : list entry) :
  0 <= RETRY_DELAY cfg -> time_sleep E (RETRY_DELAY cfg) = None ->
  encodable_replies E ->
  Forall (fun e => utf8_encodable (entry_title e) = true /\
                   utf8_encodable (entry_content e) = true) entries ->
  forall (w : world) (t : table),
    db w = Some t ->
    Sql.largest_id t + Z.of_nat (List.length entries) < 2 ^ 63 ->
    Forall (fun r => - 2 ^ 63 <= id r < 2 ^ 63) t ->
    exists w' t',
      for_each entries (main_entry E cfg) w = (Ok tt, w') /\
      db w' = Some t' /\
      List.length t' = (List.length t + List.length entries)%nat /\
      Forall (fun r => - 2 ^ 63 <= id r < 2 ^ 63) t'.
Proof.
  intros Hdelay Htimer Henc.
  induction entries as [| e rest IH]; intros Htexts w t Hdb Hroom Hrange.
  - exists w, t. split; [reflexivity |]. split; [exact Hdb |].
    split; [simpl; lia | exact Hrange].
  - inversion Htexts as [| ? ? [Hti Hco] Htexts']; subst.
    cbn [List.length] in Hroom.
    cbn [for_each]. unfold bind at 1.
    destruct (main_entry_round E cfg e w t Hdelay Htimer Henc Hti Hco Hdb
                ltac:(lia))
      as (w1 & t1 & r & hi & Hrun & Hdb1 & Himm & Hid & _).
    rewrite Hrun.
    pose proof (map_id_immutable _ _ Himm) as Hsame.
    assert (Hlargest : Sql.largest_id (t1 ++ [r]) = 1 + Sql.largest_id t).
    { rewrite <- (largest_id_same_ids t t1 Hsame) in *.
      apply largest_id_app. exact Hid. }
    assert (Hrange1 : Forall (fun r => - 2 ^ 63 <= id r < 2 ^ 63) (t1 ++ [r])).
    { apply Forall_app. split.
      - apply Forall_forall. intros x Hx.
        assert (Hin : In (id x) (map id t)) by (rewrite <- Hsame; apply in_map, Hx).
        apply in_map_iff in Hin. destruct Hin as (y & Hy & Hin).
        rewrite Forall_forall in Hrange. rewrite <- Hy. apply Hrange, Hin.
      - constructor; [| constructor]. rewrite Hid.
        pose proof (largest_id_nonneg t). lia. }
    destruct (IH Htexts' w1 _ Hdb1 ltac:(lia) Hrange1)
      as (w' & t' & Hrest & Hdb' & Hlen & Hrange').
    exists w', t'. split; [exact Hrest |]. split; [exact Hdb' |].
    split; [| exact Hrange'].
    rewrite Hlen, length_app.
    apply (f_equal (@List.length _)) in Himm. rewrite !length_map in Himm.
    cbn [List.length]. lia.
Qed.

(** X14. [main] on entries whose titles and contents are strings that UTF-8
    encodes, when the table (if there is one) has ids that are INTEGERs of
    SQLite and room for the entries, with a delay [time.sleep] takes and a
    service whose texts UTF-8 encodes: [main] returns normally.  With no
    entries it only makes sure the table exists: no record changes and the
    service is not called.  With entries it adds one record per entry, and
    at its end no record of the table is untranslated, the old ones
    included: every record is [completed]. *)
Theorem main_completes_every_record
  (E : env) (cfg : config) (raws : list raw_entry) (entries : list entry)
  (w : world) :
  string_entries raws = Some entries ->
  Forall (fun e => utf8_encodable (entry_title e) = true /\
                   utf8_encodable (entry_content e) = true) entries ->
  Forall (fun r => - 2 ^ 63 <= id r < 2 ^ 63) (records w) ->
  Sql.largest_id (records w) + Z.of_nat (List.length entries) < 2 ^ 63 ->
  0 <= RETRY_DELAY cfg ->
  time_sleep E (RETRY_DELAY cfg) = None ->
  encodable_replies E ->
  exists w' t',
    main E cfg entries w = (Ok tt, w') /\
    db w' = Some t' /\
    List.length t'
    = (List.length (records w) + List.length entries)%nat /\
    (entries <> [] -> filter Sql.is_untranslated t' = []) /\
    (entries = [] -> t' = records w /\ calls w' = calls w).
Proof.
  intros _ Htexts Hrange Hroom Hdelay Htimer Henc.
  unfold main, bind at 1.
  assert (Hsetup : exists w0,
            setup_database w = (Ok tt, w0) /\ db w0 = Some (records w) /\
            calls w0 = calls w).
  { unfold setup_database, records.
    destruct (db w) as [t |] eqn:Hdb; eexists; split; try reflexivity;
      simpl; auto. }
  destruct Hsetup as (w0 & -> & Hdb0 & Hcalls0).
  destruct entries as [| e rest].
  - exists w0, (records w). split; [reflexivity |]. split; [exact Hdb0 |].
    split; [simpl; lia |]. split; [congruence | auto].
  - unfold bind at 1.
    destruct (main_loop E cfg (e :: rest) Hdelay Htimer Henc Htexts w0 _ Hdb0
                Hroom Hrange)
      as (w1 & t1 & -> & Hdb1 & Hlen1 & Hrange1).
    destruct (process_translations_completes E cfg w1 t1 Hdelay Htimer Henc
                Hrange1 Hdb1)
      as (w2 & t2 & -> & Hdb2 & Hnone & Hlen2 & _).
    exists w2, t2. split; [reflexivity |]. split; [exact Hdb2 |].
    split; [congruence |]. split; [auto | discriminate].
Qed.

Lemma main_completes_every_record_witness :
  string_entries
    [ {| raw_title := JString (lit "Three Sum");
         raw_content := JString (lit "...") |} ]
  = Some [three_sum_entry] /\
  Sql.largest_id (records (fresh (Some one_pending)))
  + Z.of_nat (List.length [three_sum_entry]) < 2 ^ 63 /\
  0 <= RETRY_DELAY default_config /\
  encodable_replies (always_raises (lit "connection refused")) /\
  [three_sum_entry] <> [] /\
  exists w' t',
    main (always_raises (lit "connection refused")) default_config
      [three_sum_entry] (fresh (Some one_pending)) = (Ok tt, w') /\
    db w' = Some t' /\ List.length t' = 2%nat /\
    filter Sql.is_untranslated t' = [].
Proof.
  assert (Hne : [three_sum_entry] <> []) by discriminate.
  assert (Hroom : Sql.largest_id (records (fresh (Some one_pending)))
                  + Z.of_nat (List.length [three_sum_entry]) < 2 ^ 63)
    by (vm_compute; reflexivity).
  assert (Hdelay : 0 <= RETRY_DELAY default_config) by (simpl; lia).
  assert (Henc : encodable_replies (always_raises (lit "connection refused")))
    by (apply always_raises_encodable; reflexivity).
  assert (Htexts : Forall (fun e => utf8_encodable (entry_title e) = true /\
                                    utf8_encodable (entry_content e) = true)
                     [three_sum_entry])
    by (repeat constructor).
  assert (Hrange : Forall (fun r => - 2 ^ 63 <= id r < 2 ^ 63)
                     (records (fresh (Some one_pending))))
    by (repeat constructor; cbn; lia).
  split; [reflexivity |]. split; [exact Hroom |]. split; [exact Hdelay |].
  split; [exact Henc |]. split; [exact Hne |].
  destruct (main_completes_every_record
              (always_raises (lit "connection refused")) default_config
              [ {| raw_title := JString (lit "Three Sum");
                   raw_content := JString (lit "...") |} ]
              [three_sum_entry] (fresh (Some one_pending))
              eq_refl Htexts Hrange Hroom Hdelay eq_refl Henc)
    as (w' & t' & Hrun & Hdb & Hlen & Hnone & _).
  exists w', t'. split; [exact Hrun |]. split; [exact Hdb |].
  split; [exact Hlen | exact (Hnone Hne)].
Defined.

(** On a table that is full the INSERT of the first round raises, after
    the generation call; [save_to_database] raises it again and [main]
    stops there. *)
Example main_stops_on_full_table :
  main (always_answers (lit "x")) default_config [three_sum_entry]
    (fresh (Some full_table))
  = (Raised (Exception (lit "database or disk is full")),
     called (fresh (Some full_table))).
Proof. vm_compute; reflexivity. Qed.

(* ================================================================== *)
(** ** More about batch mode *)

Lemma check_database_status_eq (w : world) (t : table) :
  db w = Some t ->
  check_database_status w
  = (Ok (Some {| total_traces := List.length t;
                 completed_translations :=
                   List.length (filter Sql.is_translated t);
                 pending_translations :=
                   List.length (filter Sql.is_untranslated t) |}), w).
Proof.
  intros Hdb. unfold check_database_status, try_except, bind, execute; cbn [bind_parameters].
  rewrite Hdb, (set_db_same w) by assumption. rewrite Hdb.
  rewrite (set_db_same w) by assumption. rewrite Hdb.
  rewrite (set_db_same w) by assumption. reflexivity.
Qed.

Lemma check_database_status_no_table (w : world) :
  db w = None -> check_database_status w = (Ok None, w).
Proof.
  intros Hdb. unfold check_database_status, try_except, bind, execute; cbn [bind_parameters].
  rewrite Hdb. reflexivity.
Qed.

Lemma is_translated_negb (r : row) :
  Sql.is_translated r = negb (Sql.is_untranslated r).
Proof.
  unfold Sql.is_translated, Sql.is_untranslated.
  destruct (translation_status r), (trace_hi_with_think r); reflexivity.
Qed.

Lemma filter_partition_length {A} (p : A -> bool) (l : list A) :
  (List.length (filter (fun x => negb (p x)) l) + List.length (filter p l)
   = List.length l)%nat.
Proof.
  induction l as [|x l IH]; simpl; [reflexivity |].
  destruct (p x); simpl; lia.
Qed.

Lemma length_order_by_id (l : list row) :
  List.length (Sql.order_by_id l) = List.length l.
Proof. symmetry. apply Permutation_length, order_by_id_perm. Qed.

(** X15. On every table, whether or not it satisfies the invariant of §3, the
    two counts of [check_database_status] split the table: completed plus
    pending is the total; and the pending count is the number of traces
    [get_untranslated_traces] returns. *)
Theorem status_counts_split_the_table (w : world) (t : table) :
  db w = Some t ->
  exists st traces,
    check_database_status w = (Ok (Some st), w) /\
    get_untranslated_traces w = (Ok traces, w) /\
    (completed_translations st + pending_translations st
     = total_traces st)%nat /\
    pending_translations st = List.length traces.
Proof.
  intros Hdb. eexists _, _.
  split; [apply check_database_status_eq, Hdb |].
  split; [apply get_untranslated_traces_eq |].
  cbn [total_traces completed_translations pending_translations].
  split.
  - rewrite (filter_ext _ _ is_translated_negb).
    apply filter_partition_length.
  - rewrite length_map, length_order_by_id.
    unfold records; rewrite Hdb; reflexivity.
Qed.

Lemma status_counts_split_the_table_witness :
  db (fresh (Some five_records)) = Some five_records /\
  exists st traces,
    check_database_status (fresh (Some five_records)) =
      (Ok (Some st), fresh (Some five_records)) /\
    get_untranslated_traces (fresh (Some five_records)) =
      (Ok traces, fresh (Some five_records)) /\
    (completed_translations st + pending_translations st
     = total_traces st)%nat /\
    pending_translations st = List.length traces.
Proof.
  split; [reflexivity |].
  exact (status_counts_split_the_table (fresh (Some five_records))
           five_records eq_refl).
Defined.

Lemma translate_one_returns (E : env) (cfg : config) (tr : trace) (w : world) :
  exists b w', translate_one E cfg tr w = (Ok b, w').
Proof.
  unfold translate_one, try_except.
  destruct (bind _ _ w) as [[b | e] w']; eexists _, _; reflexivity.
Qed.

Lemma translate_loop_counts (E : env) (cfg : config) (traces : list trace) :
  forall (s f : nat) (w : world),
    exists s' f' w',
      translate_loop E cfg traces s f w = (Ok (s', f'), w') /\
      (s' + f' = s + f + List.length traces)%nat.
Proof.
  induction traces as [| tr rest IH]; intros s f w.
  - exists s, f, w. split; [reflexivity | simpl; lia].
  - cbn [translate_loop]. unfold bind.
    destruct (translate_one_returns E cfg tr w) as (b & w1 & ->).
    destruct b.
    + destruct (IH (S s) f w1) as (s' & f' & w' & -> & Hsum).
      exists s', f', w'. split; [reflexivity | simpl; lia].
    + destruct (IH s (S f) w1) as (s' & f' & w' & -> & Hsum).
      exists s', f', w'. split; [reflexivity | simpl; lia].
Qed.

(** X16. [translate_all_pending_traces] never raises.  When no record is
    untranslated (or the table is missing) it returns before the loop and
    leaves the world as it is: the service is not called.  Otherwise it
    processes exactly the untranslated records, and every one of them is
    counted once, as a success or as a failure. *)
Theorem batch_run_accounts_for_every_record
  (E : env) (cfg : config) (w : world) :
  exists r w',
    translate_all_pending_traces E cfg w = (Ok r, w') /\
    (untranslated_count w = 0%nat -> r = None /\ w' = w) /\
    (untranslated_count w <> 0%nat ->
     exists s, r = Some s /\
               processed s = untranslated_count w /\
               (successful_translations s + failed_translations s
                = processed s)%nat).
Proof.
  unfold translate_all_pending_traces, untranslated_count, bind at 1.
  destruct (db w) as [t |] eqn:Hdb.
  - rewrite (check_database_status_eq w t Hdb).
    cbn [pending_translations].
    assert (Hrec : records w = t) by (unfold records; rewrite Hdb; reflexivity).
    rewrite Hrec.
    destruct (Nat.eqb_spec (List.length (filter Sql.is_untranslated t)) 0)
      as [H0 | Hpos].
    + exists None, w. split; [reflexivity |]. split; [auto | tauto].
    + unfold bind at 1. rewrite get_untranslated_traces_eq, Hrec.
      set (traces := map trace_of_row _).
      assert (Hlen : List.length traces
                     = List.length (filter Sql.is_untranslated t))
        by (unfold traces; rewrite length_map; apply length_order_by_id).
      destruct (translate_loop_counts E cfg traces 0 0 w)
        as (s' & f' & w' & Hloop & Hsum).
      destruct traces as [| tr rest] eqn:Htraces; [simpl in Hlen; lia |].
      unfold bind. rewrite Hloop. eexists _, w'.
      split; [reflexivity |]. split; [tauto |].
      intros _. eexists. split; [reflexivity |].
      cbn [processed successful_translations failed_translations fst snd].
      split; lia.
  - rewrite (check_database_status_no_table w Hdb).
    exists None, w. split; [reflexivity |].
    unfold records; rewrite Hdb. simpl. split; [auto | tauto].
Qed.

Lemma batch_run_accounts_for_every_record_witness :
  untranslated_count (fresh (Some five_records)) <> 0%nat /\
  exists r w',
    translate_all_pending_traces (always_raises (lit "connection refused"))
      default_config (fresh (Some five_records)) = (Ok r, w') /\
    exists s, r = Some s /\ processed s = 2%nat /\
              (successful_translations s + failed_translations s
               = processed s)%nat.
Proof.
  assert (Hne : untranslated_count (fresh (Some five_records)) <> 0%nat)
    by discriminate.
  split; [exact Hne |].
  destruct (batch_run_accounts_for_every_record
              (always_raises (lit "connection refused")) default_config
              (fresh (Some five_records))) as (r & w' & Hrun & _ & Hsome).
  exists r, w'. split; [exact Hrun | exact (Hsome Hne)].
Defined.

Lemma contextual_prompt_not_prefixed (trace_text : str) :
  startswith_any (contextual_prompt trace_text) error_prefixes = false.
Proof. reflexivity. Qed.

(** X17. The prefix test of batch mode also hits translations: when the service
    answers with a text that, stripped, is non-empty and begins with one of
    the four prefixes, the engine accepts it as the translation, yet the
    round is counted as a failure and nothing is written: the record stays
    as it was. *)
Theorem prefixed_translation_is_discarded
  (cfg : config) (tr : trace) (w : world) (s : str) :
  0 < MAX_RETRIES cfg ->
  startswith_any (strip s) error_prefixes = true ->
  translate_reasoning_trace_outcome (always_answers s) cfg (trace_en tr) w
  = (Ok (Translated (strip s)), called w) /\
  translate_one (always_answers s) cfg tr w = (Ok false, called w).
Proof.
  intros Hmax Hpre.
  assert (Hrun : translate_text_to_hindi_outcome (always_answers s) cfg
                   (contextual_prompt (trace_en tr)) w
                 = (Ok (Translated (strip s)), called w)).
  { rewrite (outcome_accepted_at_once (always_answers s) cfg
               (contextual_prompt (trace_en tr)) w (strip s)).
    - reflexivity.
    - exact Hmax.
    - unfold reply_at, accepted, always_answers; cbn [ollama_generate].
      replace (valid_translation (contextual_prompt (trace_en tr)) (strip s))
        with true; [reflexivity |].
      symmetry. apply valid_translation_spec. split.
      + intros H. rewrite H in Hpre. discriminate.
      + intros H. rewrite H, contextual_prompt_not_prefixed in Hpre.
        discriminate. }
  split; [exact Hrun |].
  unfold translate_one, try_except, bind at 1, translate_reasoning_trace,
    translate_text_to_hindi, bind at 1.
  rewrite Hrun. unfold ret at 1. cbn [returned]. rewrite Hpre. reflexivity.
Qed.

Lemma prefixed_translation_is_discarded_witness :
  0 < MAX_RETRIES default_config /\
  startswith_any (strip misleading_translation) error_prefixes = true /\
  translate_one (always_answers misleading_translation) default_config
    {| trace_id := 1; trace_title := lit "Two Sum";
       trace_en := lit "use a hash map" |}
    (fresh (Some one_pending))
  = (Ok false, called (fresh (Some one_pending))).
Proof.
  assert (H0 : 0 < MAX_RETRIES default_config) by reflexivity.
  assert (H1 : startswith_any (strip misleading_translation) error_prefixes
               = true) by reflexivity.
  split; [exact H0 |]. split; [exact H1 |].
  exact (proj2 (prefixed_translation_is_discarded default_config
                  {| trace_id := 1; trace_title := lit "Two Sum";
                     trace_en := lit "use a hash map" |}
                  (fresh (Some one_pending)) misleading_translation H0 H1)).
Defined.

(** Every error message of the engine is stored by batch mode.  For a
    concrete instance: the service raises on every call. *)
Lemma translate_one_stores_error_message_witness :
  db (fresh (Some one_pending)) = Some one_pending /\
  - 2 ^ 63 <= 1 < 2 ^ 63 /\
  utf8_encodable (lit "Translation error after 3 attempts: connection refused")
  = true /\
  exists t',
    translate_one (always_raises (lit "connection refused")) default_config
      {| trace_id := 1; trace_title := lit "Two Sum";
         trace_en := lit "use a hash map" |}
      (fresh (Some one_pending))
    = (Ok true,
       set_db (Some t')
         (ticked (called (after_failures default_config 2
                            (fresh (Some one_pending)))))) /\
    map (fun r => (id r, trace_hi_with_think r, translation_status r,
                   translated_at r)) t'
    = [ (1,
         Some (lit "Translation error after 3 attempts: connection refused"),
         completed, Some 1000) ].
Proof.
  assert (Hid : - 2 ^ 63 <= 1 < 2 ^ 63) by lia.
  split; [reflexivity |]. split; [exact Hid |]. split; [reflexivity |].
  destruct (translate_one_stores_error_message
              (always_raises (lit "connection refused")) default_config
              {| trace_id := 1; trace_title := lit "Two Sum";
                 trace_en := lit "use a hash map" |}
              (fresh (Some one_pending)) one_pending
              (lit "Translation error after 3 attempts: connection refused")
              (called (after_failures default_config 2
                         (fresh (Some one_pending))))
              eq_refl Hid eq_refl eq_refl)
    as (t' & Hrun & Hlen & Hrows).
  exists t'. split; [exact Hrun |].
  destruct t' as [| r1 [| r2 t']]; try discriminate Hlen.
  destruct (Hrows 0%nat _ eq_refl) as (x1 & Hx1 & Hi1 & Hset1 & _).
  injection Hx1 as <-.
  destruct (Hset1 eq_refl) as (Hh1 & Hs1 & Ha1).
  apply (f_equal (fun p => fst (fst (fst (fst p))))) in Hi1.
  cbn [immutable_part fst] in Hi1.
  cbn [map]. rewrite Hh1, Hs1, Ha1, Hi1. reflexivity.
Defined.

(** *** What a batch run leaves untranslated *)

Lemma translate_one_cases (E : env) (cfg : config) (tr : trace) (w : world)
  (t : table) :
  db w = Some t ->
  exists b w',
    translate_one E cfg tr w = (Ok b, w') /\
    ((b = true /\
      exists hi a, db w' = Some (Sql.update_where_id hi a (trace_id tr) t)) \/
     (b = false /\ db w' = Some t)).
Proof.
  intros Hdb.
  destruct (retry_loop_ends E cfg (contextual_prompt (trace_en tr))
              (range (MAX_RETRIES cfg)) w) as (r & w1 & Hrun & Hdb1 & _).
  assert (Hdb1' : db (ticked w1) = Some t) by (rewrite <- Hdb; exact Hdb1).
  unfold translate_one, try_except, bind at 1, translate_reasoning_trace,
    translate_text_to_hindi, bind at 1, translate_text_to_hindi_outcome.
  rewrite Hrun. destruct r as [o | e].
  - unfold ret at 1.
    destruct (startswith_any (returned o) error_prefixes).
    + exists false, w1. split; [reflexivity |]. right.
      split; [reflexivity | congruence].
    + unfold bind, update_translation_in_database, try_except, bind, now,
        execute.
      rewrite Hdb1'. destruct (bind_parameters _) as [e |].
      * exists false, (ticked w1). split; [reflexivity |]. right.
        split; [reflexivity | exact Hdb1'].
      * eexists true, _. split; [reflexivity |]. left.
        split; [reflexivity |]. eexists _, _. reflexivity.
  - exists false, w1. split; [reflexivity |]. right.
    split; [reflexivity | congruence].
Qed.

Lemma translate_loop_outcomes (E : env) (cfg : config) (traces : list trace) :
  forall (s f : nat) (w : world) (t : table),
    db w = Some t ->
    exists bs w' t',
      List.length bs = List.length traces /\
      translate_loop E cfg traces s f w
      = (Ok ((s + List.length (filter (fun b => b) bs))%nat,
             (f + List.length (filter negb bs))%nat), w') /\
      db w' = Some t' /\
      map (fun r => (id r, Sql.is_untranslated r)) t'
      = map (fun r => (id r,
                       Sql.is_untranslated r
                       && negb (among (applied_ids traces bs) (id r)))) t.
Proof.
  induction traces as [| tr rest IH]; intros s f w t Hdb.
  - exists [], w, t. split; [reflexivity |].
    split; [cbn; rewrite !Nat.add_0_r; reflexivity |].
    split; [exact Hdb |].
    apply map_ext; intros r. cbn. rewrite andb_true_r. reflexivity.
  - cbn [translate_loop]. unfold bind at 1.
    destruct (translate_one_cases E cfg tr w t Hdb)
      as (b & w1 & -> & [[-> (hi & a & Hdb1)] | [-> Hdb1]]).
    + destruct (IH (S s) f w1 _ Hdb1)
        as (bs & w' & t' & Hlen & Hloop & Hdb' & Hstate).
      exists (true :: bs), w', t'. split; [simpl; lia |].
      split; [rewrite Hloop; cbn [filter negb List.length]; do 2 f_equal;
              f_equal; lia |].
      split; [exact Hdb' |].
      rewrite Hstate.
      change (fun r : row =>
                (id r, Sql.is_untranslated r
                       && negb (among (applied_ids rest bs) (id r))))
        with (fun r : row =>
                (fun p : Z * bool =>
                   (fst p, snd p && negb (among (applied_ids rest bs) (fst p))))
                  (id r, Sql.is_untranslated r)).
      rewrite <- (map_map (fun r => (id r, Sql.is_untranslated r))).
      rewrite update_where_id_state, map_map.
      apply map_ext; intros r. cbn [fst snd applied_ids].
      unfold among; cbn [existsb].
      f_equal. rewrite <- andb_assoc. f_equal.
      rewrite negb_orb. reflexivity.
    + destruct (IH s (S f) w1 _ Hdb1)
        as (bs & w' & t' & Hlen & Hloop & Hdb' & Hstate).
      exists (false :: bs), w', t'. split; [simpl; lia |].
      split; [rewrite Hloop; cbn [filter negb List.length]; do 2 f_equal;
              f_equal; lia |].
      split; [exact Hdb' | exact Hstate].
Qed.

Lemma among_spec (ids : list Z) (i : Z) : among ids i = true <-> In i ids.
Proof.
  unfold among. rewrite existsb_exists. split.
  - intros (x & Hx & Heq). apply Z.eqb_eq in Heq. subst; exact Hx.
  - intros H. exists i. split; [exact H | apply Z.eqb_refl].
Qed.

Lemma applied_ids_subset (F : list row) (bs : list bool) (i : Z) :
  In i (applied_ids (map trace_of_row F) bs) -> In i (map id F).
Proof.
  revert bs; induction F as [| r F IH]; intros [| b bs]; simpl; try tauto.
  destruct b; simpl; [intros [H | H] |]; eauto.
Qed.

Lemma skipped_rows_counted (F : list row) :
  forall bs,
    List.length bs = List.length F ->
    NoDup (map id F) ->
    List.length
      (filter (fun r => negb (among (applied_ids (map trace_of_row F) bs)
                                (id r))) F)
    = List.length (filter negb bs).
Proof.
  induction F as [| r F IH]; intros [| b bs] Hlen Hnd; simpl in Hlen;
    try discriminate; [reflexivity |].
  injection Hlen as Hlen. inversion Hnd as [| ? ? Hr Hnd']; subst.
  cbn [map applied_ids trace_of_row trace_id filter].
  assert (Htail :
    filter (fun r0 => negb (among (if b then id r :: applied_ids
                                     (map trace_of_row F) bs
                                   else applied_ids (map trace_of_row F) bs)
                              (id r0))) F
    = filter (fun r0 => negb (among (applied_ids (map trace_of_row F) bs)
                                (id r0))) F).
  { apply filter_ext_in; intros r0 Hr0. destruct b; [| reflexivity].
    unfold among; cbn [existsb].
    destruct (Z.eqb_spec (id r0) (id r)) as [Heq | Hne]; [| reflexivity].
    exfalso; apply Hr. rewrite <- Heq. apply in_map; exact Hr0. }
  destruct b.
  - unfold among at 1; cbn [existsb]. rewrite Z.eqb_refl. cbn [orb negb].
    fold (among (id r :: applied_ids (map trace_of_row F) bs)).
    change (existsb (Z.eqb ?i) ?l) with (among l i) in Htail.
    cbn [filter negb]. rewrite <- (IH bs Hlen Hnd'). f_equal. exact Htail.
  - assert (Hnot : among (applied_ids (map trace_of_row F) bs) (id r) = false).
    { destruct (among _ (id r)) eqn:Ha; [| reflexivity].
      apply among_spec, applied_ids_subset in Ha. contradiction. }
    rewrite Hnot. cbn [negb filter List.length].
    rewrite <- (IH bs Hlen Hnd'). reflexivity.
Qed.

Lemma length_filter_map {A B} (f : A -> B) (p : B -> bool) (l : list A) :
  List.length (filter p (map f l))
  = List.length (filter (fun x => p (f x)) l).
Proof.
  induction l as [| x l IH]; simpl; [reflexivity |].
  destruct (p (f x)); simpl; rewrite IH; reflexivity.
Qed.

Lemma filter_andb {A} (p q : A -> bool) (l : list A) :
  filter (fun x => p x && q x) l = filter q (filter p l).
Proof.
  induction l as [| x l IH]; simpl; [reflexivity |].
  destruct (p x); simpl; [destruct (q x) |]; rewrite IH; reflexivity.
Qed.

Lemma filter_perm_length {A} (p : A -> bool) (l l' : list A) :
  Permutation l l' ->
  List.length (filter p l) = List.length (filter p l').
Proof.
  induction 1 as [| x l l' _ IH | x y l | l l' l'' _ IH1 _ IH2]; simpl.
  - reflexivity.
  - destruct (p x); simpl; rewrite IH; reflexivity.
  - destruct (p x), (p y); reflexivity.
  - congruence.
Qed.

Lemma NoDup_filter_ids (p : row -> bool) (t : table) :
  NoDup (map id t) -> NoDup (map id (filter p t)).
Proof.
  induction t as [| r t IH]; simpl; [auto |].
  intros Hnd. inversion Hnd as [| ? ? Hr Hnd']; subst.
  destruct (p r); simpl; [| auto].
  constructor; [| auto].
  intros Hin. apply Hr. apply in_map_iff in Hin.
  destruct Hin as (r' & Hid & Hin). apply filter_In in Hin.
  rewrite <- Hid. apply in_map. tauto.
Qed.

Lemma remaining_untranslated (t t' : table) (bs : list bool) :
  NoDup (map id t) ->
  List.length bs
  = List.length (Sql.order_by_id (filter Sql.is_untranslated t)) ->
  map (fun r => (id r, Sql.is_untranslated r)) t'
  = map (fun r =>
           (id r,
            Sql.is_untranslated r
            && negb (among (applied_ids
                              (map trace_of_row
                                 (Sql.order_by_id
                                    (filter Sql.is_untranslated t))) bs)
                       (id r)))) t ->
  List.length (filter Sql.is_untranslated t') = List.length (filter negb bs).
Proof.
  intros Hnd Hlen Hstate.
  set (F := Sql.order_by_id (filter Sql.is_untranslated t)) in *.
  set (A := applied_ids (map trace_of_row F) bs) in *.
  assert (HF : Permutation (filter Sql.is_untranslated t) F)
    by apply order_by_id_perm.
  transitivity (List.length (filter (fun r => negb (among A (id r))) F)).
  - rewrite <- (filter_perm_length _ _ _ HF), <- filter_andb.
    change (filter Sql.is_untranslated t')
      with (filter (fun r => snd (id r, Sql.is_untranslated r)) t').
    rewrite <- (length_filter_map (fun r => (id r, Sql.is_untranslated r)) snd).
    rewrite Hstate, length_filter_map. reflexivity.
  - apply skipped_rows_counted; [exact Hlen |].
    apply (Permutation_NoDup (Permutation_map id HF)).
    apply NoDup_filter_ids, Hnd.
Qed.

(** X19. When the ids of the table are distinct, what a batch run leaves
    untranslated is what it counted as failed: after
    [translate_all_pending_traces] the number of records that
    [get_untranslated_traces] would still return equals
    [failed_translations] (and is unchanged when the run returned before
    the loop). *)
Theorem batch_run_leaves_failed_untranslated
  (E : env) (cfg : config) (w : world) (t : table) :
  db w = Some t ->
  NoDup (map id t) ->
  exists r w',
    translate_all_pending_traces E cfg w = (Ok r, w') /\
    untranslated_count w'
    = match r with
      | Some s => failed_translations s
      | None => untranslated_count w
      end.
Proof.
  intros Hdb Hnd.
  assert (Hrec : records w = t) by (unfold records; rewrite Hdb; reflexivity).
  unfold translate_all_pending_traces, bind at 1.
  rewrite (check_database_status_eq w t Hdb). cbn [pending_translations].
  destruct (Nat.eqb_spec (List.length (filter Sql.is_untranslated t)) 0)
    as [H0 | Hpos].
  - exists None, w. split; reflexivity.
  - unfold bind at 1. rewrite get_untranslated_traces_eq, Hrec.
    set (F := Sql.order_by_id (filter Sql.is_untranslated t)).
    destruct (translate_loop_outcomes E cfg (map trace_of_row F) 0 0 w t Hdb)
      as (bs & w' & t' & Hlen & Hloop & Hdb' & Hstate).
    rewrite length_map in Hlen.
    pose proof (remaining_untranslated t t' bs Hnd Hlen Hstate) as Hcount.
    assert (HF : map trace_of_row F <> []).
    { intros Hnil. apply (f_equal (@List.length _)) in Hnil.
      rewrite length_map in Hnil. unfold F in Hnil.
      rewrite length_order_by_id in Hnil. simpl in Hnil. contradiction. }
    destruct (map trace_of_row F) as [| tr rest] eqn:HFeq; [contradiction |].
    unfold bind. rewrite Hloop. eexists _, w'. split; [reflexivity |].
    cbn [failed_translations snd]. unfold untranslated_count, records.
    rewrite Hdb'. exact Hcount.
Qed.

Lemma batch_run_leaves_failed_untranslated_witness :
  db (fresh (Some five_records)) = Some five_records /\
  NoDup (map id five_records) /\
  exists r w',
    translate_all_pending_traces (always_answers misleading_translation)
      default_config (fresh (Some five_records)) = (Ok r, w') /\
    untranslated_count w'
    = match r with
      | Some s => failed_translations s
      | None => untranslated_count (fresh (Some five_records))
      end.
Proof.
  assert (Hnd : NoDup (map id five_records)).
  { repeat constructor; simpl; intuition discriminate. }
  split; [reflexivity |]. split; [exact Hnd |].
  exact (batch_run_leaves_failed_untranslated
           (always_answers misleading_translation) default_config
           (fresh (Some five_records)) five_records eq_refl Hnd).
Defined.

(** In that run both untranslated records are counted as failed and stay
    untranslated, although the service translated them. *)
Example batch_run_discards_prefixed_translations :
  fst (translate_all_pending_traces (always_answers misleading_translation)
         default_config (fresh (Some five_records)))
  = Ok (Some {| processed := 2; successful_translations := 0;
                failed_translations := 2 |}) /\
  untranslated_count
    (snd (translate_all_pending_traces
            (always_answers misleading_translation) default_config
            (fresh (Some five_records)))) = 2%nat.
Proof. split; vm_compute; reflexivity. Qed.

(* ================================================================== *)
(** ** Reading the entries *)

Section ReadingEntries.

Variable json_loads : str -> option json.

Lemma read_lines_step (line : str) :
  forall (rest : list str) (i n : Z) (acc : list raw_entry),
    i < n ->
    read_lines json_loads (line :: rest) i n acc =
    match entry_of_line json_loads line with
    | Some e => read_lines json_loads rest (i + 1) n (acc ++ [e])
    | None => None
    end.
Proof.
  intros rest i n acc Hi. cbn [read_lines].
  replace (n <=? i) with false by (symmetry; apply Z.leb_gt; lia).
  unfold entry_of_line.
  destruct (json_loads (strip line)) as [[| | | | |members] |]; reflexivity.
Qed.

Lemma read_lines_spec (lines : list str) :
  forall (i n : Z) (acc : list raw_entry),
    read_lines json_loads lines i n acc =
    match all_some (map (entry_of_line json_loads)
                      (firstn (Z.to_nat (n - i)) lines)) with
    | Some es => Some (acc ++ es)
    | None => None
    end.
Proof.
  induction lines as [| line rest IH]; intros i n acc.
  - rewrite firstn_nil. cbn. rewrite app_nil_r. reflexivity.
  - destruct (Z.leb_spec n i) as [Hle | Hlt].
    + cbn [read_lines]. replace (n <=? i) with true
        by (symmetry; apply Z.leb_le; lia).
      replace (Z.to_nat (n - i)) with 0%nat by lia.
      cbn. rewrite app_nil_r. reflexivity.
    + rewrite read_lines_step by assumption.
      replace (Z.to_nat (n - i)) with (S (Z.to_nat (n - (i + 1)))) by lia.
      cbn [firstn map all_some].
      destruct (entry_of_line json_loads line) as [e |]; [| reflexivity].
      rewrite IH.
      destruct (all_some _) as [es |]; [| reflexivity].
      rewrite <- app_assoc. reflexivity.
Qed.

Lemma read_leetcode_entries_eq (lines : list str) (n : Z) :
  read_leetcode_entries json_loads (Some lines) n =
  match all_some (map (entry_of_line json_loads) (firstn (Z.to_nat n) lines))
  with
  | Some es => es
  | None => []
  end.
Proof.
  unfold read_leetcode_entries. rewrite read_lines_spec, Z.sub_0_r.
  destruct (all_some _); reflexivity.
Qed.

Lemma all_some_length {A} (l : list (option A)) (xs : list A) :
  all_some l = Some xs -> List.length xs = List.length l.
Proof.
  revert xs; induction l as [| [x |] l IH]; intros xs; simpl.
  - intros H; injection H as <-; reflexivity.
  - destruct (all_some l) as [ys |]; [| discriminate].
    intros H; injection H as <-. simpl. f_equal. apply IH; reflexivity.
  - discriminate.
Qed.

Lemma all_some_none {A} (l : list (option A)) :
  In None l -> all_some l = None.
Proof.
  induction l as [| [x |] l IH]; simpl; [tauto | | reflexivity].
  intros [H | H]; [discriminate |]. rewrite (IH H). reflexivity.
Qed.

Lemma nth_error_firstn_In {A} (m : nat) (l : list A) :
  forall (k : nat) (x : A),
    nth_error l k = Some x -> (k < m)%nat -> In x (firstn m l).
Proof.
  revert m; induction l as [| y l IH]; intros m [| k] x Hk Hm;
    try discriminate; destruct m as [| m]; try lia; simpl in *.
  - injection Hk as ->. auto.
  - right. apply (IH m k); [exact Hk | lia].
Qed.

Lemma all_some_objects (first : list str) (objects : list (list (str * json))) :
  Forall2 (fun line members =>
             json_loads (strip line) = Some (JObject members)) first objects ->
  all_some (map (entry_of_line json_loads) first)
  = Some (map entry_of_members objects).
Proof.
  induction 1 as [| line members first objects Hline _ IH]; simpl.
  - reflexivity.
  - unfold entry_of_line at 1. rewrite Hline, IH. reflexivity.
Qed.

(** X21. [read_leetcode_entries] never returns more entries than asked for nor
    more than the file has lines; it returns none when the file cannot be
    opened or when [num_entries] is not positive. *)
Theorem read_leetcode_entries_bounds (file : option (list str)) (n : Z) :
  (List.length (read_leetcode_entries json_loads file n) <= Z.to_nat n)%nat /\
  (forall lines, file = Some lines ->
     (List.length (read_leetcode_entries json_loads file n)
      <= List.length lines)%nat) /\
  (file = None \/ n <= 0 -> read_leetcode_entries json_loads file n = []).
Proof.
  destruct file as [lines |].
  - rewrite read_leetcode_entries_eq.
    destruct (all_some _) as [es |] eqn:Hall.
    + apply all_some_length in Hall.
      rewrite length_map, length_firstn in Hall.
      split; [lia |]. split.
      * intros lines' H; injection H as <-. lia.
      * intros [H | H]; [discriminate |].
        replace (Z.to_nat n) with 0%nat in Hall by lia.
        destruct es; [reflexivity | discriminate].
    + split; [simpl; lia |]. split; [intros; simpl; lia | reflexivity].
  - split; [simpl; lia |]. split; [discriminate | reflexivity].
Qed.

(** X22. [read_leetcode_entries] is all or nothing over the first
    [num_entries] lines, and never looks further.  If one of these lines,
    stripped, is no JSON text or is not an object, the result is empty,
    whatever the lines before it hold.  If each of them is an object, the
    result has one entry per line, in order, with the object's title and
    content, [''] for a missing key. *)
Theorem read_leetcode_entries_all_or_nothing (lines : list str) (n : Z) :
  (forall k line,
     nth_error lines k = Some line -> Z.of_nat k < n ->
     (forall members, json_loads (strip line) <> Some (JObject members)) ->
     read_leetcode_entries json_loads (Some lines) n = []) /\
  (forall objects,
     Forall2 (fun line members =>
                json_loads (strip line) = Some (JObject members))
       (firstn (Z.to_nat n) lines) objects ->
     read_leetcode_entries json_loads (Some lines) n
     = map entry_of_members objects).
Proof.
  split.
  - intros k line Hk Hkn Hbad. rewrite read_leetcode_entries_eq.
    rewrite all_some_none; [reflexivity |].
    apply in_map_iff. exists line. split.
    + unfold entry_of_line.
      destruct (json_loads (strip line)) as [[| | | | |members] |];
        try reflexivity.
      exfalso; exact (Hbad members eq_refl).
    + apply (nth_error_firstn_In _ lines k); [exact Hk | lia].
  - intros objects Hobj. rewrite read_leetcode_entries_eq.
    rewrite (all_some_objects _ _ Hobj). reflexivity.
Qed.

End ReadingEntries.

Lemma read_leetcode_entries_bounds_witness :
  (Some three_lines = None \/ 0 <= 0) /\
  read_leetcode_entries toy_json_loads (Some three_lines) 0 = [].
Proof.
  split; [right; lia |].
  exact (proj2 (proj2 (read_leetcode_entries_bounds toy_json_loads
                         (Some three_lines) 0))
           (or_intror (Z.le_refl 0))).
Defined.

Lemma read_leetcode_entries_all_or_nothing_witness :
  (nth_error three_lines 1 = Some (lit "[1, 2]
") /\
   1 < 2 /\
   read_leetcode_entries toy_json_loads (Some three_lines) 2 = []) /\
  read_leetcode_entries toy_json_loads (Some three_lines) 1
  = [ {| raw_title := JString (lit "Two Sum"); raw_content := JString [] |} ].
Proof.
  split.
  - split; [reflexivity |]. split; [lia |].
    refine (proj1 (read_leetcode_entries_all_or_nothing toy_json_loads
                     three_lines 2) 1%nat _ eq_refl _ _).
    + simpl; lia.
    + intros members H; discriminate H.
  - refine (proj2 (read_leetcode_entries_all_or_nothing toy_json_loads
                     three_lines 1)
              [[(lit "title", JString (lit "Two Sum"))]] _).
    repeat constructor.
Defined.

(* ================================================================== *)
(** ** Listing the models *)

Lemma split_whitespace_words (s : str) : Forall is_word (split_whitespace s).
Proof.
  induction s as [| c s IH]; cbn [split_whitespace]; [constructor |].
  destruct (isspace c) eqn:Hc; [exact IH |].
  assert (Hone : is_word [c])
    by (split; [discriminate | repeat constructor; exact Hc]).
  destruct s as [| d s']; [constructor; [exact Hone | constructor] |].
  destruct (isspace d) eqn:Hd.
  - constructor; [exact Hone | exact IH].
  - destruct (split_whitespace (d :: s')) as [| w ws];
      [constructor; [exact Hone | constructor] |].
    inversion IH as [| ? ? [Hw Hcs] Hws]; subst.
    constructor; [| exact Hws].
    split; [discriminate | constructor; assumption].
Qed.

Lemma split_whitespace_nil (s : str) :
  split_whitespace s = [] -> lstrip s = [].
Proof.
  induction s as [| c s IH]; cbn [split_whitespace lstrip]; [reflexivity |].
  destruct (isspace c); [exact IH |].
  destruct s as [| d s']; [discriminate |].
  destruct (isspace d); [discriminate |].
  destruct (split_whitespace (d :: s')); discriminate.
Qed.

Lemma nonblank_has_word (line : str) :
  nonblank line = true ->
  exists w ws, split_whitespace line = w :: ws.
Proof.
  unfold nonblank.
  destruct (split_whitespace line) as [| w ws] eqn:Hs; [| eauto].
  apply split_whitespace_nil in Hs.
  unfold strip. rewrite Hs. discriminate.
Qed.

Lemma collect_model_names_eq (lines : list str) :
  forall acc,
    collect_model_names lines acc
    = Some (acc ++ map first_word (filter nonblank lines)).
Proof.
  induction lines as [| line rest IH]; intros acc; cbn [collect_model_names].
  - cbn. rewrite app_nil_r. reflexivity.
  - cbn [filter]. fold (nonblank line).
    destruct (nonblank line) eqn:Hnb.
    + destruct (nonblank_has_word line Hnb) as (w & ws & Hs).
      rewrite Hs, IH. cbn [map]. unfold first_word at 2. rewrite Hs.
      cbn [hd]. rewrite <- app_assoc. reflexivity.
    + apply IH.
Qed.

(** X23. [get_available_models] skips the first line of the stripped output and
    takes the first word of every later line that is not blank; the index
    never fails.  So every name it returns is a word (not empty, without
    whitespace).  It returns no name when the command fails to run or exits
    with a non-zero code. *)
Theorem get_available_models_names (run : run_outcome) :
  (forall stdout stderr,
     run = RunReturns 0 stdout stderr ->
     get_available_models run
     = map first_word (filter nonblank (tl (split_on 10 (strip stdout))))) /\
  (forall name, In name (get_available_models run) -> is_word name) /\
  (check_ollama_server run = false -> get_available_models run = []).
Proof.
  assert (Heq : forall stdout stderr,
     get_available_models (RunReturns 0 stdout stderr)
     = map first_word (filter nonblank (tl (split_on 10 (strip stdout))))).
  { intros stdout stderr. unfold get_available_models. cbn [Z.eqb].
    cbv zeta. rewrite collect_model_names_eq. reflexivity. }
  split; [intros stdout stderr ->; apply Heq |]. split.
  - intros name Hin.
    destruct run as [e | rc out err]; [destruct Hin |].
    destruct (Z.eqb_spec rc 0) as [-> | Hrc].
    + rewrite Heq in Hin. apply in_map_iff in Hin.
      destruct Hin as (line & <- & Hline). apply filter_In in Hline.
      destruct Hline as [_ Hnb].
      destruct (nonblank_has_word line Hnb) as (w & ws & Hs).
      pose proof (split_whitespace_words line) as Hwords.
      unfold first_word. rewrite Hs in *. cbn [hd].
      inversion Hwords; assumption.
    + unfold get_available_models in Hin.
      rewrite (proj2 (Z.eqb_neq _ _) Hrc) in Hin. destruct Hin.
  - destruct run as [e | rc out err]; [reflexivity |].
    unfold check_ollama_server, get_available_models. intros ->. reflexivity.
Qed.

Lemma get_available_models_names_witness :
  get_available_models (RunReturns 0 ollama_list_output [])
  = [lit "qwen3:8b"; lit "sarvam:latest"] /\
  is_word (lit "qwen3:8b") /\
  (check_ollama_server (RunReturns 1 ollama_list_output []) = false /\
   get_available_models (RunReturns 1 ollama_list_output []) = []).
Proof.
  assert (Hrun : get_available_models (RunReturns 0 ollama_list_output [])
                 = [lit "qwen3:8b"; lit "sarvam:latest"])
    by (vm_compute; reflexivity).
  split; [exact Hrun |]. split.
  - apply (proj1 (proj2 (get_available_models_names
                           (RunReturns 0 ollama_list_output [])))).
    rewrite Hrun. left; reflexivity.
  - split; [reflexivity |].
    exact (proj2 (proj2 (get_available_models_names
                           (RunReturns 1 ollama_list_output [])))
             eq_refl).
Defined.

(* ================================================================== *)
(** ** check_db.py *)

Lemma is_error_text_engine_message (r : row) (s : str) :
  trace_hi_with_think r = Some s ->
  ((exists cfg detail, s = error_after_attempts cfg detail) \/
   s = lit "Translation failed: Maximum retries exceeded") ->
  CheckDb.is_error_text r = false.
Proof.
  unfold CheckDb.is_error_text. intros -> [(cfg & detail & ->) | ->];
    reflexivity.
Qed.

(** X24. The check for translation errors of check_db.py does not see the error
    messages of the engine: on a table where every stored translation is a
    message [translate_text_to_hindi] returned as a failure, [error_count]
    is 0, although every such record counts as having a translation. *)
Theorem check_db_misses_engine_errors (w : world) (t : table) :
  db w = Some t ->
  (forall r s,
     In r t -> trace_hi_with_think r = Some s ->
     exists E cfg text w0 w1,
       translate_text_to_hindi_outcome E cfg text w0
       = (Ok (ErrorMessage s), w1)) ->
  exists rep,
    CheckDb.check_database_status w = Some rep /\
    CheckDb.error_count rep = 0%nat /\
    CheckDb.with_hindi rep
    = List.length (filter (fun r => match trace_hi_with_think r with
                                    | Some _ => true | None => false end) t).
Proof.
  intros Hdb Hmsg. unfold CheckDb.check_database_status. rewrite Hdb.
  eexists. split; [reflexivity |].
  cbn [CheckDb.error_count CheckDb.with_hindi]. unfold Sql.count_where.
  split.
  - rewrite (filter_ext_in CheckDb.is_error_text (fun _ => false)).
    + rewrite filter_false. reflexivity.
    + intros r Hin.
      destruct (trace_hi_with_think r) as [s |] eqn:Hs;
        [| unfold CheckDb.is_error_text; rewrite Hs; reflexivity].
      destruct (Hmsg r s Hin Hs) as (E & cfg & text & w0 & w1 & Hrun).
      apply (is_error_text_engine_message r s Hs).
      destruct (retry_loop_error_form _ _ _ _ _ _ _ Hrun)
        as [(detail & Hd) | Hd]; [left; eauto | right; exact Hd].
  - f_equal. apply filter_ext_in. intros r Hin. unfold CheckDb.has_hindi.
    destruct (trace_hi_with_think r) as [s |] eqn:Hs; [| reflexivity].
    destruct (Hmsg r s Hin Hs) as (E & cfg & text & w0 & w1 & Hrun).
    pose proof (returned_nonempty _ _ _ _ _ _ Hrun) as Hne.
    destruct s; [contradiction | reflexivity].
Qed.

Lemma check_db_misses_engine_errors_witness :
  db (fresh (Some table_with_error_message)) = Some table_with_error_message /\
  exists rep,
    CheckDb.check_database_status (fresh (Some table_with_error_message))
    = Some rep /\
    CheckDb.error_count rep = 0%nat /\
    CheckDb.with_hindi rep = 1%nat.
Proof.
  split; [reflexivity |].
  destruct (check_db_misses_engine_errors
              (fresh (Some table_with_error_message))
              table_with_error_message eq_refl) as (rep & Hrep & Herr & Hwith).
  - intros r s [<- | []] Hs. injection Hs as <-.
    exists (always_raises (lit "connection refused")), default_config,
      (lit "use a hash map"), (fresh None),
      (called (after_failures default_config 2 (fresh None))).
    vm_compute; reflexivity.
  - exists rep. split; [exact Hrep |]. split; [exact Herr | exact Hwith].
Defined.

Lemma has_hindi_under_invariant (r : row) :
  row_invariant r -> CheckDb.has_hindi r = has_status completed r.
Proof.
  unfold row_invariant, CheckDb.has_hindi, has_status.
  intros [Hc Hs].
  destruct (trace_hi_with_think r) as [[| c s] |]; simpl.
  - destruct (translation_status r); [reflexivity |].
    destruct (Hc eq_refl) as (s & Hs' & Hne). injection Hs' as <-.
    contradiction.
  - rewrite Hs; [reflexivity |]. eexists; split; [reflexivity | discriminate].
  - destruct (translation_status r); [reflexivity |].
    destruct (Hc eq_refl) as (s & Hs' & _). discriminate.
Qed.

Lemma sum_counts_group (t : table) :
  sum_counts (CheckDb.group_by_status t) = List.length t.
Proof.
  unfold CheckDb.group_by_status, Sql.count_where.
  assert (Hsplit :
    (List.length (filter (fun r => status_eqb (translation_status r) completed) t)
     + List.length (filter (fun r => status_eqb (translation_status r) pending) t)
     = List.length t)%nat).
  { rewrite <- (filter_partition_length
                  (fun r => status_eqb (translation_status r) pending) t).
    f_equal. f_equal. apply filter_ext. intros r.
    destruct (translation_status r); reflexivity. }
  cbn [filter snd].
  destruct (List.length (filter (fun r => status_eqb (translation_status r)
                                            completed) t)) as [| c];
    destruct (List.length (filter (fun r => status_eqb (translation_status r)
                                              pending) t)) as [| p];
    cbn in *; lia.
Qed.

(** X25. The numbers of check_db.py fit together: with and without translation
    add up to the total, the counts per status add up to the total and no
    listed count is zero; and on a table that satisfies the invariant of §3
    the number of records with a translation is the number of completed
    records that [check_database_status] of translate_pipeline.py
    reports. *)
Theorem check_db_numbers_fit (w : world) (t : table) :
  db w = Some t ->
  exists rep,
    CheckDb.check_database_status w = Some rep /\
    CheckDb.total_traces rep = List.length t /\
    Z.of_nat (CheckDb.with_hindi rep) + CheckDb.without_hindi rep
    = Z.of_nat (CheckDb.total_traces rep) /\
    0 <= CheckDb.without_hindi rep /\
    sum_counts (CheckDb.status_counts rep) = CheckDb.total_traces rep /\
    Forall (fun p => snd p <> 0%nat) (CheckDb.status_counts rep) /\
    (Forall row_invariant t ->
     fst (check_database_status w)
     = Ok (Some {| total_traces := CheckDb.total_traces rep;
                   completed_translations := CheckDb.with_hindi rep;
                   pending_translations :=
                     Z.to_nat (CheckDb.without_hindi rep) |})).
Proof.
  intros Hdb. unfold CheckDb.check_database_status. rewrite Hdb.
  eexists. split; [reflexivity |].
  cbn [CheckDb.total_traces CheckDb.with_hindi CheckDb.without_hindi
       CheckDb.status_counts].
  unfold Sql.count_all, Sql.count_where.
  pose proof (filter_partition_length CheckDb.has_hindi t) as Hpart.
  split; [reflexivity |]. split; [lia |]. split; [lia |].
  split; [apply sum_counts_group |]. split.
  - unfold CheckDb.group_by_status. apply Forall_forall. intros p Hp.
    apply filter_In in Hp. destruct Hp as [_ Hp].
    apply negb_true_iff, Nat.eqb_neq in Hp. exact Hp.
  - intros Hinv. rewrite (check_database_status_eq w t Hdb). cbn [fst].
    do 2 f_equal.
    assert (Hwith : List.length (filter CheckDb.has_hindi t)
                    = List.length (filter Sql.is_translated t)).
    { f_equal. apply filter_ext_in. intros r Hr.
      rewrite Forall_forall in Hinv.
      rewrite has_hindi_under_invariant, is_translated_under_invariant;
        auto. }
    pose proof (filter_partition_length Sql.is_untranslated t) as Hpart2.
    rewrite (filter_ext _ _ (fun r => eq_sym (is_translated_negb r)))
      in Hpart2.
    f_equal; lia.
Qed.

Lemma check_db_numbers_fit_witness :
  db (fresh (Some five_records)) = Some five_records /\
  Forall row_invariant five_records /\
  exists rep,
    CheckDb.check_database_status (fresh (Some five_records)) = Some rep /\
    CheckDb.with_hindi rep = 3%nat /\ CheckDb.without_hindi rep = 2 /\
    CheckDb.status_counts rep = [(completed, 3%nat); (pending, 2%nat)] /\
    fst (check_database_status (fresh (Some five_records)))
    = Ok (Some {| total_traces := CheckDb.total_traces rep;
                  completed_translations := CheckDb.with_hindi rep;
                  pending_translations :=
                    Z.to_nat (CheckDb.without_hindi rep) |}).
Proof.
  split; [reflexivity |]. split; [exact five_records_invariant |].
  destruct (check_db_numbers_fit (fresh (Some five_records)) five_records
              eq_refl) as (rep & Hrep & _ & _ & _ & _ & _ & Hpipe).
  exists rep. split; [exact Hrep |].
  injection Hrep as <-.
  split; [reflexivity |]. split; [reflexivity |]. split; [reflexivity |].
  exact (Hpipe five_records_invariant).
Defined.

(* ================================================================== *)
(** ** A database without the table *)

Lemma save_to_database_no_table
  (E : env) (e : entry_with_trace) (es : list entry_with_trace) (w : world) :
  db w = None ->
  exists w',
    save_to_database E (e :: es) w = (Raised no_such_table, w') /\
    db w' = None.
Proof.
  intros Hdb.
  unfold save_to_database, try_except. cbn [for_each]. unfold bind at 1.
  cbv zeta.
  destruct (e_trace_hi_with_think e) as [hi |]; [destruct (truthy hi) |].
  - unfold bind, now, execute_insert. change (db (ticked w)) with (db w).
    rewrite Hdb. eexists. split; [reflexivity | exact Hdb].
  - unfold execute_insert. rewrite Hdb.
    eexists. split; [reflexivity | exact Hdb].
  - unfold execute_insert. rewrite Hdb.
    eexists. split; [reflexivity | exact Hdb].
Qed.

Lemma update_no_table (E : env) (i : Z) (hi : str) (w : world) :
  db w = None ->
  exists w',
    update_translation_in_database E i hi w = (Raised no_such_table, w') /\
    db w' = None.
Proof.
  intros Hdb.
  unfold update_translation_in_database, try_except, bind, now, execute.
  change (db (ticked w)) with (db w). rewrite Hdb.
  eexists. split; [reflexivity | exact Hdb].
Qed.

(** X26. When the file holds no table [leetcode_reasoning], the writers fail
    and the readers hide it: [save_to_database] (with an entry to save)
    and [update_translation_in_database] raise sqlite's error and create
    nothing, while [get_untranslated_traces] returns no trace,
    [check_database_status] returns the empty dictionary, and so
    [process_translations] and [translate_all_pending_traces] return
    without calling the service. *)
Theorem missing_table_behaviour
  (E : env) (cfg : config) (w : world) :
  db w = None ->
  (forall e es,
     fst (save_to_database E (e :: es) w) = Raised no_such_table /\
     db (snd (save_to_database E (e :: es) w)) = None) /\
  (forall i hi,
     fst (update_translation_in_database E i hi w) = Raised no_such_table /\
     db (snd (update_translation_in_database E i hi w)) = None) /\
  get_untranslated_traces w = (Ok [], w) /\
  check_database_status w = (Ok None, w) /\
  process_translations E cfg w = (Ok tt, w) /\
  translate_all_pending_traces E cfg w = (Ok None, w) /\
  CheckDb.check_database_status w = None.
Proof.
  intros Hdb.
  assert (Hfetch : get_untranslated_traces w = (Ok [], w)).
  { rewrite get_untranslated_traces_eq. unfold records. rewrite Hdb.
    reflexivity. }
  split; [| split; [| split; [| split; [| split; [| split]]]]].
  - intros e es.
    destruct (save_to_database_no_table E e es w Hdb) as (w' & -> & Hdb').
    split; [reflexivity | exact Hdb'].
  - intros i hi.
    destruct (update_no_table E i hi w Hdb) as (w' & -> & Hdb').
    split; [reflexivity | exact Hdb'].
  - exact Hfetch.
  - apply check_database_status_no_table, Hdb.
  - unfold process_translations, bind. rewrite Hfetch. reflexivity.
  - unfold translate_all_pending_traces, bind.
    rewrite (check_database_status_no_table w Hdb). reflexivity.
  - unfold CheckDb.check_database_status. rewrite Hdb. reflexivity.
Qed.

Lemma missing_table_behaviour_witness :
  db (fresh None) = None /\
  translate_all_pending_traces (always_answers (lit "hash map lo"))
    default_config (fresh None) = (Ok None, fresh None) /\
  fst (update_translation_in_database (always_answers (lit "hash map lo"))
         1 (lit "hash map lo") (fresh None)) = Raised no_such_table.
Proof.
  split; [reflexivity |].
  destruct (missing_table_behaviour (always_answers (lit "hash map lo"))
              default_config (fresh None) eq_refl)
    as (_ & Hupdate & _ & _ & _ & Hbatch & _).
  split; [exact Hbatch |]. exact (proj1 (Hupdate 1 (lit "hash map lo"))).
Defined.

(* ================================================================== *)
(** ** Listing the problems *)

Lemma Sorted_firstn {A} (R : A -> A -> Prop) (n : nat) (l : list A) :
  Sorted R l -> Sorted R (firstn n l).
Proof.
  revert l; induction n as [| n IH]; intros l Hs; [constructor |].
  destruct l as [| x l]; [constructor |].
  inversion Hs as [| ? ? Hs' Hhd]; subst. cbn [firstn].
  constructor; [apply IH; exact Hs' |].
  destruct n; [constructor |].
  destruct Hhd; cbn [firstn]; constructor; assumption.
Qed.

(** X27. For a limit that is an INTEGER of SQLite, the listing of
    [list_problems] shows the rows in ascending order of id, all of them
    when the limit is negative and otherwise the first [limit] of them;
    its Hindi column says whether the translation is non-null and
    non-empty.  For a limit outside that range the query raises and
    nothing is listed. *)
Theorem list_problems_lists_by_id (limit : Z) (w : world) (t : table) :
  db w = Some t ->
  (- 2 ^ 63 <= limit < 2 ^ 63 ->
   Sorted Z.le (map (fun p => fst (fst (fst (fst p))))
                  (CheckDb.list_problems limit w)) /\
   List.length (CheckDb.list_problems limit w)
   = (if limit <? 0 then List.length t
      else Nat.min (Z.to_nat limit) (List.length t)) /\
   (forall i ti st hh cr,
      In (i, ti, st, hh, cr) (CheckDb.list_problems limit w) ->
      exists r, In r t /\ id r = i /\ title r = ti /\
                (hh = true <-> exists s, trace_hi_with_think r = Some s
                                         /\ s <> []))) /\
  (~ (- 2 ^ 63 <= limit < 2 ^ 63) -> CheckDb.list_problems limit w = []).
Proof.
  intros Hdb. unfold CheckDb.list_problems. rewrite Hdb.
  cbn [bind_parameters]. split.
  2:{ intros Hbad. destruct (bind_integer_overflow limit Hbad) as (e & ->).
      reflexivity. }
  intros Hlimit. rewrite bind_integer by exact Hlimit.
  unfold CheckDb.select_problems, CheckDb.limit_rows.
  set (proj := fun r : row => (id r, title r, translation_status r,
                               CheckDb.has_hindi r, created_at r)).
  assert (Hall : Sorted Z.le (map (fun p => fst (fst (fst (fst p))))
                                (map proj (Sql.order_by_id t)))).
  { rewrite map_map. apply (ascending_ids _ (order_by_id_sorted t)). }
  assert (Hin : forall x, In x (map proj (Sql.order_by_id t)) ->
                          exists r, In r t /\ x = proj r).
  { intros x Hx. apply in_map_iff in Hx. destruct Hx as (r & <- & Hr).
    exists r. split; [| reflexivity].
    exact (Permutation_in _ (Permutation_sym (order_by_id_perm t)) Hr). }
  assert (Hhh : forall r, CheckDb.has_hindi r = true <->
                          exists s, trace_hi_with_think r = Some s /\ s <> []).
  { intros r. unfold CheckDb.has_hindi.
    destruct (trace_hi_with_think r) as [[| c s] |]; simpl; split;
      try discriminate.
    - intros (s & Hs & Hne). injection Hs as <-. contradiction.
    - intros _. eexists; split; [reflexivity | discriminate].
    - reflexivity.
    - intros (s & Hs & _). discriminate. }
  split; [| split].
  - destruct (limit <? 0); [exact Hall |].
    rewrite <- firstn_map. apply Sorted_firstn, Hall.
  - destruct (limit <? 0).
    + rewrite length_map. apply length_order_by_id.
    + rewrite length_firstn, length_map, length_order_by_id. reflexivity.
  - intros i ti st hh cr Hx.
    assert (Hx' : In (i, ti, st, hh, cr) (map proj (Sql.order_by_id t))).
    { destruct (limit <? 0); [exact Hx |].
      rewrite <- (firstn_skipn (Z.to_nat limit)). apply in_or_app; left.
      exact Hx. }
    destruct (Hin _ Hx') as (r & Hr & Heq). unfold proj in Heq.
    injection Heq as -> -> -> -> ->.
    exists r. split; [exact Hr |]. split; [reflexivity |].
    split; [reflexivity | apply Hhh].
Qed.

(** X28. What [list_problems] and [check_database_status] print of a title or
    of an error is bounded: a shortened title has at most 35 characters,
    a shortened error at most 83, and a text within the limit is printed
    as it is. *)
Theorem shortened_texts_are_bounded (s : str) :
  (List.length (CheckDb.title_short s) <= 35)%nat /\
  (List.length (CheckDb.error_short s) <= 83)%nat /\
  ((List.length s <= 35)%nat -> CheckDb.title_short s = s) /\
  ((List.length s <= 80)%nat -> CheckDb.error_short s = s).
Proof.
  unfold CheckDb.title_short, CheckDb.error_short.
  destruct (Z.ltb_spec 35 (Z.of_nat (List.length s))) as [H35 | H35];
    destruct (Z.ltb_spec 80 (Z.of_nat (List.length s))) as [H80 | H80];
    rewrite ?length_app, ?length_firstn; cbn [List.length lit map
      list_ascii_of_string];
    repeat split; try lia; intros; try reflexivity; lia.
Qed.

(* ================================================================== *)
(** ** Whole runs and the invariant of §3 *)

(** X20. Runs of the program keep the invariant of §3, whatever the service
    does: after [main], and after [translate_all_pending_traces], a record
    is [completed] iff its translation is non-null and non-empty, provided
    this held before.  What the runs write comes from the engine, which
    never returns the empty string. *)
Theorem runs_keep_invariant
  (E : env) (cfg : config) (entries : list entry) (w : world) :
  store_invariant w ->
  store_invariant (snd (main E cfg entries w)) /\
  store_invariant (snd (translate_all_pending_traces E cfg w)).
Proof.
  intros Hw. split.
  - apply main_invariant, Hw.
  - apply translate_all_pending_traces_invariant, Hw.
Qed.

Lemma runs_keep_invariant_witness :
  store_invariant (fresh (Some five_records)) /\
  store_invariant
    (snd (main (always_raises (lit "connection refused")) default_config
            [three_sum_entry] (fresh (Some five_records)))) /\
  store_invariant
    (snd (translate_all_pending_traces
            (always_raises (lit "connection refused")) default_config
            (fresh (Some five_records)))).
Proof.
  assert (H : store_invariant (fresh (Some five_records)))
    by exact five_records_invariant.
  split; [exact H |].
  exact (runs_keep_invariant (always_raises (lit "connection refused"))
           default_config [three_sum_entry] (fresh (Some five_records)) H).
Defined.

Lemma echoed_prompt_is_returned_witness :
  0 < MAX_RETRIES default_config /\
  translate_text_to_hindi echo_prompt default_config (lit "use a hash map")
    (fresh None)
  = (Ok (translation_prompt (lit "use a hash map")), called (fresh None)).
Proof.
  assert (H0 : 0 < MAX_RETRIES default_config) by reflexivity.
  split; [exact H0 |].
  exact (echoed_prompt_is_returned default_config (lit "use a hash map")
           (fresh None) H0).
Defined.

Lemma list_problems_lists_by_id_witness :
  db (fresh (Some five_records)) = Some five_records /\
  - 2 ^ 63 <= 2 < 2 ^ 63 /\
  ~ (- 2 ^ 63 <= 2 ^ 63 < 2 ^ 63) /\
  In (1, lit "Two Sum", completed, true, 0)
    (CheckDb.list_problems 2 (fresh (Some five_records))) /\
  List.length (CheckDb.list_problems 2 (fresh (Some five_records))) = 2%nat /\
  (exists r, In r five_records /\ id r = 1 /\ title r = lit "Two Sum" /\
             (true = true <-> exists s, trace_hi_with_think r = Some s
                                        /\ s <> [])) /\
  CheckDb.list_problems (2 ^ 63) (fresh (Some five_records)) = [].
Proof.
  assert (Hlimit : - 2 ^ 63 <= 2 < 2 ^ 63) by lia.
  assert (Hbad : ~ (- 2 ^ 63 <= 2 ^ 63 < 2 ^ 63)) by lia.
  assert (Hin : In (1, lit "Two Sum", completed, true, 0)
                  (CheckDb.list_problems 2 (fresh (Some five_records))))
    by (left; reflexivity).
  split; [reflexivity |]. split; [exact Hlimit |]. split; [exact Hbad |].
  split; [exact Hin |].
  destruct (list_problems_lists_by_id 2 (fresh (Some five_records))
              five_records eq_refl) as (Hok & _).
  destruct (Hok Hlimit) as (_ & Hlen & Hrows).
  split; [exact Hlen |]. split; [exact (Hrows _ _ _ _ _ Hin) |].
  exact (proj2 (list_problems_lists_by_id (2 ^ 63) (fresh (Some five_records))
                  five_records eq_refl) Hbad).
Defined.

Lemma shortened_texts_are_bounded_witness :
  (List.length (lit "Two Sum") <= 35)%nat /\
  CheckDb.title_short (lit "Two Sum") = lit "Two Sum" /\
  (List.length
     (CheckDb.title_short
        (lit "Longest Substring Without Repeating Characters")) <= 35)%nat.
Proof.
  assert (H : (List.length (lit "Two Sum") <= 35)%nat) by (simpl; lia).
  split; [exact H |]. split.
  - exact (proj1 (proj2 (proj2 (shortened_texts_are_bounded (lit "Two Sum"))))
             H).
  - exact (proj1 (shortened_texts_are_bounded
                    (lit "Longest Substring Without Repeating Characters"))).
Defined.

(* ================================================================== *)
(** ** What [process_translations] writes *)

Lemma same_id_same_row (t : table) (r r0 : row) :
  NoDup (map id t) -> In r t -> In r0 t -> id r = id r0 -> r = r0.
Proof.
  induction t as [| x t IH]; cbn [map In]; [tauto |].
  intros Hnd Hr Hr0 Hid. inversion Hnd as [| ? ? Hx Hnd']; subst.
  destruct Hr as [-> | Hr], Hr0 as [-> | Hr0].
  - reflexivity.
  - exfalso; apply Hx. rewrite Hid. apply in_map, Hr0.
  - exfalso; apply Hx. rewrite <- Hid. apply in_map, Hr.
  - apply IH; assumption.
Qed.

Lemma translated_record_later (E : env) (cfg : config) (w w1 w2 : world)
  (r r' : row) :
  (calls w1 <= calls w2)%nat -> (clock w1 <= clock w2)%nat ->
  translated_record E cfg w w1 r r' -> translated_record E cfg w w2 r r'.
Proof.
  intros Hcalls Hclock (Himm & Hst & (wa & wb & s & Ha & Hb & Hrun & Hhi)
                        & (k & Hk & Hat)).
  split; [exact Himm |]. split; [exact Hst |]. split.
  - exists wa, wb, s. repeat split; try assumption; lia.
  - exists k. split; [lia | exact Hat].
Qed.

Lemma translated_record_translated (E : env) (cfg : config) (w w' : world)
  (r r' : row) :
  translated_record E cfg w w' r r' -> Sql.is_untranslated r' = false.
Proof.
  intros (_ & Hst & (wa & wb & s & _ & _ & _ & Hhi) & _).
  unfold Sql.is_untranslated. rewrite Hst, Hhi. reflexivity.
Qed.

Lemma translated_record_id (E : env) (cfg : config) (w w' : world)
  (r r' : row) :
  translated_record E cfg w w' r r' -> id r' = id r.
Proof.
  intros (Himm & _).
  apply (f_equal (fun p => fst (fst (fst (fst p))))) in Himm. exact Himm.
Qed.

(** The loop of [process_translations], record by record: [done] are the
    ids already handled. *)
Lemma process_loop_records (E : env) (cfg : config) (t : table) (w0 : world) :
  0 <= RETRY_DELAY cfg -> time_sleep E (RETRY_DELAY cfg) = None ->
  encodable_replies E ->
  NoDup (map id t) ->
  Forall (fun r => - 2 ^ 63 <= id r < 2 ^ 63) t ->
  forall (traces : list trace) (done : list Z) (w : world) (tc : table),
    (forall tr, In tr traces -> exists r, In r t /\ tr = trace_of_row r) ->
    NoDup (map trace_id traces) ->
    (forall tr, In tr traces -> ~ In (trace_id tr) done) ->
    db w = Some tc ->
    (calls w0 <= calls w)%nat -> (clock w0 <= clock w)%nat ->
    List.length tc = List.length t ->
    (forall n r, nth_error t n = Some r ->
       exists r', nth_error tc n = Some r' /\
         (In (id r) done -> translated_record E cfg w0 w r r') /\
         (~ In (id r) done -> r' = r)) ->
    exists w' t',
      for_each traces (fun trace =>
        bind (translate_reasoning_trace E cfg (trace_en trace)
                (trace_title trace))
          (fun hindi_trace =>
             update_translation_in_database E (trace_id trace) hindi_trace)) w
      = (Ok tt, w') /\
      db w' = Some t' /\
      List.length t' = List.length t /\
      (forall n r, nth_error t n = Some r ->
         exists r', nth_error t' n = Some r' /\
           (In (id r) (map trace_id traces ++ done) ->
            translated_record E cfg w0 w' r r') /\
           (~ In (id r) (map trace_id traces ++ done) -> r' = r)).
Proof.
  intros Hdelay Htimer Henc Hnd Hrange.
  induction traces as [| tr rest IH];
    intros done w tc Hfrom Hnd_tr Hfresh Hdb Hcalls Hclock Hlen Hinv.
  - exists w, tc. split; [reflexivity |]. split; [exact Hdb |].
    split; [exact Hlen |]. exact Hinv.
  - destruct (Hfrom tr (or_introl eq_refl)) as (r0 & Hr0 & Htr).
    assert (Hid : - 2 ^ 63 <= trace_id tr < 2 ^ 63).
    { rewrite Htr. cbn [trace_of_row trace_id].
      rewrite Forall_forall in Hrange. apply Hrange, Hr0. }
    cbn [for_each]. unfold bind at 1.
    destruct (process_round E cfg tr w tc Hdelay Htimer Henc Hid Hdb)
      as (hi & w1 & Hengine & Hdb1 & Hcalls1 & Hclock1 & Hrun).
    rewrite Hrun.
    set (a := datetime_now E (clock w1)) in *.
    set (tn := Sql.update_where_id hi a (trace_id tr) tc) in *.
    set (wn := set_db (Some tn) (ticked w1)) in *.
    destruct (update_where_id_rows hi a (trace_id tr) tc) as [Hlen_n Hrows].
    cbn [map] in Hnd_tr. apply NoDup_cons_iff in Hnd_tr.
    destruct Hnd_tr as [Htr_new Hnd_rest].
    assert (Hcalls_n : (calls w <= calls wn)%nat) by (cbn; lia).
    assert (Hclock_n : (clock w <= clock wn)%nat) by (cbn; lia).
    destruct (IH (trace_id tr :: done) wn tn)
      as (w' & t' & Hrest & Hdb' & Hlen' & Hinv').
    + intros x Hx. apply Hfrom. right. exact Hx.
    + exact Hnd_rest.
    + intros x Hx [Heq | Hin].
      * apply Htr_new. rewrite Heq. apply in_map, Hx.
      * exact (Hfresh x (or_intror Hx) Hin).
    + reflexivity.
    + lia.
    + lia.
    + unfold tn. rewrite Hlen_n. exact Hlen.
    + intros n r Hn.
      destruct (Hinv n r Hn) as (r' & Hn' & Hdone & Hnot).
      destruct (Hrows n r' Hn') as (r'' & Hn'' & Himm & Hset & Hkeep).
      exists r''. split; [exact Hn'' |].
      assert (Hid' : id r' = id r).
      { destruct (in_dec Z.eq_dec (id r) done) as [Hin | Hout].
        - exact (translated_record_id _ _ _ _ _ _ (Hdone Hin)).
        - rewrite (Hnot Hout). reflexivity. }
      destruct (Z.eq_dec (id r) (trace_id tr)) as [Heq | Hne].
      * assert (Hout : ~ In (id r) done).
        { rewrite Heq. apply Hfresh. left; reflexivity. }
        assert (Hr : r = r0).
        { apply (same_id_same_row t); try assumption.
          - exact (nth_error_In _ _ Hn).
          - rewrite Heq, Htr. reflexivity. }
        pose proof (Hnot Hout) as Hsame. subst r'.
        destruct (Hset Heq) as (Hhi & Hst & Hat).
        split; [| intros Hno; exfalso; apply Hno; left; symmetry; exact Heq].
        intros _. split; [exact Himm |]. split; [exact Hst |]. split.
        -- exists w, w1, hi. split; [exact Hcalls |].
           split; [cbn; lia |].
           split; [| exact Hhi].
           rewrite Hr, Htr in *. exact Hengine.
        -- exists (clock w1). split; [cbn; lia | exact Hat].
      * assert (Hsame : r'' = r') by (apply Hkeep; rewrite Hid'; exact Hne).
        subst r''. split.
        -- intros [Heq | Hin]; [exfalso; apply Hne; symmetry; exact Heq |].
           apply (translated_record_later E cfg w0 w wn); try assumption.
           exact (Hdone Hin).
        -- intros Hno. apply Hnot. intros Hin. apply Hno. right. exact Hin.
    + exists w', t'. split; [exact Hrest |]. split; [exact Hdb' |].
      split; [exact Hlen' |].
      intros n r Hn. destruct (Hinv' n r Hn) as (r' & Hn' & Hdone & Hnot).
      exists r'. split; [exact Hn' |]. split.
      * intros Hin. apply Hdone.
        cbn [map app] in Hin. apply in_app_iff.
        destruct Hin as [Heq | Hin]; [right; left; exact Heq |].
        apply in_app_iff in Hin. destruct Hin as [Hin | Hin];
          [left; exact Hin | right; right; exact Hin].
      * intros Hno. apply Hnot. intros Hin. apply Hno.
        cbn [map app]. apply in_app_iff in Hin.
        destruct Hin as [Hin | [Heq | Hin]];
          [right; apply in_app_iff; left; exact Hin
          | left; exact Heq
          | right; apply in_app_iff; right; exact Hin].
Qed.

(** X12. On a table that exists, with distinct ids that are INTEGERs of
    SQLite, a delay [time.sleep] takes and a service whose texts UTF-8
    encodes, [process_translations] returns normally and leaves no record
    untranslated.  Every record that was pending or had no translation is
    [completed] afterwards and holds what the engine returned for its
    trace during the run, an error message included; every other record
    is as it was; no row is added or removed. *)
Theorem process_translations_leaves_none_pending
  (E : env) (cfg : config) (w : world) (t : table) :
  db w = Some t ->
  NoDup (map id t) ->
  Forall (fun r => - 2 ^ 63 <= id r < 2 ^ 63) t ->
  0 <= RETRY_DELAY cfg ->
  time_sleep E (RETRY_DELAY cfg) = None ->
  encodable_replies E ->
  exists w' t',
    process_translations E cfg w = (Ok tt, w') /\
    db w' = Some t' /\
    List.length t' = List.length t /\
    (forall n r, nth_error t n = Some r ->
       exists r', nth_error t' n = Some r' /\
         (Sql.is_untranslated r = true ->
          translated_record E cfg w w' r r') /\
         (Sql.is_untranslated r = false -> r' = r)) /\
    filter Sql.is_untranslated t' = [] /\
    fst (get_untranslated_traces w') = Ok [].
Proof.
  intros Hdb Hnd Hrange Hdelay Htimer Henc.
  assert (Hrec : records w = t) by (unfold records; rewrite Hdb; reflexivity).
  set (traces := map trace_of_row
                   (Sql.order_by_id (filter Sql.is_untranslated t))).
  assert (Hfrom : forall tr, In tr traces ->
                             exists r, In r t /\ tr = trace_of_row r).
  { intros tr Htr. apply in_fetched in Htr.
    destruct Htr as (r & Hin & _ & ->). eauto. }
  assert (Hnd_tr : NoDup (map trace_id traces)).
  { unfold traces. rewrite map_map. cbn [trace_of_row trace_id].
    change (fun x : row => id x) with id.
    apply (Permutation_NoDup
             (Permutation_map id (order_by_id_perm
                                    (filter Sql.is_untranslated t)))).
    apply NoDup_filter_ids, Hnd. }
  assert (Hmember : forall r, In r t ->
            (In (id r) (map trace_id traces ++ [])
             <-> Sql.is_untranslated r = true)).
  { intros r Hr. rewrite app_nil_r. split.
    - intros Hin. apply in_map_iff in Hin. destruct Hin as (tr & Hid & Htr).
      apply in_fetched in Htr. destruct Htr as (r0 & Hr0 & Hu & ->).
      cbn [trace_of_row trace_id] in Hid.
      rewrite (same_id_same_row t r r0 Hnd Hr Hr0 (eq_sym Hid)). exact Hu.
    - intros Hu. apply in_map_iff. exists (trace_of_row r).
      split; [reflexivity |]. apply in_fetched. exists r; auto. }
  destruct (process_loop_records E cfg t w Hdelay Htimer Henc Hnd Hrange
              traces [] w t Hfrom Hnd_tr (fun _ _ H => H) Hdb
              (Nat.le_refl _) (Nat.le_refl _) eq_refl)
    as (w' & t' & Hrun & Hdb' & Hlen & Hinv).
  { intros n r Hn. exists r. split; [exact Hn |].
    split; [intros [] | reflexivity]. }
  assert (Hrows : forall n r, nth_error t n = Some r ->
            exists r', nth_error t' n = Some r' /\
              (Sql.is_untranslated r = true ->
               translated_record E cfg w w' r r') /\
              (Sql.is_untranslated r = false -> r' = r)).
  { intros n r Hn. destruct (Hinv n r Hn) as (r' & Hn' & Hdone & Hnot).
    pose proof (Hmember r (nth_error_In _ _ Hn)) as Hm.
    exists r'. split; [exact Hn' |]. split.
    - intros Hu. apply Hdone, Hm, Hu.
    - intros Hu. apply Hnot. intros Hin. apply Hm in Hin. congruence. }
  assert (Hnone : filter Sql.is_untranslated t' = []).
  { assert (Hall : Forall (fun r' => Sql.is_untranslated r' = false) t').
    { apply Forall_forall. intros r' Hr'.
      apply In_nth_error in Hr'. destruct Hr' as (n & Hn').
      assert (Hlt : (n < List.length t)%nat).
      { rewrite <- Hlen. apply nth_error_Some. congruence. }
      destruct (nth_error t n) as [r |] eqn:Hn;
        [| apply nth_error_None in Hn; lia].
      destruct (Hrows n r Hn) as (x & Hx & Hyes & Hno).
      rewrite Hn' in Hx. injection Hx as <-.
      destruct (Sql.is_untranslated r) eqn:Hu.
      - exact (translated_record_translated _ _ _ _ _ _ (Hyes eq_refl)).
      - rewrite (Hno eq_refl). exact Hu. }
    clear - Hall. induction t' as [| r t' IH]; [reflexivity |].
    inversion Hall as [| ? ? Hr Hrest]; subst.
    cbn [filter]. rewrite Hr. apply IH, Hrest. }
  assert (Hfetch : fst (get_untranslated_traces w') = Ok []).
  { rewrite get_untranslated_traces_eq. unfold records.
    rewrite Hdb', Hnone. reflexivity. }
  unfold process_translations, bind at 1.
  rewrite get_untranslated_traces_eq, Hrec. fold traces.
  destruct traces as [| tr rest] eqn:Htraces.
  - cbn in Hrun. injection Hrun as <-.
    rewrite Hdb in Hdb'. injection Hdb' as <-.
    exists w, t. split; [reflexivity |]. split; [exact Hdb |].
    split; [reflexivity |]. split; [exact Hrows |].
    split; [exact Hnone | exact Hfetch].
  - exists w', t'. split; [exact Hrun |]. split; [exact Hdb' |].
    split; [exact Hlen |]. split; [exact Hrows |].
    split; [exact Hnone | exact Hfetch].
Qed.

Lemma process_translations_leaves_none_pending_witness :
  db (fresh (Some five_records)) = Some five_records /\
  NoDup (map id five_records) /\
  Forall (fun r => - 2 ^ 63 <= id r < 2 ^ 63) five_records /\
  0 <= RETRY_DELAY default_config /\
  encodable_replies (always_raises (lit "connection refused")) /\
  exists w' t',
    process_translations (always_raises (lit "connection refused"))
      default_config (fresh (Some five_records)) = (Ok tt, w') /\
    db w' = Some t' /\
    List.length t' = 5%nat /\
    map (fun r => (id r, translation_status r, trace_hi_with_think r)) t'
    = [ (1, completed, Some (lit "hash map lo"));
        (2, completed,
         Some (lit "Translation error after 3 attempts: connection refused"));
        (3, completed, Some (lit "letters gino"));
        (4, completed, Some (lit "fibonacci jaisa"));
        (5, completed,
         Some (lit "Translation error after 3 attempts: connection refused")) ] /\
    fst (get_untranslated_traces w') = Ok [].
Proof.
  assert (Hnd : NoDup (map id five_records)).
  { repeat constructor; simpl; intuition discriminate. }
  assert (Hrange : Forall (fun r => - 2 ^ 63 <= id r < 2 ^ 63) five_records)
    by (repeat constructor; cbn; lia).
  assert (Hdelay : 0 <= RETRY_DELAY default_config) by (simpl; lia).
  assert (Henc : encodable_replies (always_raises (lit "connection refused")))
    by (apply always_raises_encodable; reflexivity).
  split; [reflexivity |]. split; [exact Hnd |]. split; [exact Hrange |].
  split; [exact Hdelay |]. split; [exact Henc |].
  destruct (process_translations_leaves_none_pending
              (always_raises (lit "connection refused")) default_config
              (fresh (Some five_records)) five_records eq_refl Hnd Hrange
              Hdelay eq_refl Henc)
    as (w' & t' & Hrun & Hdb & Hlen & _ & _ & Hfetch).
  exists w', t'. split; [exact Hrun |]. split; [exact Hdb |].
  split; [exact Hlen |]. split; [| exact Hfetch].
  assert (Hcomputed :
    process_translations (always_raises (lit "connection refused"))
      default_config (fresh (Some five_records))
    = (Ok tt, snd (process_translations
                     (always_raises (lit "connection refused"))
                     default_config (fresh (Some five_records)))))
    by (vm_compute; reflexivity).
  rewrite Hcomputed in Hrun. injection Hrun as <-.
  vm_compute in Hdb. injection Hdb as <-. vm_compute. reflexivity.
Defined.
